(** * DeepSeek chat formatter: a shallow embedding of [src/formatter.js]

    The development follows the class [DeepSeekFormatter] method by method.

    - JavaScript strings are sequences of UTF-16 code units: [jstr] is
      [list N].  The regular expressions of the source carry no [u] flag,
      so they work on code units, as the model does.
    - [String.prototype.replace] with a global regular expression is
      [replace_all]: it scans the subject from left to right, asks a
      [matcher] for the match that starts at the current position, copies
      one code unit when there is none, and resumes after the match
      otherwise.  Each regular expression of the source is one matcher.
    - Exceptions, the statistics counters and the written files are
      threaded explicitly ([outcome], [State]).
    - [while] loops take fuel; running out of fuel is the outcome [Hang],
      never a result.
    - What the program asks of the engine and of the libraries is the
      record [Runtime]: dates, the file system, the length an array can
      reach and [Array.prototype.sort].
    - Strings have no maximal length in the model: a document longer than
      the engine allows is outside it. *)

From Stdlib Require Import NArith ZArith Decimal DecimalString DecimalNat.
From stdpp Require Import base option list gmap strings sorting.

Local Open Scope N_scope.
Local Open Scope nat_scope.

(** ** Strings as code units *)

Abbreviation jstr := (list N).

(** [u] turns a literal of the source into its code units (all below 128). *)
Definition u (s : string) : jstr :=
  map (fun a => N.of_nat (Ascii.nat_of_ascii a)) (String.list_ascii_of_string s).

(** The double quote, written by its code so that literals stay simple. *)
Definition dq : jstr := [34%N].
Definition nl : jstr := [10%N].

Definition c_amp : N := 38.
Definition c_lt : N := 60.
Definition c_gt : N := 62.
Definition c_dq : N := 34.
Definition c_sq : N := 39.
Definition c_nl : N := 10.
Definition c_us : N := 95.

Definition memN (c : N) (l : list N) : bool := existsb (N.eqb c) l.

(** LineTerminator of ECMAScript: LF, CR, LS, PS.  The dot of a regular
    expression matches everything else; with the [m] flag [^] and [$]
    match next to one of them. *)
Definition isLT (c : N) : bool := memN c [10; 13; 8232; 8233]%N.

(** The class [\s], which is also what [trim] strips: WhiteSpace and
    LineTerminator. *)
Definition isSpace (c : N) : bool :=
  memN c [9; 10; 11; 12; 13; 32; 160; 5760; 8232; 8233; 8239; 8287; 12288; 65279]%N
  || ((8192 <=? c)%N && (c <=? 8202)%N).

(** The class [\w]: [A-Za-z0-9_]. *)
Definition isWord (c : N) : bool :=
  ((65 <=? c)%N && (c <=? 90)%N) || ((97 <=? c)%N && (c <=? 122)%N)
  || ((48 <=? c)%N && (c <=? 57)%N) || (c =? 95)%N.

(** [strip_prefix p s] is the rest of [s] after the literal [p]. *)
Fixpoint strip_prefix (p s : jstr) : option jstr :=
  match p with
  | [] => Some s
  | a :: p' =>
      match s with
      | [] => None
      | b :: s' => if (a =? b)%N then strip_prefix p' s' else None
      end
  end.

(** [span f s] splits [s] after its longest prefix of units satisfying [f]:
    what a greedy [[class]*] consumes. *)
Fixpoint span (f : N -> bool) (s : jstr) : jstr * jstr :=
  match s with
  | [] => ([], [])
  | c :: t => if f c then let '(a, b) := span f t in (c :: a, b) else ([], s)
  end.

(** First occurrence of the literal [p] in [s]: the text before it and the
    text after it (what a lazy [[\s\S]*?] followed by [p] finds). *)
Fixpoint find_sub (p s : jstr) : option (jstr * jstr) :=
  match strip_prefix p s with
  | Some r => Some ([], r)
  | None =>
      match s with
      | [] => None
      | c :: t =>
          match find_sub p t with
          | Some (a, b) => Some (c :: a, b)
          | None => None
          end
      end
  end.

(** Index of the last occurrence of [p] in [s] (what a greedy [.*] followed
    by [p] backtracks to). *)
Fixpoint find_last (p s : jstr) : option nat :=
  match s with
  | [] => None
  | c :: t =>
      match find_last p t with
      | Some k => Some (S k)
      | None => match strip_prefix p s with Some _ => Some 0 | None => None end
      end
  end.

(** [String.prototype.trim]. *)
Fixpoint trimStart (s : jstr) : jstr :=
  match s with
  | [] => []
  | c :: t => if isSpace c then trimStart t else s
  end.

Definition trim (s : jstr) : jstr := rev (trimStart (rev (trimStart s))).

(** ** [replace] with a global regular expression *)

(** A matcher receives whether the position is at the start of a line
    (for [^] under the [m] flag) and the subject from the position on.  It
    answers with the replacement text and the length of the match, which is
    never 0 for the expressions of this program. *)
Definition matcher := bool -> jstr -> option (jstr * nat).

Fixpoint replace_go (m : matcher) (bol : bool) (skip : nat) (s : jstr) : jstr :=
  match s with
  | [] => []
  | c :: t =>
      match skip with
      | S k => replace_go m (isLT c) k t
      | O =>
          match m bol s with
          | Some (r, n) => r ++ replace_go m (isLT c) (pred n) t
          | None => c :: replace_go m (isLT c) 0 t
          end
      end
  end.

Definition replace_all (m : matcher) (s : jstr) : jstr := replace_go m true 0 s.

(** The global class of the five units ampersand, less-than, greater-than,
    double quote and apostrophe, with the callback [m => map[m]]. *)
Definition entity (c : N) : option jstr :=
  if (c =? c_amp)%N then Some (u "&amp;")
  else if (c =? c_lt)%N then Some (u "&lt;")
  else if (c =? c_gt)%N then Some (u "&gt;")
  else if (c =? c_dq)%N then Some (u "&quot;")
  else if (c =? c_sq)%N then Some (u "&#039;")
  else None.

Definition m_entity : matcher := fun _ s =>
  match s with
  | [] => None
  | c :: _ => match entity c with Some e => Some (e, 1) | None => None end
  end.

(** [escapeHtml(text)] on a string; the guard [!text] returns [''] for the
    empty string. *)
Definition escapeHtml (text : jstr) : jstr :=
  match text with
  | [] => []
  | _ => replace_all m_entity text
  end.

(** [open ([^d]+) close] where [d] is the unit excluded from the body. *)
Definition m_delim (open : jstr) (d : N) (close : jstr) (l r : jstr) : matcher :=
  fun _ s =>
    match strip_prefix open s with
    | None => None
    | Some s1 =>
        let '(body, s2) := span (fun c => negb (c =? d)%N) s1 in
        match body, strip_prefix close s2 with
        | _ :: _, Some _ =>
            Some (l ++ body ++ r, length open + length body + length close)
        | _, _ => None
        end
    end.

(** [^prefix(.+)$] under the flags [gm]. *)
Definition m_line (prefix l r : jstr) : matcher :=
  fun bol s =>
    if bol then
      match strip_prefix prefix s with
      | None => None
      | Some s1 =>
          let '(body, _) := span (fun c => negb (isLT c)) s1 in
          match body with
          | [] => None
          | _ :: _ => Some (l ++ body ++ r, length prefix + length body)
          end
      end
    else None.

(** [/```(\w+)?\n([\s\S]*?)```/g] with the callback that escapes the
    trimmed body again. *)
Definition m_fence : matcher := fun _ s =>
  match strip_prefix (u "```") s with
  | None => None
  | Some s1 =>
      let '(lang, s2) := span isWord s1 in
      match strip_prefix [c_nl] s2 with
      | None => None
      | Some s3 =>
          match find_sub (u "```") s3 with
          | None => None
          | Some (code, _) =>
              Some (u "<pre><code>" ++ escapeHtml (trim code) ++ u "</code></pre>",
                    3 + length lang + 1 + length code + 3)
          end
      end
  end.

(** One round of the group [<li>.*<\/li>\n?]: its length. *)
Definition li_group (s : jstr) : option nat :=
  match strip_prefix (u "<li>") s with
  | None => None
  | Some s1 =>
      let '(line, rest) := span (fun c => negb (isLT c)) s1 in
      match find_last (u "</li>") line with
      | None => None
      | Some k =>
          let n := 4 + k + 5 in
          match drop n s with
          | c :: _ => if (c =? c_nl)%N then Some (S n) else Some n
          | [] => Some n
          end
      end
  end.

(** Greedy repetition of the group; the fuel is the length of the subject,
    and every round consumes at least nine units. *)
Fixpoint li_run (fuel : nat) (s : jstr) : nat :=
  match fuel with
  | O => 0
  | S f =>
      match li_group s with
      | None => 0
      | Some n => n + li_run f (drop n s)
      end
  end.

(** [/(<li>.*<\/li>\n?)+/g] replaced by ['<ul>$&</ul>']. *)
Definition m_ul : matcher := fun _ s =>
  match li_run (length s) s with
  | O => None
  | S _ as n => Some (u "<ul>" ++ take n s ++ u "</ul>", n)
  end.

(** [/\[([^\]]+)\]\(([^)]+)\)/g] replaced by an anchor whose [href] is
    group 2, whose [target] is [_blank] and whose text is group 1. *)
Definition m_link : matcher := fun _ s =>
  match strip_prefix (u "[") s with
  | None => None
  | Some s1 =>
      let '(label, s2) := span (fun c => negb (c =? 93)%N) s1 in
      match label, strip_prefix (u "](") s2 with
      | _ :: _, Some s3 =>
          let '(url, s4) := span (fun c => negb (c =? 41)%N) s3 in
          match url, strip_prefix (u ")") s4 with
          | _ :: _, Some _ =>
              Some (u "<a href=" ++ dq ++ url ++ dq ++ u " target=" ++ dq
                      ++ u "_blank" ++ dq ++ u ">" ++ label ++ u "</a>",
                    1 + length label + 2 + length url + 1)
          | _, _ => None
          end
      | _, _ => None
      end
  end.

(** [/\n/g] replaced by ['<br>']. *)
Definition m_br : matcher := fun _ s =>
  match s with
  | c :: _ => if (c =? c_nl)%N then Some (u "<br>", 1) else None
  | [] => None
  end.

(** The substitution passes of [formatContent], in source order. *)
Definition substitutionPasses (formatted : jstr) : jstr :=
  let formatted := replace_all m_fence formatted in
  let formatted := replace_all (m_delim (u "`") 96 (u "`") (u "<code>") (u "</code>")) formatted in
  let formatted := replace_all (m_line (u "### ") (u "<h4>") (u "</h4>")) formatted in
  let formatted := replace_all (m_line (u "## ") (u "<h3>") (u "</h3>")) formatted in
  let formatted := replace_all (m_line (u "# ") (u "<h2>") (u "</h2>")) formatted in
  let formatted := replace_all (m_delim (u "**") 42 (u "**") (u "<strong>") (u "</strong>")) formatted in
  let formatted := replace_all (m_delim (u "*") 42 (u "*") (u "<em>") (u "</em>")) formatted in
  let formatted := replace_all (m_line (u "- ") (u "<li>") (u "</li>")) formatted in
  let formatted := replace_all m_ul formatted in
  let formatted := replace_all m_link formatted in
  let formatted := replace_all m_br formatted in
  formatted.

(** [formatContent(content)] on a string.  Nothing in the [try] block can
    throw on a string, so the [catch] branch is not reachable. *)
Definition formatContent (content : jstr) : jstr :=
  match content with
  | [] => []
  | _ => substitutionPasses (escapeHtml content)
  end.

(** The global class of the nine reserved units (less-than, greater-than,
    colon, double quote, slash, backslash, bar, question mark, star)
    replaced by ['_']. *)
Definition isReserved (c : N) : bool := memN c [60; 62; 58; 34; 47; 92; 124; 63; 42]%N.

Definition m_reserved : matcher := fun _ s =>
  match s with
  | c :: _ => if isReserved c then Some ([c_us], 1) else None
  | [] => None
  end.

(** [/\s+/g] replaced by ['_']. *)
Definition m_spaces : matcher := fun _ s =>
  match span isSpace s with
  | ([], _) => None
  | (run, _) => Some ([c_us], length run)
  end.

(** [sanitizeFilename(filename)] on a string. *)
Definition sanitize (filename : jstr) : jstr :=
  match filename with
  | [] => u "untitled"
  | _ => trim (take 50 (replace_all m_spaces (replace_all m_reserved filename)))
  end.

(** ** Values read from the parsed JSON

    A scalar field of the export is absent, [null], a string, or an object.
    Of an object the program only ever asks for its truth value, its type
    tag and [String(value)], which throws a TypeError exactly when the
    object has an own [toString] property (nothing that [JSON.parse] builds
    is callable, and [Object.prototype.valueOf] returns the object).
    Numbers, booleans and arrays in the place of these fields are outside
    the model. *)
Inductive jsval :=
  | JUndefined
  | JNull
  | JStr (s : jstr)
  | JObj (ownToString : bool).

Definition truthy (v : jsval) : bool :=
  match v with
  | JUndefined | JNull | JStr [] => false
  | JStr (_ :: _) | JObj _ => true
  end.

(** [a || b] *)
Definition jsor (a b : jsval) : jsval := if truthy a then a else b.

(** A JavaScript number as far as the comparator needs it. *)
Inductive jsnum :=
  | NaN
  | Num (z : Z).

(** Outcome of a computation: a value, a thrown error with its [message],
    or a loop that did not end within the fuel. *)
Inductive outcome (A : Type) :=
  | Ok (a : A)
  | Throw (message : jstr)
  | Hang.
Arguments Ok {A} a.
Arguments Throw {A} message.
Arguments Hang {A}.

#[global] Instance outcome_ret : MRet outcome := fun A a => Ok a.

#[global] Instance outcome_bind : MBind outcome := fun A B f x =>
  match x with
  | Ok a => f a
  | Throw e => Throw e
  | Hang => Hang
  end.

Definition typeError : jstr := u "Cannot convert object to primitive value".

(** [String(value)], also the conversion inside a template literal. *)
Definition String_ (value : jsval) : outcome jstr :=
  match value with
  | JUndefined => Ok (u "undefined")
  | JNull => Ok (u "null")
  | JStr s => Ok s
  | JObj false => Ok (u "[object Object]")
  | JObj true => Throw typeError
  end.

(** [safeString(value)] *)
Definition safeString (value : jsval) : outcome jstr :=
  match value with
  | JUndefined | JNull | JStr [] => Ok []
  | _ => String_ value
  end.

(** [(n).toString()] for a non-negative integer. *)
Definition toString (n : nat) : jstr := u (NilZero.string_of_uint (Nat.to_uint n)).

(** [s.padStart(3, '0')] *)
Definition padStart3 (s : jstr) : jstr := replicate (3 - length s) 48%N ++ s.

(** ** The data model of the export *)

Record Fragment := {
  frag_type : jsval;
  frag_content : jsval }.

(** [fragments] is [None] when the field is absent or not an array; an
    element of the array is [None] when it is [null]. *)
Record Message := {
  msg_inserted_at : jsval;
  msg_fragments : option (list (option Fragment)) }.

(** [children] is [None] when the field is absent or [null]. *)
Record Node := {
  node_message : option Message;
  node_children : option (list jstr) }.

(** The [mapping] field: absent or [null]; a value that is no plain object
    (a string, number or boolean, which the guard of [extractMessages]
    turns away, or an array, which has no [root]); or an object from node
    ids to nodes. *)
Inductive Mapping :=
  | MapNull
  | MapPrimitive
  | MapObject (nodes : gmap jstr Node).

Record Conversation := {
  conv_id : jsval;
  conv_title : jsval;
  conv_inserted_at : jsval;
  conv_updated_at : jsval;
  conv_mapping : Mapping }.

(** ** [Array.prototype.sort]

    ECMAScript reads the comparator through SortCompare, which turns NaN
    into +0.  For a comparator that is consistent for the elements of the
    array the standard fixes the result (since ES2019 the sort is stable):
    it is the one sorted arrangement that keeps elements that compare equal
    in their order, and insertion from the right, [stableSort], computes
    it.  For any other comparator the order is implementation-defined, and
    the model leaves it to the runtime. *)
Section Sort.

Context {A : Type} (comparefn : A -> A -> jsnum).

Definition sortCompare (x y : A) : Z :=
  match comparefn x y with
  | NaN => 0
  | Num v => v
  end.

Fixpoint insert_sorted (x : A) (l : list A) : list A :=
  match l with
  | [] => [x]
  | y :: l' => if (sortCompare x y <=? 0)%Z then x :: l else y :: insert_sorted x l'
  end.

(** The stable sort of a consistent comparator. *)
Definition stableSort (l : list A) : list A := foldr insert_sorted [] l.

(** The order the sort establishes when the comparator is consistent. *)
Definition notGreater (x y : A) : Prop := (sortCompare x y <= 0)%Z.

(** A consistent comparator for the elements of [l], in the words of the
    standard: equality by the comparator is reflexive, symmetric and
    transitive, and so are less-than and greater-than transitive. *)
Definition Consistent (l : list A) : Prop :=
  (forall a, a ∈ l -> sortCompare a a = 0%Z)
  /\ (forall a b, a ∈ l -> b ∈ l -> sortCompare a b = 0%Z -> sortCompare b a = 0%Z)
  /\ (forall a b c, a ∈ l -> b ∈ l -> c ∈ l ->
        sortCompare a b = 0%Z -> sortCompare b c = 0%Z -> sortCompare a c = 0%Z)
  /\ (forall a b c, a ∈ l -> b ∈ l -> c ∈ l ->
        (sortCompare a b < 0)%Z -> (sortCompare b c < 0)%Z -> (sortCompare a c < 0)%Z)
  /\ (forall a b c, a ∈ l -> b ∈ l -> c ∈ l ->
        (0 < sortCompare a b)%Z -> (0 < sortCompare b c)%Z -> (0 < sortCompare a c)%Z).

(** The elements [late] form a class the comparator puts behind all other
    elements of [l], whichever way round it is asked, and takes for equal
    among themselves. *)
Definition SortsLast (late : A -> bool) (l : list A) : Prop :=
  (forall x y, x ∈ l -> y ∈ l -> late x = true -> late y = false ->
     (0 < sortCompare x y)%Z /\ (sortCompare y x < 0)%Z)
  /\ (forall x y, x ∈ l -> y ∈ l -> late x = true -> late y = true ->
        sortCompare x y = 0%Z).

End Sort.

(** ** The runtime the program calls into *)

(** [getTime s] is [new Date(s).getTime()], [None] for an invalid date;
    [formatDate] and [formatDateTime] are date-fns [format] with the
    patterns ['yyyy-MM-dd'] and ['yyyy-MM-dd HH:mm:ss'] on a valid date;
    [writeError name data] is the message of the error [fs.writeFile]
    rejects with, if it does.

    [maxArrayLength] is the number of elements an array can hold: [push]
    on an array of that length throws a RangeError (2^32 - 1 by the
    standard; V8 gives up earlier).

    [sort] is [Array.prototype.sort] on an array of conversations, with
    what is known of it whatever the engine: it rearranges the array
    ([sort_permutes]); for a consistent comparator the result is the
    stable sort ([sort_consistent]); and a class of elements that the
    comparator puts behind all others, and takes for equal among
    themselves, ends up behind the others in its original order
    ([sort_last]: the comparisons with such an element all have one
    answer, so insertion, merging and the runs of TimSort place it the same
    way whatever the other comparisons say). *)
Record Runtime := {
  getTime : jstr -> option Z;
  formatDate : Z -> jstr;
  formatDateTime : Z -> jstr;
  getCSS : jstr;
  toLocaleDateString : jstr;
  writeError : jstr -> jstr -> option jstr;
  verbose : bool;
  maxArrayLength : N;
  sort : (Conversation -> Conversation -> jsnum) -> list Conversation -> list Conversation;
  sort_permutes : forall comparefn l, sort comparefn l ≡ₚ l;
  sort_consistent : forall comparefn l,
    Consistent comparefn l -> sort comparefn l = stableSort comparefn l;
  sort_last : forall comparefn late l,
    SortsLast comparefn late l ->
    exists early,
      sort comparefn l = early ++ filter (fun x => late x = true) l
      /\ Forall (fun x => late x = false) early }.

(** ** [extractMessages] *)

(** [children?.[0]], and [children && children.length > 0 ? children[0] : null];
    [None] stands for [undefined] and [null] alike. *)
Definition firstChild (children : option (list jstr)) : option jstr :=
  match children with
  | Some (c :: _) => Some c
  | _ => None
  end.

(** [mapping.root?.children?.[0]] *)
Definition startId (mapping : gmap jstr Node) : option jstr :=
  match mapping !! u "root" with
  | Some root => firstChild (node_children root)
  | None => None
  end.

(** The loop condition [currentId && mapping[currentId]]: the node the
    loop body works on.  An id that names a member of [Object.prototype]
    and is no key of the mapping resolves to that member in JavaScript; the
    member has neither [message] nor [children], so the body changes
    nothing and the loop ends as it does here. *)
Definition resolve (mapping : gmap jstr Node) (currentId : option jstr) : option Node :=
  match currentId with
  | Some (c :: i) => mapping !! (c :: i)
  | _ => None
  end.

Definition pushMessage (messages : list Message) (node : Node) : list Message :=
  match node_message node with
  | Some m => messages ++ [m]
  | None => messages
  end.

(** [messages.push(node.message)] throws when the node has a message and
    the array is full. *)
Definition pushThrows (rt : Runtime) (messages : list Message) (node : Node) : bool :=
  match node_message node with
  | Some _ => (maxArrayLength rt <=? N.of_nat (length messages))%N
  | None => false
  end.

(** The [while] loop inside its [try]: when [push] throws, the loop is
    left through the [catch], which only logs, and the messages collected
    so far are what the function returns.  [None] when the fuel does not
    suffice. *)
Fixpoint extractLoop (rt : Runtime) (fuel : nat) (mapping : gmap jstr Node)
    (currentId : option jstr) (messages : list Message) : option (list Message) :=
  match fuel with
  | O => None
  | S fuel' =>
      match resolve mapping currentId with
      | Some node =>
          if pushThrows rt messages node then Some messages
          else extractLoop rt fuel' mapping (firstChild (node_children node))
                 (pushMessage messages node)
      | None => Some messages
      end
  end.

(** [extractMessages(mapping)]: the list of messages the function returns,
    after the normal end of the loop or after the caught RangeError of
    [push]; [None] when the loop does not end within the fuel. *)
Definition extractMessages (rt : Runtime) (fuel : nat) (mapping : Mapping)
    : option (list Message) :=
  match mapping with
  | MapObject nodes => extractLoop rt fuel nodes (startId nodes) []
  | MapNull | MapPrimitive => Some []
  end.

Section Formatter.

Variable rt : Runtime.

(** [new Date(v).getTime()] *)
Definition dateTime (v : jsval) : outcome jsnum :=
  match v with
  | JUndefined => Ok NaN
  | JNull => Ok (Num 0)
  | JStr s => Ok (match getTime rt s with Some t => Num t | None => NaN end)
  | JObj false => Ok NaN
  | JObj true => Throw typeError
  end.

(** ** [sortConversationsByDate] *)

(** [conv.updated_at || conv.inserted_at] *)
Definition dateOf (c : Conversation) : jsval := jsor (conv_updated_at c) (conv_inserted_at c).

Definition jsminus (a b : jsnum) : jsnum :=
  match a, b with
  | Num x, Num y => Num (x - y)
  | _, _ => NaN
  end.

(** The comparator passed to [sort]; its [catch] returns 0. *)
Definition compareByDate (a b : Conversation) : jsnum :=
  let dateA := dateOf a in
  let dateB := dateOf b in
  if negb (truthy dateA) && negb (truthy dateB) then Num 0
  else if negb (truthy dateA) then Num 1
  else if negb (truthy dateB) then Num (-1)
  else
    match dateTime dateA, dateTime dateB with
    | Ok timeA, Ok timeB => jsminus timeB timeA
    | _, _ => Num 0
    end.

End Formatter.

(** [sortConversationsByDate(conversations)]: neither [sort] nor the
    comparator throws, so the [catch] branches are not reachable. *)
Definition sortConversationsByDate (rt : Runtime) (conversations : list Conversation)
    : list Conversation :=
  sort rt (compareByDate rt) conversations.

(** ** Statistics and written files *)

Record Stats := {
  totalConversations : nat;
  totalMessages : nat;
  processedFiles : nat;
  errors : nat }.

(** [files] lists the writes into the output directory, latest first, each
    with the file name and the data. *)
Record State := {
  stats : Stats;
  files : list (jstr * jstr) }.

Definition addMessages (n : nat) (st : Stats) : Stats :=
  {| totalConversations := totalConversations st;
     totalMessages := totalMessages st + n;
     processedFiles := processedFiles st;
     errors := errors st |}.

Definition countFile (st : Stats) : Stats :=
  {| totalConversations := totalConversations st;
     totalMessages := totalMessages st;
     processedFiles := processedFiles st + 1;
     errors := errors st |}.

Definition countError (st : Stats) : Stats :=
  {| totalConversations := totalConversations st;
     totalMessages := totalMessages st;
     processedFiles := processedFiles st;
     errors := errors st + 1 |}.

(** [s || fallback] on strings *)
Definition strOr (s fallback : jstr) : jstr :=
  match s with
  | [] => fallback
  | _ :: _ => s
  end.

(** [for (const x of l) body], where the body may throw. *)
Fixpoint forOf {A B : Type} (body : B -> A -> outcome B) (l : list A) (acc : B) : outcome B :=
  match l with
  | [] => Ok acc
  | x :: l' => acc' ← body acc x; forOf body l' acc'
  end.

(** [fragment.type === 'REQUEST'] *)
Definition isREQUEST (v : jsval) : bool :=
  match v with
  | JStr s => bool_decide (s = u "REQUEST")
  | _ => false
  end.

(** [sanitizeFilename(filename)] *)
Definition sanitizeFilename (filename : jsval) : jstr :=
  match filename with
  | JStr s => sanitize s
  | _ => u "untitled"
  end.

Section Rendering.

Variable rt : Runtime.

(** [formatTimestamp(timestamp)]; the [catch] returns the argument. *)
Definition formatTimestamp (timestamp : jsval) : jsval :=
  if negb (truthy timestamp) then JStr (u "unknown")
  else
    match dateTime rt timestamp with
    | Ok (Num t) => JStr (formatDateTime rt t)
    | Ok NaN => timestamp
    | _ => timestamp
    end.

(** [getDatePrefix(conversation)]: [format] throws a RangeError on an
    invalid date, and the [catch] returns ['nodate']. *)
Definition getDatePrefix (conversation : Conversation) : jstr :=
  let dateStr := jsor (conv_updated_at conversation) (conv_inserted_at conversation) in
  if negb (truthy dateStr) then u "nodate"
  else
    match dateTime rt dateStr with
    | Ok (Num t) => formatDate rt t
    | _ => u "nodate"
    end.

(** The head of the document, up to the closing tag of the header. *)
Definition documentHead (title fileNumber convId createdFormatted updatedFormatted : jstr) : jstr :=
  u "<!DOCTYPE html>" ++ nl
  ++ u "<html lang=" ++ dq ++ u "en" ++ dq ++ u ">" ++ nl
  ++ u "<head>" ++ nl
  ++ u "    <meta charset=" ++ dq ++ u "UTF-8" ++ dq ++ u ">" ++ nl
  ++ u "    <meta name=" ++ dq ++ u "viewport" ++ dq ++ u " content=" ++ dq ++ u "width=device-width, initial-scale=1.0" ++ dq ++ u ">" ++ nl
  ++ u "    <title>DeepSeek Chat: " ++ escapeHtml title ++ u "</title>" ++ nl
  ++ u "    <style>" ++ nl
  ++ u "        " ++ getCSS rt ++ nl
  ++ u "    </style>" ++ nl
  ++ u "</head>" ++ nl
  ++ u "<body>" ++ nl
  ++ u "    <div class=" ++ dq ++ u "container" ++ dq ++ u ">" ++ nl
  ++ u "        <div class=" ++ dq ++ u "header" ++ dq ++ u ">" ++ nl
  ++ u "            <div class=" ++ dq ++ u "conversation-meta" ++ dq ++ u ">" ++ nl
  ++ u "                <span class=" ++ dq ++ u "conversation-number" ++ dq ++ u ">Conversation #" ++ fileNumber ++ u "</span>" ++ nl
  ++ u "                <span class=" ++ dq ++ u "conversation-date" ++ dq ++ u ">" ++ updatedFormatted ++ u "</span>" ++ nl
  ++ u "            </div>" ++ nl
  ++ u "            <h1 class=" ++ dq ++ u "title" ++ dq ++ u ">" ++ escapeHtml title ++ u "</h1>" ++ nl
  ++ u "            <div class=" ++ dq ++ u "meta" ++ dq ++ u ">" ++ nl
  ++ u "                ID: " ++ convId ++ u "<br>" ++ nl
  ++ u "                Created: " ++ createdFormatted ++ u "<br>" ++ nl
  ++ u "                Updated: " ++ updatedFormatted ++ nl
  ++ u "            </div>" ++ nl
  ++ u "        </div>".

(** One visual block, as appended to [htmlContent] inside the loops. *)
Definition messageBlock (isRequest : bool) (headerText time content : jstr) : jstr :=
  nl
  ++ u "        <div class=" ++ dq ++ u "chat-message " ++ (if isRequest then u "request" else u "response") ++ dq ++ u ">" ++ nl
  ++ u "            <div class=" ++ dq ++ u "message-header" ++ dq ++ u ">" ++ nl
  ++ u "                <h2>" ++ headerText ++ u "</h2>" ++ nl
  ++ u "                <span class=" ++ dq ++ u "message-time" ++ dq ++ u ">" ++ time ++ u "</span>" ++ nl
  ++ u "            </div>" ++ nl
  ++ u "            <div class=" ++ dq ++ u "message-content" ++ dq ++ u ">" ++ content ++ u "</div>" ++ nl
  ++ u "        </div>".

(** The foot of the document; 8226 is the bullet of the source text. *)
Definition documentFoot (count : nat) (createdFormatted : jstr) : jstr :=
  nl
  ++ u "        <div class=" ++ dq ++ u "footer" ++ dq ++ u ">" ++ nl
  ++ u "            <div class=" ++ dq ++ u "footer-stats" ++ dq ++ u ">" ++ nl
  ++ u "                Generated by DeepSeek Formatter " ++ [8226%N] ++ u " " ++ toLocaleDateString rt ++ u "<br>" ++ nl
  ++ u "                Total messages: " ++ toString count ++ u " " ++ [8226%N] ++ u " Conversation date: " ++ createdFormatted ++ nl
  ++ u "            </div>" ++ nl
  ++ u "            <div class=" ++ dq ++ u "navigation" ++ dq ++ u ">" ++ nl
  ++ u "                <span class=" ++ dq ++ u "nav-info" ++ dq ++ u ">Sorted by date (newest first)</span>" ++ nl
  ++ u "            </div>" ++ nl
  ++ u "        </div>" ++ nl
  ++ u "    </div>" ++ nl
  ++ u "</body>" ++ nl
  ++ u "</html>".

(** The page returned by the [catch] of [generateHTML]. *)
Definition errorPage (message : jstr) : jstr :=
  u "<html><body><h1>Error processing conversation</h1><p>" ++ message ++ u "</p></body></html>".

(** The label of a block. *)
Definition headerText (isRequest : bool) (messageNumber : nat) : jstr :=
  (if isRequest then u "Request " else u "Response ") ++ toString messageNumber.

(** The body of the inner loop: the accumulator is [htmlContent] and
    [messageNumber]. *)
Definition renderFragment (message : Message) (acc : jstr * nat)
    (fragment : option Fragment) : outcome (jstr * nat) :=
  let '(htmlContent, messageNumber) := acc in
  match fragment with
  | None => Ok acc
  | Some fragment =>
      if truthy (frag_type fragment) && truthy (frag_content fragment) then
        let isRequest := isREQUEST (frag_type fragment) in
        time ← safeString (msg_inserted_at message);
        content ← safeString (frag_content fragment);
        stamp ← String_ (formatTimestamp (JStr (strOr time (u "unknown"))));
        Ok (htmlContent
              ++ messageBlock isRequest (headerText isRequest messageNumber) stamp
                   (formatContent (strOr content [])),
            if isRequest then S messageNumber else messageNumber)
      else Ok acc
  end.

(** The body of the outer loop. *)
Definition renderMessage (acc : jstr * nat) (message : Message) : outcome (jstr * nat) :=
  match msg_fragments message with
  | Some fragments => forOf (renderFragment message) fragments acc
  | None => Ok acc
  end.

(** The [try] block of [generateHTML] after the messages are extracted. *)
Definition renderDocument (conversation : Conversation) (fileNumber : jstr)
    (messages : list Message) : outcome jstr :=
  title ← safeString (conv_title conversation);
  let title := strOr title (u "Conversation " ++ fileNumber) in
  convId ← safeString (conv_id conversation);
  let convId := strOr convId (u "unknown-id") in
  created ← safeString (conv_inserted_at conversation);
  let created := strOr created (u "unknown") in
  updated ← safeString (conv_updated_at conversation);
  let updated := strOr updated (u "unknown") in
  createdFormatted ← String_ (formatTimestamp (JStr created));
  updatedFormatted ← String_ (formatTimestamp (JStr updated));
  let htmlContent := documentHead title fileNumber convId createdFormatted updatedFormatted in
  '(htmlContent, _) ← forOf renderMessage messages (htmlContent, 1);
  Ok (htmlContent ++ documentFoot (length messages) createdFormatted).

(** [generateHTML(conversation, fileNumber)]: the document and the
    statistics after the call.  The counter [totalMessages] is updated
    before anything can throw; a thrown error becomes the error page. *)
Definition generateHTML (fuel : nat) (conversation : Conversation) (fileNumber : jstr)
    (st : Stats) : outcome jstr * Stats :=
  match extractMessages rt fuel (conv_mapping conversation) with
  | None => (Hang, st)
  | Some messages =>
      (match renderDocument conversation fileNumber messages with
       | Throw message => Ok (errorPage message)
       | r => r
       end,
       addMessages (length messages) st)
  end.

(** The name under which [processConversation] writes the document. *)
Definition fileName (conversation : Conversation) (index : nat) : jstr :=
  let fileNumber := padStart3 (toString (index + 1)) in
  let datePrefix := getDatePrefix conversation in
  let safeTitle :=
    sanitizeFilename (jsor (conv_title conversation) (JStr (u "conversation-" ++ fileNumber))) in
  datePrefix ++ u "-" ++ fileNumber ++ u "-" ++ safeTitle ++ u ".html".

(** The template literal of the progress line printed in verbose mode; only
    whether it throws matters. *)
Definition verboseLine (conversation : Conversation) : outcome unit :=
  let date := formatTimestamp (jsor (conv_updated_at conversation) (conv_inserted_at conversation)) in
  _ ← String_ (jsor (conv_title conversation) (JStr (u "Untitled")));
  _ ← String_ date;
  Ok ().

(** [processConversation(conversation, index)]: the state after the call,
    [None] when [extractMessages] does not return within the fuel. *)
Definition processConversation (fuel : nat) (conversation : Conversation) (index : nat)
    (st : State) : option State :=
  let fileNumber := padStart3 (toString (index + 1)) in
  let name := fileName conversation index in
  match (if verbose rt then verboseLine conversation else Ok ()) with
  | Hang => None
  | Throw _ => Some {| stats := countError (stats st); files := files st |}
  | Ok _ =>
      match generateHTML fuel conversation fileNumber (stats st) with
      | (Hang, _) => None
      | (Throw _, stats') => Some {| stats := countError stats'; files := files st |}
      | (Ok html, stats') =>
          match writeError rt name html with
          | Some _ => Some {| stats := countError stats'; files := files st |}
          | None => Some {| stats := countFile stats'; files := (name, html) :: files st |}
          end
      end
  end.

(** The [file] field of an entry of [summary.json] ([generateSummary]). *)
Definition summaryFile (conv : Conversation) (i : nat) : jstr :=
  getDatePrefix conv ++ u "-" ++ padStart3 (toString (i + 1)) ++ u "-"
    ++ sanitizeFilename (jsor (conv_title conv) (JStr (u "conversation-" ++ toString (i + 1))))
    ++ u ".html".

(** The link target of a row of [index.html] ([generateIndexHTML]). *)
Definition indexFile (conv : Conversation) (i : nat) : jstr :=
  getDatePrefix conv ++ u "-" ++ padStart3 (toString (i + 1)) ++ u "-"
    ++ sanitizeFilename (jsor (conv_title conv) (JStr (u "conversation-" ++ toString (i + 1))))
    ++ u ".html".

End Rendering.

(** ** [generateSummary], [generateIndexHTML] and [formatAll] *)

(** An entry of the [conversations] array of [summary.json], and the
    summary object, before [JSON.stringify]. *)
Record SummaryEntry := {
  se_number : nat;
  se_id : jstr;
  se_title : jstr;
  se_date : jstr;
  se_formattedDate : jsval;
  se_file : jstr;
  se_created : jstr;
  se_updated : jstr;
  se_messageCount : nat }.

Record Summary := {
  sum_generated : jstr;
  sum_totalConversations : nat;
  sum_totalMessages : nat;
  sum_processedFiles : nat;
  sum_errors : nat;
  sum_sorting : jstr;
  sum_conversations : list SummaryEntry }.

(** What the reporting step takes from the runtime: the clock
    ([new Date().toISOString()], [new Date().toLocaleString()]), the style
    sheet of the index, [JSON.stringify(summary, null, 2)], and the error
    [fs.mkdir] rejects with, if it does. *)
Record Reporter := {
  toISOString : jstr;
  toLocaleString : jstr;
  getIndexCSS : jstr;
  stringify : Summary -> jstr;
  mkdirError : option jstr }.

(** [l.map((x, i) => f(x, i))] from index [i] on, where [f] may throw. *)
Fixpoint mapIndexed {A B : Type} (f : A -> nat -> outcome B) (l : list A) (i : nat)
    : outcome (list B) :=
  match l with
  | [] => Ok []
  | x :: l' => y ← f x i; ys ← mapIndexed f l' (S i); Ok (y :: ys)
  end.

(** [for (let i = ...; i < l.length; i++) acc = body(acc, l[i], i)] *)
Fixpoint forIndexed {A B : Type} (body : B -> A -> nat -> outcome B) (l : list A) (i : nat)
    (acc : B) : outcome B :=
  match l with
  | [] => Ok acc
  | x :: l' => acc' ← body acc x i; forIndexed body l' (S i) acc'
  end.

(** [escapeHtml(text)] on any value: what is not a string gives ['']. *)
Definition escapeHtmlValue (text : jsval) : jstr :=
  match text with
  | JStr s => escapeHtml s
  | _ => []
  end.

Section Reporting.

Variable rt : Runtime.
Variable rp : Reporter.

(** The callback of [conversations.map] in [generateSummary]. *)
Definition summaryEntry (fuel : nat) (conv : Conversation) (i : nat) : outcome SummaryEntry :=
  convId ← safeString (conv_id conv);
  title ← safeString (conv_title conv);
  date ← safeString (jsor (conv_updated_at conv) (conv_inserted_at conv));
  let formattedDate := formatTimestamp rt (jsor (conv_updated_at conv) (conv_inserted_at conv)) in
  let file := summaryFile rt conv i in
  created ← safeString (conv_inserted_at conv);
  updated ← safeString (conv_updated_at conv);
  match extractMessages rt fuel (conv_mapping conv) with
  | None => Hang
  | Some messages =>
      Ok {| se_number := i + 1;
            se_id := convId;
            se_title := title;
            se_date := date;
            se_formattedDate := formattedDate;
            se_file := file;
            se_created := created;
            se_updated := updated;
            se_messageCount := length messages |}
  end.

(** The head of [index.html], up to the opening of the table body; 8226 is
    the bullet and 55357, 56517 the calendar sign of the source text. *)
Definition indexHead (count : nat) : jstr :=
  u "<!DOCTYPE html>" ++ nl
  ++ u "<html lang=" ++ dq ++ u "en" ++ dq ++ u ">" ++ nl
  ++ u "<head>" ++ nl
  ++ u "    <meta charset=" ++ dq ++ u "UTF-8" ++ dq ++ u ">" ++ nl
  ++ u "    <meta name=" ++ dq ++ u "viewport" ++ dq ++ u " content=" ++ dq ++ u "width=device-width, initial-scale=1.0" ++ dq ++ u ">" ++ nl
  ++ u "    <title>DeepSeek Conversations Index</title>" ++ nl
  ++ u "    <style>" ++ nl
  ++ u "        " ++ getIndexCSS rp ++ nl
  ++ u "    </style>" ++ nl
  ++ u "</head>" ++ nl
  ++ u "<body>" ++ nl
  ++ u "    <div class=" ++ dq ++ u "container" ++ dq ++ u ">" ++ nl
  ++ u "        <div class=" ++ dq ++ u "header" ++ dq ++ u ">" ++ nl
  ++ u "            <h1>DeepSeek Conversations</h1>" ++ nl
  ++ u "            <div class=" ++ dq ++ u "subtitle" ++ dq ++ u ">Sorted by date (newest first) " ++ [8226%N] ++ u " " ++ toString count ++ u " conversations</div>" ++ nl
  ++ u "        </div>" ++ nl
  ++ u "        " ++ nl
  ++ u "        <div class=" ++ dq ++ u "sort-info" ++ dq ++ u ">" ++ nl
  ++ u "            <span class=" ++ dq ++ u "sort-badge" ++ dq ++ u ">" ++ [55357%N; 56517%N] ++ u " Sorted by date</span>" ++ nl
  ++ u "            <span class=" ++ dq ++ u "sort-order" ++ dq ++ u ">Most recent first</span>" ++ nl
  ++ u "        </div>" ++ nl
  ++ u "        " ++ nl
  ++ u "        <table class=" ++ dq ++ u "conversations-table" ++ dq ++ u ">" ++ nl
  ++ u "            <thead>" ++ nl
  ++ u "                <tr>" ++ nl
  ++ u "                    <th width=" ++ dq ++ u "80" ++ dq ++ u ">#</th>" ++ nl
  ++ u "                    <th width=" ++ dq ++ u "120" ++ dq ++ u ">Date</th>" ++ nl
  ++ u "                    <th>Title</th>" ++ nl
  ++ u "                    <th width=" ++ dq ++ u "100" ++ dq ++ u ">Messages</th>" ++ nl
  ++ u "                    <th width=" ++ dq ++ u "100" ++ dq ++ u ">File</th>" ++ nl
  ++ u "                </tr>" ++ nl
  ++ u "            </thead>" ++ nl
  ++ u "            <tbody>".

(** One row of the table. *)
Definition indexRowHtml (i : nat) (date file title convId : jstr) (messageCount : nat) : jstr :=
  nl
  ++ u "                <tr>" ++ nl
  ++ u "                    <td class=" ++ dq ++ u "number" ++ dq ++ u ">" ++ toString (i + 1) ++ u "</td>" ++ nl
  ++ u "                    <td class=" ++ dq ++ u "date" ++ dq ++ u ">" ++ date ++ u "</td>" ++ nl
  ++ u "                    <td class=" ++ dq ++ u "title" ++ dq ++ u ">" ++ nl
  ++ u "                        <a href=" ++ dq ++ file ++ dq ++ u ">" ++ title ++ u "</a>" ++ nl
  ++ u "                        <div class=" ++ dq ++ u "conversation-id" ++ dq ++ u ">" ++ convId ++ u "</div>" ++ nl
  ++ u "                    </td>" ++ nl
  ++ u "                    <td class=" ++ dq ++ u "messages" ++ dq ++ u ">" ++ toString messageCount ++ u "</td>" ++ nl
  ++ u "                    <td class=" ++ dq ++ u "file-link" ++ dq ++ u ">" ++ nl
  ++ u "                        <a href=" ++ dq ++ file ++ dq ++ u " class=" ++ dq ++ u "view-btn" ++ dq ++ u ">View</a>" ++ nl
  ++ u "                    </td>" ++ nl
  ++ u "                </tr>".

(** The foot of [index.html]. *)
Definition indexFoot (count total : nat) : jstr :=
  nl
  ++ u "            </tbody>" ++ nl
  ++ u "        </table>" ++ nl
  ++ u "        " ++ nl
  ++ u "        <div class=" ++ dq ++ u "footer" ++ dq ++ u ">" ++ nl
  ++ u "            <div class=" ++ dq ++ u "stats" ++ dq ++ u ">" ++ nl
  ++ u "                Generated: " ++ toLocaleString rp ++ u "<br>" ++ nl
  ++ u "                Total conversations: " ++ toString count ++ u " " ++ [8226%N] ++ u " Total messages: " ++ toString total ++ nl
  ++ u "            </div>" ++ nl
  ++ u "            <div class=" ++ dq ++ u "legend" ++ dq ++ u ">" ++ nl
  ++ u "                <span class=" ++ dq ++ u "legend-item" ++ dq ++ u "><span class=" ++ dq ++ u "legend-color request" ++ dq ++ u "></span> User requests (red)</span>" ++ nl
  ++ u "                <span class=" ++ dq ++ u "legend-item" ++ dq ++ u "><span class=" ++ dq ++ u "legend-color response" ++ dq ++ u "></span> AI responses (green)</span>" ++ nl
  ++ u "            </div>" ++ nl
  ++ u "        </div>" ++ nl
  ++ u "    </div>" ++ nl
  ++ u "</body>" ++ nl
  ++ u "</html>".

(** The body of the loop of [generateIndexHTML]. *)
Definition indexRow (fuel : nat) (html : jstr) (conv : Conversation) (i : nat) : outcome jstr :=
  let date := formatTimestamp rt (jsor (conv_updated_at conv) (conv_inserted_at conv)) in
  match extractMessages rt fuel (conv_mapping conv) with
  | None => Hang
  | Some messages =>
      let file := indexFile rt conv i in
      dateText ← String_ date;
      let title :=
        escapeHtmlValue (jsor (conv_title conv) (JStr (u "Conversation " ++ toString (i + 1)))) in
      convId ← String_ (conv_id conv);
      Ok (html ++ indexRowHtml i dateText file title convId (length messages))
  end.

Definition writeFile (name data : jstr) (st : State) : State :=
  {| stats := stats st; files := (name, data) :: files st |}.

(** [generateIndexHTML(conversations)]: its [catch] only logs. *)
Definition generateIndexHTML (fuel : nat) (conversations : list Conversation) (st : State)
    : option State :=
  match forIndexed (indexRow fuel) conversations 0 (indexHead (length conversations)) with
  | Hang => None
  | Throw _ => Some st
  | Ok html =>
      let html := html ++ indexFoot (length conversations) (totalMessages (stats st)) in
      match writeError rt (u "index.html") html with
      | Some _ => Some st
      | None => Some (writeFile (u "index.html") html st)
      end
  end.

(** The object [generateSummary] serialises. *)
Definition summaryOf (conversations : list Conversation) (st : State)
    (entries : list SummaryEntry) : Summary :=
  {| sum_generated := toISOString rp;
     sum_totalConversations := length conversations;
     sum_totalMessages := totalMessages (stats st);
     sum_processedFiles := processedFiles (stats st);
     sum_errors := errors (stats st);
     sum_sorting := u "by date descending (most recent first)";
     sum_conversations := entries |}.

(** [generateSummary(conversations)]: its [catch] only logs. *)
Definition generateSummary (fuel : nat) (conversations : list Conversation) (st : State)
    : option State :=
  match mapIndexed (summaryEntry fuel) conversations 0 with
  | Hang => None
  | Throw _ => Some st
  | Ok entries =>
      let data := stringify rp (summaryOf conversations st entries) in
      match writeError rt (u "summary.json") data with
      | Some _ => Some st
      | None => generateIndexHTML fuel conversations (writeFile (u "summary.json") data st)
      end
  end.

(** The loop of [formatAll] over the sorted conversations, from index [i]
    on. *)
Fixpoint processAll (fuel : nat) (conversations : list Conversation) (i : nat) (st : State)
    : option State :=
  match conversations with
  | [] => Some st
  | c :: rest =>
      match processConversation rt fuel c i st with
      | None => None
      | Some st' => processAll fuel rest (S i) st'
      end
  end.

End Reporting.

(** What [formatAll] finds at [inputFile]: no readable JSON (the file is
    missing or unreadable, or [JSON.parse] throws), a JSON value that is
    not an array, or an array of conversations.  The elements of the array
    are objects, or values without properties, which behave as the
    conversation all of whose fields are absent; an element [null], on
    which every property access throws, is outside the model. *)
Inductive Input :=
  | Unreadable
  | NotArray
  | Parsed (conversations : list Conversation).

(** How [formatAll] ends: [process.exit(1)] from its [catch], or normally. *)
Inductive Run :=
  | Exit1 (st : State)
  | Completed (st : State).

Definition setTotal (n : nat) (st : State) : State :=
  {| stats := {| totalConversations := n;
                 totalMessages := totalMessages (stats st);
                 processedFiles := processedFiles (stats st);
                 errors := errors (stats st) |};
     files := files st |}.

(** [formatAll()]; [None] when a traversal does not end within the fuel. *)
Definition formatAll (rt : Runtime) (rp : Reporter) (fuel : nat) (input : Input) (st : State)
    : option Run :=
  match input with
  | Unreadable | NotArray => Some (Exit1 st)
  | Parsed conversations =>
      let conversations := sortConversationsByDate rt conversations in
      let st := setTotal (length conversations) st in
      match mkdirError rp with
      | Some _ => Some (Exit1 st)
      | None =>
          match processAll rt fuel conversations 0 st with
          | None => None
          | Some st' =>
              match generateSummary rt rp fuel conversations st' with
              | None => None
              | Some st'' => Some (Completed st'')
              end
          end
      end
  end.

(** The state the constructor sets up. *)
Definition initialState : State :=
  {| stats := {| totalConversations := 0; totalMessages := 0; processedFiles := 0; errors := 0 |};
     files := [] |}.

(** * Definitions on the side of the specification, and sample inputs *)

(** What [escapeHtml] makes of one unit. *)
Definition escapeUnit (c : N) : jstr :=
  match entity c with
  | Some e => e
  | None => [c]
  end.

(** The nine characters the specification lists, as text: less-than,
    greater-than, colon, double quote, slash, backslash, bar, question
    mark and star. *)
Definition reservedCharacters : jstr := u "<>:" ++ dq ++ u "/\|?*".

(** White space, code unit by code unit: tab, line feed, vertical tab,
    form feed, carriage return, space, no-break space, the spaces of
    Unicode (U+1680, U+2000 to U+200A, U+202F, U+205F, U+3000), the line
    and paragraph separators and the byte order mark. *)
Definition whiteSpaceUnits : list N :=
  [9; 10; 11; 12; 13; 32; 160; 5760; 8192; 8193; 8194; 8195; 8196; 8197; 8198; 8199;
   8200; 8201; 8202; 8232; 8233; 8239; 8287; 12288; 65279]%N.

(** The slug as the specification words it, in one pass over the title: a
    listed character becomes an underscore, and so does every maximal run
    of white space ([inRun] tells that the previous unit was white
    space). *)
Fixpoint slugText (inRun : bool) (title : jstr) : jstr :=
  match title with
  | [] => []
  | c :: t =>
      if bool_decide (c ∈ whiteSpaceUnits)
      then (if inRun then slugText true t else c_us :: slugText true t)
      else (if bool_decide (c ∈ reservedCharacters) then c_us else c) :: slugText false t
  end.

(** The same pass over the classes of the two regular expressions. *)
Fixpoint slugFrom (inRun : bool) (title : jstr) : jstr :=
  match title with
  | [] => []
  | c :: t =>
      if isSpace c then (if inRun then slugFrom true t else c_us :: slugFrom true t)
      else (if isReserved c then c_us else c) :: slugFrom false t
  end.

Definition slug (title : jstr) : jstr := slugFrom false title.

Definition underscoreReserved (c : N) : N := if isReserved c then c_us else c.

(** The white-space pass, on a subject without reserved units. *)
Fixpoint collapseFrom (inRun : bool) (s : jstr) : jstr :=
  match s with
  | [] => []
  | c :: t =>
      if isSpace c then (if inRun then collapseFrom true t else c_us :: collapseFrom true t)
      else c :: collapseFrom false t
  end.

Definition plainUnit (c : N) : Prop := isReserved c = false /\ isSpace c = false.

(** The chain of first children as the specification words it: from an id
    that resolves to no node nothing is collected; from an id that
    resolves to a node, the node's message (when present) comes first and
    the walk goes on from the node's first child. *)
Inductive Walk (mapping : gmap jstr Node) : option jstr -> list Message -> Prop :=
  | Walk_end currentId :
      resolve mapping currentId = None -> Walk mapping currentId []
  | Walk_node currentId node rest :
      resolve mapping currentId = Some node ->
      Walk mapping (firstChild (node_children node)) rest ->
      Walk mapping currentId (option_list (node_message node) ++ rest).

(** The mapping of the specification's example. *)
Definition chainExample (A B : jstr) (M1 M2 : Message) : gmap jstr Node :=
  <[u "root" := {| node_message := None; node_children := Some [A] |}]>
    (<[A := {| node_message := Some M1; node_children := Some [B] |}]>
       (<[B := {| node_message := Some M2; node_children := Some [] |}]> ∅)).

(** The ids of the nodes visited by the first [n] rounds of the loop. *)
Fixpoint chainIds (n : nat) (mapping : gmap jstr Node) (currentId : option jstr) : list jstr :=
  match n with
  | O => []
  | S n' =>
      match currentId, resolve mapping currentId with
      | Some i, Some node => i :: chainIds n' mapping (firstChild (node_children node))
      | _, _ => []
      end
  end.

(** The chain of first children never revisits a node id. *)
Definition Acyclic (mapping : gmap jstr Node) : Prop :=
  forall n, NoDup (chainIds n mapping (startId mapping)).

(** The messages of the nodes with the ids [ids], in that order. *)
Definition messagesAlong (mapping : gmap jstr Node) (ids : list jstr) : list Message :=
  ids ≫= (fun i => match mapping !! i with
                   | Some node => option_list (node_message node)
                   | None => []
                   end).

(** The loop without its body: whether the condition of the [while] fails
    within [fuel] rounds from [currentId]. *)
Fixpoint reachesEnd (fuel : nat) (mapping : gmap jstr Node) (currentId : option jstr) : bool :=
  match fuel with
  | O => false
  | S fuel' =>
      match resolve mapping currentId with
      | Some node => reachesEnd fuel' mapping (firstChild (node_children node))
      | None => true
      end
  end.

(** No node on the chain from [currentId] carries a message. *)
Definition SilentFrom (mapping : gmap jstr Node) (currentId : option jstr) : Prop :=
  forall n i node,
    i ∈ chainIds n mapping currentId -> mapping !! i = Some node -> node_message node = None.

Definition Silent (mapping : gmap jstr Node) : Prop := SilentFrom mapping (startId mapping).

(** Every node on the chain from [currentId] carries a message. *)
Definition LoudFrom (mapping : gmap jstr Node) (currentId : option jstr) : Prop :=
  forall n i node,
    i ∈ chainIds n mapping currentId -> mapping !! i = Some node ->
    is_Some (node_message node).

Definition Loud (mapping : gmap jstr Node) : Prop := LoudFrom mapping (startId mapping).


(** The time of a dated conversation, when its date parses. *)
Definition timeOf (rt : Runtime) (c : Conversation) : option Z :=
  if truthy (dateOf c) then
    match dateTime rt (dateOf c) with
    | Ok (Num t) => Some t
    | _ => None
    end
  else None.

(** Every conversation that has a date has one that parses. *)
Definition validDate (rt : Runtime) (c : Conversation) : Prop :=
  truthy (dateOf c) = true -> is_Some (timeOf rt c).

(** Of two dated conversations the later one comes first. *)
Definition LaterFirst (rt : Runtime) (out : list Conversation) : Prop :=
  forall i j c1 c2 t1 t2,
    out !! i = Some c1 -> out !! j = Some c2 ->
    timeOf rt c1 = Some t1 -> timeOf rt c2 = Some t2 ->
    (t2 < t1)%Z -> i < j.

(** Conversations without a date come after all dated ones. *)
Definition UndatedLast (out : list Conversation) : Prop :=
  forall i j c1 c2,
    out !! i = Some c1 -> out !! j = Some c2 ->
    truthy (dateOf c1) = true -> truthy (dateOf c2) = false -> i < j.

Definition undated (c : Conversation) : Prop := truthy (dateOf c) = false.

#[global] Instance undated_dec (c : Conversation) : Decision (undated c).
Proof. unfold undated. apply _. Defined.

(** ** The stable sort keeps what the runtime promises of [sort] *)

Section StableSort.

Context {A : Type} (comparefn : A -> A -> jsnum).

Lemma insert_sorted_perm (x : A) (l : list A) : insert_sorted comparefn x l ≡ₚ x :: l.
Proof.
  induction l as [|y l IH]; simpl; [done|].
  destruct (sortCompare comparefn x y <=? 0)%Z; [done|].
  rewrite IH. apply Permutation_swap.
Qed.

Lemma stableSort_perm (l : list A) : stableSort comparefn l ≡ₚ l.
Proof.
  induction l as [|x l IH]; simpl; [done|].
  rewrite insert_sorted_perm. by rewrite IH.
Qed.

Lemma insert_sorted_last (late : A -> bool) (x : A) (early lates : list A) :
  Forall (fun y => late y = false) early ->
  (forall y, y ∈ early -> late x = true -> (0 < sortCompare comparefn x y)%Z) ->
  (forall y, y ∈ lates -> late x = true -> sortCompare comparefn x y = 0%Z) ->
  (forall y, y ∈ lates -> late x = false -> (sortCompare comparefn x y < 0)%Z) ->
  exists early',
    insert_sorted comparefn x (early ++ lates)
    = early' ++ (if late x then x :: lates else lates)
    /\ Forall (fun y => late y = false) early'.
Proof.
  intros He Hgt Heq Hlt. induction He as [|e early He Hes IH].
  - cbn [app]. destruct (late x) eqn:Lx.
    + exists []. split; [|constructor]. destruct lates as [|y lates]; [done|].
      cbn [insert_sorted app]. by rewrite (Heq y (list_elem_of_here _ _) eq_refl).
    + exists [x]. split; [|by repeat constructor]. destruct lates as [|y lates]; [done|].
      cbn [insert_sorted app].
      pose proof (Hlt y (list_elem_of_here _ _) eq_refl) as Hy.
      by rewrite (proj2 (Z.leb_le _ _)) by lia.
  - cbn [app insert_sorted].
    destruct (Z.leb_spec (sortCompare comparefn x e) 0) as [Hle|Hnle].
    + destruct (late x) eqn:Lx.
      * pose proof (Hgt e (list_elem_of_here _ _) eq_refl). lia.
      * exists (x :: e :: early). split; [done|]. by repeat apply Forall_cons_2.
    + destruct IH as (early' & -> & He').
      { intros y Hy. apply Hgt. by right. }
      exists (e :: early'). split; [done|]. by constructor.
Qed.

Lemma stableSort_last (late : A -> bool) (l : list A) :
  SortsLast comparefn late l ->
  exists early,
    stableSort comparefn l = early ++ filter (fun x => late x = true) l
    /\ Forall (fun x => late x = false) early.
Proof.
  induction l as [|x l IH]; intros [H1 H2].
  - exists []. by split.
  - destruct IH as (early & Hs & He).
    { split; intros y z Hy Hz; [apply H1|apply H2]; by right. }
    assert (Hin : forall y, y ∈ early -> y ∈ l).
    { intros y Hy. rewrite <- (stableSort_perm l), Hs. apply elem_of_app. by left. }
    cbn [stableSort foldr]. fold (stableSort comparefn l). rewrite Hs.
    destruct (insert_sorted_last late x early (filter (fun y => late y = true) l) He)
      as (early' & -> & He').
    + intros y Hy Lx. apply (H1 x y); [by left|right; by apply Hin|done|].
      rewrite Forall_forall in He. by apply He.
    + intros y Hy Lx. apply list_elem_of_filter in Hy as [Ly Hy].
      apply (H2 x y); [by left|by right|done..].
    + intros y Hy Lx. apply list_elem_of_filter in Hy as [Ly Hy].
      apply (H1 y x); [by right|by left|done..].
    + exists early'. split; [|done]. rewrite filter_cons.
      destruct (late x) eqn:Lx; [by rewrite decide_True|by rewrite decide_False].
Qed.

End StableSort.

(** A runtime for examples: two ISO dates parse, nothing else does; every
    write succeeds; verbose mode is off; arrays hold 2^32 - 1 elements; the
    sort is the stable sort, which leaves an array as V8 does when all
    comparisons of neighbours give 0. *)
Definition sampleRuntime : Runtime := {|
  getTime := fun s =>
    if bool_decide (s = u "2020-01-01T00:00:00Z") then Some 1577836800000%Z
    else if bool_decide (s = u "2024-01-01T00:00:00Z") then Some 1704067200000%Z
    else None;
  formatDate := fun t =>
    if (t =? 1577836800000)%Z then u "2020-01-01"
    else if (t =? 1704067200000)%Z then u "2024-01-01"
    else u "1970-01-01";
  formatDateTime := fun t =>
    if (t =? 1577836800000)%Z then u "2020-01-01 00:00:00"
    else if (t =? 1704067200000)%Z then u "2024-01-01 00:00:00"
    else u "1970-01-01 00:00:00";
  getCSS := u "body { margin: 0; }";
  toLocaleDateString := u "11/1/2026";
  writeError := fun _ _ => None;
  verbose := false;
  maxArrayLength := 4294967295%N;
  sort := fun comparefn l => stableSort comparefn l;
  sort_permutes := stableSort_perm;
  sort_consistent := fun comparefn l _ => eq_refl;
  sort_last := stableSort_last |}.

(** The same runtime in verbose mode. *)
Definition verboseRuntime : Runtime := {|
  getTime := getTime sampleRuntime;
  formatDate := formatDate sampleRuntime;
  formatDateTime := formatDateTime sampleRuntime;
  getCSS := getCSS sampleRuntime;
  toLocaleDateString := toLocaleDateString sampleRuntime;
  writeError := writeError sampleRuntime;
  verbose := true;
  maxArrayLength := maxArrayLength sampleRuntime;
  sort := sort sampleRuntime;
  sort_permutes := sort_permutes sampleRuntime;
  sort_consistent := sort_consistent sampleRuntime;
  sort_last := sort_last sampleRuntime |}.

Definition datedConversation (title date : jstr) : Conversation := {|
  conv_id := JStr (u "c");
  conv_title := JStr title;
  conv_inserted_at := JNull;
  conv_updated_at := JStr date;
  conv_mapping := MapNull |}.

Definition conv2020 : Conversation := datedConversation (u "old") (u "2020-01-01T00:00:00Z").
Definition conv2024 : Conversation := datedConversation (u "new") (u "2024-01-01T00:00:00Z").
Definition convGarbage : Conversation := datedConversation (u "odd") (u "garbage").

(** What the comparator decides on conversations with valid dates. *)
Definition notAfter (rt : Runtime) (x y : Conversation) : Prop :=
  match timeOf rt y with
  | None => True
  | Some ty => match timeOf rt x with Some tx => (ty <= tx)%Z | None => False end
  end.

(** A fragment yields a block when its type and its content are both
    truthy. *)
Definition shown (f : Fragment) : bool := truthy (frag_type f) && truthy (frag_content f).

(** The fragments that yield a block, each with its message, in document
    order. *)
Definition emittedFrom (message : Message) (fragments : list (option Fragment))
    : list (Message * Fragment) :=
  (fun f => (message, f)) <$> filter (fun f => shown f = true) (omap id fragments).

Definition emittedOf (message : Message) : list (Message * Fragment) :=
  match msg_fragments message with
  | Some fragments => emittedFrom message fragments
  | None => []
  end.

Definition emitted (messages : list Message) : list (Message * Fragment) :=
  messages ≫= emittedOf.

Definition isRequest (mf : Message * Fragment) : bool := isREQUEST (frag_type mf.2).

(** The number of REQUEST fragments among the emitted ones. *)
Definition countRequests (e : list (Message * Fragment)) : nat :=
  length (filter (fun mf => isRequest mf = true) e).

(** [formatTimestamp] on a non-empty string. *)
Definition formatTimestampStr (rt : Runtime) (s : jstr) : jstr :=
  match getTime rt s with
  | Some t => formatDateTime rt t
  | None => s
  end.

Definition textOf (v : jsval) : jstr :=
  match safeString v with
  | Ok s => s
  | _ => []
  end.

(** The block the specification expects for the [k]-th emitted fragment:
    its number is one more than the number of REQUEST fragments emitted
    before it. *)
Definition expectedBlock (rt : Runtime) (e : list (Message * Fragment)) (k : nat)
    (mf : Message * Fragment) : jstr :=
  messageBlock (isRequest mf)
    ((if isRequest mf then u "Request " else u "Response ")
       ++ toString (1 + countRequests (take k e)))
    (formatTimestampStr rt (strOr (textOf (msg_inserted_at mf.1)) (u "unknown")))
    (formatContent (textOf (frag_content mf.2))).

(** The blocks as the loop numbers them, from a given counter. *)
Fixpoint blocksFrom (rt : Runtime) (n : nat) (e : list (Message * Fragment)) : list jstr :=
  match e with
  | [] => []
  | mf :: e' =>
      messageBlock (isRequest mf) (headerText (isRequest mf) n)
        (formatTimestampStr rt (strOr (textOf (msg_inserted_at mf.1)) (u "unknown")))
        (formatContent (textOf (frag_content mf.2)))
      :: blocksFrom rt (if isRequest mf then S n else n) e'
  end.

(** The message of the specification's example. *)
Definition exampleMessage : Message := {|
  msg_inserted_at := JUndefined;
  msg_fragments := Some [
    Some {| frag_type := JStr (u "REQUEST"); frag_content := JStr (u "Hi") |};
    Some {| frag_type := JStr (u "OTHER"); frag_content := JStr (u "Hello") |} ] |}.

(** A conversation whose only message is the one of the example. *)
Definition exampleConversation : Conversation := {|
  conv_id := JStr (u "c1");
  conv_title := JStr (u "Example");
  conv_inserted_at := JNull;
  conv_updated_at := JNull;
  conv_mapping := MapObject
    (<[u "root" := {| node_message := None; node_children := Some [u "a"] |}]>
       (<[u "a" := {| node_message := Some exampleMessage; node_children := Some [] |}]> ∅)) |}.

Definition contains (p s : jstr) : bool := bool_decide (is_Some (find_sub p s)).

Definition noStats : Stats :=
  {| totalConversations := 0; totalMessages := 0; processedFiles := 0; errors := 0 |}.

(** The second half of C6 as the specification words it: when the
    rendering step raises, the error counter goes up by one. *)
Definition RenderErrorCounted (rt : Runtime) (fuel : nat) (conversation : Conversation)
    (index : nat) (st : State) : Prop :=
  forall messages message,
    extractMessages rt fuel (conv_mapping conversation) = Some messages ->
    renderDocument rt conversation (padStart3 (toString (index + 1))) messages = Throw message ->
    exists st', processConversation rt fuel conversation index st = Some st'
                /\ errors (stats st') = errors (stats st) + 1.

(** A conversation whose id is an object with an own [toString] entry:
    [String(conversation.id)] throws a TypeError inside [generateHTML]. *)
Definition convBadId : Conversation := {|
  conv_id := JObj true;
  conv_title := JStr (u "Chat");
  conv_inserted_at := JNull;
  conv_updated_at := JNull;
  conv_mapping := MapNull |}.

Definition emptyState : State := {| stats := noStats; files := [] |}.

Definition untitled : Conversation := {|
  conv_id := JStr (u "c2");
  conv_title := JNull;
  conv_inserted_at := JNull;
  conv_updated_at := JNull;
  conv_mapping := MapNull |}.

(** The names of the files a run of [processConversation] leaves. *)
Definition writtenNames (st : option State) : list jstr :=
  match st with
  | Some st' => (files st').*1
  | None => []
  end.

Definition messageOne : Message :=
  {| msg_inserted_at := JStr (u "2024-01-01T00:00:00Z");
     msg_fragments := Some [Some {| frag_type := JStr (u "REQUEST");
                                    frag_content := JStr (u "Hi") |}] |}.

Definition messageTwo : Message :=
  {| msg_inserted_at := JNull;
     msg_fragments := Some [Some {| frag_type := JStr (u "RESPONSE");
                                    frag_content := JStr (u "Hello") |}] |}.

(** A node that names itself as its first child. *)
Definition selfLoop : gmap jstr Node :=
  <[u "root" := {| node_message := None; node_children := Some [u "a"] |}]>
    {[ u "a" := {| node_message := Some messageOne; node_children := Some [u "a"] |} ]}.

(** The same circle without a message. *)
Definition silentLoop : gmap jstr Node :=
  <[u "root" := {| node_message := None; node_children := Some [u "a"] |}]>
    {[ u "a" := {| node_message := None; node_children := Some [u "a"] |} ]}.

Definition rootOnly : gmap jstr Node :=
  {[ u "root" := {| node_message := None; node_children := None |} ]}.

(** ** The markup [formatContent] produces *)

(** Names of the tags the passes insert. *)
Definition tagNames : list jstr :=
  u <$> ["pre"; "code"; "/code"; "/pre"; "h4"; "/h4"; "h3"; "/h3"; "h2"; "/h2";
         "strong"; "/strong"; "em"; "/em"; "li"; "/li"; "ul"; "/ul"; "/a"; "br"]%string.

(** The less-than and greater-than signs. *)
Definition isAngle (c : N) : bool := (c =? c_lt)%N || (c =? c_gt)%N.

(** The units found inside a tag, after its less-than sign. *)
Definition isInterior (c : N) : bool := memN c (c_gt :: concat tagNames).

(** A tag with its angle brackets. *)
Definition tag (name : jstr) : jstr := c_lt :: name ++ [c_gt].

(** Text made of units other than the angle brackets and of whole tags:
    what the passes before the link pass produce. *)
Inductive FlatMarkup : jstr -> Prop :=
  | flat_nil : FlatMarkup []
  | flat_unit c s : isAngle c = false -> FlatMarkup s -> FlatMarkup (c :: s)
  | flat_tag name s : name ∈ tagNames -> FlatMarkup s -> FlatMarkup (tag name ++ s).

(** The opening tag of an anchor, as the link pass writes it. *)
Definition anchorOpen (url : jstr) : jstr :=
  u "<a href=" ++ dq ++ url ++ dq ++ u " target=" ++ dq ++ u "_blank" ++ dq ++ u ">".

(** Text made of units other than the angle brackets, of whole tags, and
    of anchors whose address is such text again: every angle bracket in
    it belongs to a tag that a pass has written. *)
Inductive Markup : jstr -> Prop :=
  | markup_nil : Markup []
  | markup_unit c s : isAngle c = false -> Markup s -> Markup (c :: s)
  | markup_tag name s : name ∈ tagNames -> Markup s -> Markup (tag name ++ s)
  | markup_anchor url s : Markup url -> Markup s -> Markup (anchorOpen url ++ s).

(** A unit after which no tag can be under way: the greater-than sign, or
    a unit that occurs in no tag. *)
Definition endsToken (c : N) : bool := (c =? c_gt)%N || (negb (isInterior c) && negb (c =? c_lt)%N).

(** The cut between [a] and [b] does not fall inside a tag. *)
Definition boundary (a b : jstr) : Prop :=
  a = [] \/ b = []
  \/ (exists c, last a = Some c /\ endsToken c = true)
  \/ (exists c, head b = Some c /\ isInterior c = false).

(** A cut at position [i] inside the tag [t] is recognised as such from
    both sides. *)
Definition splitOk (t : jstr) (i : nat) : bool :=
  match last (take i t), head (drop i t) with
  | Some c, Some d => negb (endsToken c) && isInterior d
  | _, _ => false
  end.

(** The last pass, unit by unit. *)
Definition brUnit (c : N) : jstr := if (c =? c_nl)%N then u "<br>" else [c].

(** ** Definitions for the properties of escaping, naming and the whole run *)

(** A node with its children after the first forgotten. *)
Definition firstOnly (node : Node) : Node :=
  {| node_message := node_message node;
     node_children := take 1 <$> node_children node |}.

(** The five units [escapeHtml] rewrites. *)
Definition isSpecial (c : N) : bool := memN c [c_amp; c_lt; c_gt; c_dq; c_sq].

(** The units that open an inline construct of [formatContent]: backtick,
    star and opening bracket. *)
Definition isMarker (c : N) : bool := memN c [96; 42; 91]%N.

(** The units that open a line construct: hash and hyphen. *)
Definition isLineMarker (c : N) : bool := memN c [35; 45]%N.

(** Text without markers, and without line markers at the start of a line
    ([bol] tells that the text starts a line). *)
Fixpoint plainFrom (bol : bool) (s : jstr) : bool :=
  match s with
  | [] => true
  | c :: t => negb (isMarker c) && negb (bol && isLineMarker c) && plainFrom (isLT c) t
  end.

(** The same of escaped text, which holds no less-than sign either. *)
Fixpoint quietFrom (bol : bool) (s : jstr) : bool :=
  match s with
  | [] => true
  | c :: t =>
      negb (isMarker c) && negb (c =? c_lt)%N && negb (bol && isLineMarker c)
      && quietFrom (isLT c) t
  end.

Definition isDigit (c : N) : bool := (48 <=? c)%N && (c <=? 57)%N.

(** The number a string of decimal digits denotes. *)
Definition numberOf (s : jstr) : nat :=
  foldl (fun a c => 10 * a + (N.to_nat c - 48)) 0 s.

(** The shape of [format(date, 'yyyy-MM-dd')] for a year of four digits:
    ten units, digits and hyphens. *)
Definition isoDay (s : jstr) : bool :=
  (length s =? 10) && forallb (fun c => isDigit c || (c =? 45)%N) s.

(** The names [processAll] writes to from index [i] on when every write
    succeeds. *)
Fixpoint fileNames (rt : Runtime) (i : nat) (l : list Conversation) : list jstr :=
  match l with
  | [] => []
  | c :: l' => fileName rt c i :: fileNames rt (S i) l'
  end.

(** The number of messages [extractMessages] finds in a conversation. *)
Definition messageCount (rt : Runtime) (fuel : nat) (c : Conversation) : nat :=
  match extractMessages rt fuel (conv_mapping c) with
  | Some messages => length messages
  | None => 0
  end.

(** A conversation one of whose scalar fields is an object that cannot be
    converted to a string. *)
Definition unprintable (c : Conversation) : Prop :=
  conv_id c = JObj true \/ conv_title c = JObj true
  \/ conv_inserted_at c = JObj true \/ conv_updated_at c = JObj true.

(** The first-child chain of the conversation ends within the fuel. *)
Definition chainEnds (fuel : nat) (c : Conversation) : Prop :=
  match conv_mapping c with
  | MapObject nodes => Acyclic nodes /\ size nodes < fuel
  | _ => True
  end.

(** A reporter for examples; [mkdir] succeeds. *)
Definition sampleReporter : Reporter := {|
  toISOString := u "2026-11-01T00:00:00.000Z";
  toLocaleString := u "11/1/2026, 12:00:00 AM";
  getIndexCSS := u "body { margin: 0; }";
  stringify := fun summary => u "{}";
  mkdirError := None |}.

(** A conversation over the chain of the example, without dates. *)
Definition chainConversation : Conversation := {|
  conv_id := JStr (u "c3");
  conv_title := JStr (u "Chain");
  conv_inserted_at := JNull;
  conv_updated_at := JNull;
  conv_mapping := MapObject (chainExample (u "A") (u "B") messageOne messageTwo) |}.

(** A conversation whose first-child chain runs in a circle of nodes
    without a message. *)
Definition loopingConversation : Conversation := {|
  conv_id := JStr (u "c4");
  conv_title := JStr (u "Loop");
  conv_inserted_at := JNull;
  conv_updated_at := JNull;
  conv_mapping := MapObject silentLoop |}.

(** An export of four conversations. *)
Definition sampleExport : list Conversation :=
  [conv2020; chainConversation; untitled; conv2024].

(** * Properties *)

Arguments u : simpl never.
Arguments messageBlock : simpl never.
Arguments documentHead : simpl never.
Arguments documentFoot : simpl never.
Arguments errorPage : simpl never.
Arguments headerText : simpl never.
Arguments formatContent : simpl never.
Arguments toString : simpl never.

(** ** Scanning *)

Lemma replace_go_skip (m : matcher) (k : nat) (s : jstr) (b : bool) :
  (forall b1 b2 t, m b1 t = m b2 t) ->
  replace_go m b k s = replace_go m true 0 (drop k s).
Proof.
  intros Hm. revert b k. induction s as [|c t IH]; intros b k.
  - by destruct k.
  - destruct k as [|k]; [|apply IH].
    rewrite drop_0. simpl. by rewrite (Hm b true).
Qed.

Lemma span_app (f : N -> bool) (s : jstr) :
  (span f s).1 ++ (span f s).2 = s.
Proof.
  induction s as [|c t IH]; simpl; [done|].
  destruct (f c); [|done]. destruct (span f t) as [a b]. simpl in *. by rewrite IH.
Qed.

Lemma span_rest_head (f : N -> bool) (s : jstr) :
  match (span f s).2 with [] => True | c :: _ => f c = false end.
Proof.
  induction s as [|c t IH]; simpl; [done|].
  destruct (f c) eqn:E; [|done]. by destruct (span f t) as [a b].
Qed.

(** ** [escapeHtml] *)

Lemma escapeHtml_units (text : jstr) : escapeHtml text = text ≫= escapeUnit.
Proof.
  destruct text as [|c0 t0]; [done|]. unfold escapeHtml, replace_all.
  generalize (c0 :: t0) as s. generalize true as b. intros b s. revert b.
  induction s as [|c t IH]; intros b; [done|]. simpl.
  unfold escapeUnit at 1. destruct (entity c); simpl; by rewrite IH.
Qed.

Lemma entity_no_angle (c : N) (x : N) :
  x ∈ escapeUnit c -> x <> c_lt /\ x <> c_gt /\ x <> c_dq /\ x <> c_sq.
Proof.
  assert (Hlit : forall e : jstr,
    forallb (fun y => negb (memN y [c_lt; c_gt; c_dq; c_sq])) e = true ->
    x ∈ e -> x <> c_lt /\ x <> c_gt /\ x <> c_dq /\ x <> c_sq).
  { intros e He Hx. apply list_elem_of_In in Hx.
    rewrite forallb_forall in He. specialize (He x Hx).
    repeat split; intros ->; by vm_compute in He. }
  unfold escapeUnit, entity.
  destruct (N.eqb_spec c c_amp); [by apply Hlit|].
  destruct (N.eqb_spec c c_lt); [by apply Hlit|].
  destruct (N.eqb_spec c c_gt); [by apply Hlit|].
  destruct (N.eqb_spec c c_dq); [by apply Hlit|].
  destruct (N.eqb_spec c c_sq); [by apply Hlit|].
  intros Hx. apply list_elem_of_singleton in Hx. by subst x.
Qed.

Lemma escapeHtml_no_angle (text : jstr) (x : N) :
  x ∈ escapeHtml text -> x <> c_lt /\ x <> c_gt /\ x <> c_dq /\ x <> c_sq.
Proof.
  rewrite escapeHtml_units. intros Hx. apply list_elem_of_bind in Hx as (c & Hx & _).
  by apply entity_no_angle in Hx.
Qed.

(** ** [sanitizeFilename] *)

Lemma reserved_pass (s : jstr) :
  replace_all m_reserved s = underscoreReserved <$> s.
Proof.
  unfold replace_all. generalize true as b. induction s as [|c t IH]; intros b; [done|].
  simpl. unfold underscoreReserved at 1. destruct (isReserved c); simpl; by rewrite IH.
Qed.

Lemma isReserved_not_space (c : N) : isReserved c = true -> isSpace c = false.
Proof.
  unfold isReserved, memN. simpl. rewrite !orb_true_iff.
  intros H. repeat (destruct H as [H|H]; [apply N.eqb_eq in H; by subst c|]). done.
Qed.

Lemma isSpace_underscoreReserved (c : N) : isSpace (underscoreReserved c) = isSpace c.
Proof.
  unfold underscoreReserved. destruct (isReserved c) eqn:E; [|done].
  by rewrite (isReserved_not_space c E).
Qed.

Lemma collapseFrom_true_span (s : jstr) :
  collapseFrom true s = collapseFrom true (span isSpace s).2.
Proof.
  induction s as [|c t IH]; [done|]. simpl.
  destruct (isSpace c) eqn:E.
  - destruct (span isSpace t) as [a b]. simpl in *. done.
  - simpl. by rewrite E.
Qed.

Lemma m_spaces_bol (b1 b2 : bool) (t : jstr) : m_spaces b1 t = m_spaces b2 t.
Proof. done. Qed.

Lemma spaces_pass_len (n : nat) (s : jstr) :
  length s <= n -> replace_all m_spaces s = collapseFrom false s.
Proof.
  revert s. induction n as [|n IH]; intros s Hn.
  - destruct s; [done|simpl in Hn; lia].
  - destruct s as [|c t]; [done|]. unfold replace_all. simpl.
    unfold m_spaces. simpl.
    pose proof (span_app isSpace t) as Happ.
    pose proof (span_rest_head isSpace t) as Hhd.
    pose proof (collapseFrom_true_span t) as Hcol.
    destruct (isSpace c) eqn:E.
    + destruct (span isSpace t) as [a r]. simpl in *.
      rewrite (replace_go_skip _ _ _ _ m_spaces_bol).
      assert (drop (length a) t = r) as ->.
      { rewrite <- Happ. by rewrite drop_app_length. }
      fold (replace_all m_spaces r). rewrite IH.
      * f_equal. rewrite Hcol. destruct r; [done|]. simpl. by rewrite Hhd.
      * rewrite <- Happ in Hn. rewrite length_app in Hn. simpl in Hn. lia.
    + f_equal. rewrite (replace_go_skip _ _ _ _ m_spaces_bol). rewrite drop_0.
      apply IH. simpl in Hn. lia.
Qed.

Lemma spaces_pass (s : jstr) : replace_all m_spaces s = collapseFrom false s.
Proof. by apply (spaces_pass_len (length s)). Qed.

Lemma collapse_reserved (b : bool) (s : jstr) :
  collapseFrom b (underscoreReserved <$> s) = slugFrom b s.
Proof.
  revert b. induction s as [|c t IH]; intros b; [done|]. simpl.
  rewrite isSpace_underscoreReserved. destruct (isSpace c); rewrite ?IH; done.
Qed.

Lemma passes_slug (title : jstr) :
  replace_all m_spaces (replace_all m_reserved title) = slug title.
Proof. by rewrite reserved_pass, spaces_pass, collapse_reserved. Qed.

Lemma slugFrom_plain (b : bool) (title : jstr) : Forall plainUnit (slugFrom b title).
Proof.
  revert b. induction title as [|c t IH]; intros b; simpl; [constructor|].
  destruct (isSpace c) eqn:E.
  - destruct b; [apply IH|]. constructor; [by vm_compute|apply IH].
  - constructor; [|apply IH]. destruct (isReserved c) eqn:R; [by vm_compute|done].
Qed.

Lemma trimStart_plain (s : jstr) : Forall plainUnit s -> trimStart s = s.
Proof. destruct 1 as [|c t [_ Hc] _]; simpl; [done|]. by rewrite Hc. Qed.

Lemma trim_plain (s : jstr) : Forall plainUnit s -> trim s = s.
Proof.
  intros H. unfold trim. rewrite (trimStart_plain s H).
  rewrite trimStart_plain; [apply rev_involutive|].
  apply Forall_forall. intros x Hx. rewrite Forall_forall in H. apply H.
  apply list_elem_of_In. apply list_elem_of_In in Hx. by apply in_rev.
Qed.

Lemma sanitize_slug (title : jstr) :
  sanitize title = match title with [] => u "untitled" | _ => take 50 (slug title) end.
Proof.
  destruct title as [|c t]; [done|]. unfold sanitize. rewrite passes_slug.
  apply trim_plain. apply Forall_take. apply slugFrom_plain.
Qed.

Lemma sanitize_plain (title : jstr) :
  length (sanitize title) <= 50 /\ Forall plainUnit (sanitize title).
Proof.
  rewrite sanitize_slug. destruct title as [|c t].
  - split; [vm_compute; lia|]. vm_compute. repeat constructor.
  - split; [rewrite length_take; lia|]. apply Forall_take. apply slugFrom_plain.
Qed.

(** The classes of the two regular expressions are the characters the
    specification lists and white space. *)
Lemma isReserved_spec (c : N) : isReserved c = bool_decide (c ∈ reservedCharacters).
Proof.
  destruct (isReserved c) eqn:E; symmetry.
  - apply bool_decide_eq_true. unfold isReserved, memN in E. cbn [existsb] in E.
    repeat (apply orb_true_iff in E as [E|E]); try discriminate;
      apply N.eqb_eq in E; subst c; apply (bool_decide_unpack _); by vm_compute.
  - apply bool_decide_eq_false. intros Hin.
    change reservedCharacters with [60; 62; 58; 34; 47; 92; 124; 63; 42]%N in Hin.
    repeat (apply elem_of_cons in Hin as [->|Hin]; [by vm_compute in E|]).
    by apply elem_of_nil in Hin.
Qed.

Lemma isSpace_spec (c : N) : isSpace c = bool_decide (c ∈ whiteSpaceUnits).
Proof.
  destruct (isSpace c) eqn:E; symmetry.
  - apply bool_decide_eq_true. unfold isSpace, memN in E. cbn [existsb] in E.
    apply orb_true_iff in E as [E|E].
    + repeat (apply orb_true_iff in E as [E|E]); try discriminate;
        apply N.eqb_eq in E; subst c; apply (bool_decide_unpack _); by vm_compute.
    + apply andb_true_iff in E as [E1 E2]. apply N.leb_le in E1, E2.
      assert (c = 8192 \/ c = 8193 \/ c = 8194 \/ c = 8195 \/ c = 8196 \/ c = 8197
              \/ c = 8198 \/ c = 8199 \/ c = 8200 \/ c = 8201 \/ c = 8202)%N as H by lia.
      repeat (destruct H as [->|H]; [apply (bool_decide_unpack _); by vm_compute|]).
      subst c. apply (bool_decide_unpack _). by vm_compute.
  - apply bool_decide_eq_false. intros Hin. unfold whiteSpaceUnits in Hin.
    repeat (apply elem_of_cons in Hin as [->|Hin]; [by vm_compute in E|]).
    by apply elem_of_nil in Hin.
Qed.

Lemma slugText_slugFrom (b : bool) (title : jstr) : slugText b title = slugFrom b title.
Proof.
  revert b. induction title as [|c t IH]; intros b; [done|].
  cbn [slugText slugFrom]. by rewrite <- isSpace_spec, <- isReserved_spec, !IH.
Qed.

Lemma plainUnit_spec (c : N) :
  plainUnit c <-> (c ∉ reservedCharacters) /\ (c ∉ whiteSpaceUnits).
Proof.
  unfold plainUnit. rewrite isReserved_spec, isSpace_spec.
  by rewrite !bool_decide_eq_false.
Qed.

(** C8.  For every string title, [sanitizeFilename] returns at most 50
    code units, none of them one of the nine characters less-than,
    greater-than, colon, double quote, slash, backslash, bar, question
    mark and star, and none of them white space; for a non-empty title the
    result is the first 50 units of the title in which every one of the
    nine characters is replaced by an underscore and every maximal run of
    white space by a single underscore (the empty title gives
    [untitled]).  A title with a slash, a colon and a run of blanks, and
    one that is cut at 50 units, show it. *)
Theorem sanitizeFilename_slug (title : jstr) :
  length (sanitizeFilename (JStr title)) <= 50
  /\ Forall (fun c => (c ∉ reservedCharacters) /\ (c ∉ whiteSpaceUnits))
       (sanitizeFilename (JStr title))
  /\ sanitizeFilename (JStr title)
     = match title with [] => u "untitled" | _ => take 50 (slugText false title) end
  /\ sanitizeFilename (JStr (u "a/b: c   d")) = u "a_b__c_d"
  /\ sanitizeFilename
       (JStr (u "  What is: a/b?  and more than fifty characters in this title, really  "))
     = u "_What_is__a_b__and_more_than_fifty_characters_in_t".
Proof.
  cbn [sanitizeFilename]. destruct (sanitize_plain title) as [Hlen Hplain].
  split; [exact Hlen|]. split.
  - eapply Forall_impl; [exact Hplain|]. intros c. apply plainUnit_spec.
  - split; [|split; by vm_compute].
    rewrite sanitize_slug. unfold slug. by rewrite slugText_slugFrom.
Qed.

(** ** [extractMessages] *)

Lemma pushMessage_app (messages : list Message) (node : Node) :
  pushMessage messages node = messages ++ option_list (node_message node).
Proof. unfold pushMessage. destruct (node_message node); simpl; by rewrite ?app_nil_r. Qed.

Lemma resolve_Some (mapping : gmap jstr Node) (currentId : option jstr) (node : Node) :
  resolve mapping currentId = Some node ->
  exists i, currentId = Some i /\ mapping !! i = Some node.
Proof. destruct currentId as [[|c i]|]; try done. intros H. by exists (c :: i). Qed.

Lemma chainIds_step (n : nat) (mapping : gmap jstr Node) (i : jstr) (node : Node) :
  resolve mapping (Some i) = Some node ->
  chainIds (S n) mapping (Some i) = i :: chainIds n mapping (firstChild (node_children node)).
Proof. intros E. cbn [chainIds]. by rewrite E. Qed.

Lemma messagesAlong_cons (mapping : gmap jstr Node) (i : jstr) (ids : list jstr)
    (node : Node) :
  mapping !! i = Some node ->
  messagesAlong mapping (i :: ids) = option_list (node_message node) ++ messagesAlong mapping ids.
Proof. intros E. unfold messagesAlong. cbn [mbind list_bind]. by rewrite E. Qed.

(** Whatever the way the loop is left, what it returns are the messages of
    an initial stretch of the chain, in visit order. *)
Lemma extractLoop_prefix (rt : Runtime) (fuel : nat) (mapping : gmap jstr Node)
    (currentId : option jstr) (acc msgs : list Message) :
  extractLoop rt fuel mapping currentId acc = Some msgs ->
  exists k, k <= fuel /\ msgs = acc ++ messagesAlong mapping (chainIds k mapping currentId).
Proof.
  revert currentId acc. induction fuel as [|fuel IH]; intros cur acc; cbn [extractLoop]; [done|].
  destruct (resolve mapping cur) as [node|] eqn:E.
  - destruct (pushThrows rt acc node).
    + intros [= <-]. exists 0. split; [lia|]. by rewrite app_nil_r.
    + intros H. apply IH in H as (k & Hk & ->).
      destruct (resolve_Some _ _ _ E) as (i & -> & Hi).
      exists (S k). split; [lia|].
      rewrite (chainIds_step _ _ _ _ E), (messagesAlong_cons _ _ _ _ Hi).
      by rewrite pushMessage_app, <- app_assoc.
  - intros [= <-]. exists 0. split; [lia|]. by rewrite app_nil_r.
Qed.

(** The array of messages never outgrows what an array can hold. *)
Lemma extractLoop_within_limit (rt : Runtime) (fuel : nat) (mapping : gmap jstr Node)
    (currentId : option jstr) (acc msgs : list Message) :
  extractLoop rt fuel mapping currentId acc = Some msgs ->
  (N.of_nat (length acc) <= maxArrayLength rt)%N ->
  (N.of_nat (length msgs) <= maxArrayLength rt)%N.
Proof.
  revert currentId acc. induction fuel as [|fuel IH]; intros cur acc; cbn [extractLoop]; [done|].
  destruct (resolve mapping cur) as [node|] eqn:E; [|by intros [= <-]].
  destruct (pushThrows rt acc node) eqn:T; [by intros [= <-]|].
  intros H Hacc. apply IH in H; [done|].
  unfold pushThrows, pushMessage in *. destruct (node_message node); [|done].
  apply N.leb_gt in T. rewrite length_app. cbn [length]. lia.
Qed.

(** When the result is shorter than an array can be, [push] has not
    thrown: the loop ended by its condition, at the end of the chain. *)
Lemma extractLoop_normal (rt : Runtime) (fuel : nat) (mapping : gmap jstr Node)
    (currentId : option jstr) (acc msgs : list Message) :
  extractLoop rt fuel mapping currentId acc = Some msgs ->
  (N.of_nat (length msgs) < maxArrayLength rt)%N ->
  reachesEnd fuel mapping currentId = true
  /\ exists rest, msgs = acc ++ rest /\ Walk mapping currentId rest.
Proof.
  revert currentId acc. induction fuel as [|fuel IH]; intros cur acc;
    cbn [extractLoop reachesEnd]; [done|].
  destruct (resolve mapping cur) as [node|] eqn:E.
  - destruct (pushThrows rt acc node) eqn:T.
    + intros [= <-] Hlt. exfalso. unfold pushThrows in T.
      destruct (node_message node); [|done]. apply N.leb_le in T. lia.
    + intros H Hlt. destruct (IH _ _ H Hlt) as (He & rest & -> & Hw).
      split; [done|]. rewrite pushMessage_app, <- app_assoc.
      eexists. split; [done|]. by eapply Walk_node.
  - intros [= <-] _. split; [done|]. exists []. rewrite app_nil_r.
    split; [done|]. by apply Walk_end.
Qed.

Lemma pushThrows_room (rt : Runtime) (messages : list Message) (node : Node) :
  (N.of_nat (length messages) < maxArrayLength rt)%N -> pushThrows rt messages node = false.
Proof. intros H. unfold pushThrows. destruct (node_message node); [|done]. by apply N.leb_gt. Qed.

Lemma walk_extractLoop (rt : Runtime) (mapping : gmap jstr Node) (currentId : option jstr)
    (rest : list Message) :
  Walk mapping currentId rest ->
  exists fuel, forall extra acc,
    (N.of_nat (length (acc ++ rest)) <= maxArrayLength rt)%N ->
    extractLoop rt (fuel + extra) mapping currentId acc = Some (acc ++ rest).
Proof.
  induction 1 as [cur E|cur node rest E _ [fuel IH]].
  - exists 1. intros extra acc _. simpl. by rewrite E, app_nil_r.
  - exists (S fuel). intros extra acc Hlen. cbn [Nat.add extractLoop]. rewrite E.
    rewrite !length_app in Hlen.
    assert (pushThrows rt acc node = false) as ->.
    { unfold pushThrows. revert Hlen. destruct (node_message node); [|done].
      intros Hlen. apply N.leb_gt. change (option_list (Some m)) with [m] in Hlen.
      cbn [length] in Hlen. lia. }
    rewrite pushMessage_app, IH; [by rewrite <- app_assoc|].
    rewrite !length_app. lia.
Qed.

(** C1.  [extractMessages] follows the chain of first children that starts
    at [root.children[0]] and collects the messages of the nodes it visits
    in visit order: what it returns are always the messages of an initial
    stretch of that chain; when the messages of the whole chain fit into
    an array it returns exactly these, and a result shorter than an array
    can be is exactly these ([push] has not thrown).  On the mapping with
    [root.children = [A]], [A = {message: M1, children: [B]}],
    [B = {message: M2, children: []}] it returns [[M1, M2]]. *)
Theorem extractMessages_first_child_chain (rt : Runtime) (nodes : gmap jstr Node)
    (msgs : list Message) :
  (forall fuel,
     extractMessages rt fuel (MapObject nodes) = Some msgs ->
     exists k, msgs = messagesAlong nodes (chainIds k nodes (startId nodes)))
  /\ (Walk nodes (startId nodes) msgs ->
      (N.of_nat (length msgs) <= maxArrayLength rt)%N ->
      exists fuel, extractMessages rt fuel (MapObject nodes) = Some msgs)
  /\ (forall fuel,
        extractMessages rt fuel (MapObject nodes) = Some msgs ->
        (N.of_nat (length msgs) < maxArrayLength rt)%N ->
        Walk nodes (startId nodes) msgs)
  /\ (forall (A B : jstr) (M1 M2 : Message),
        A <> [] -> B <> [] -> A <> B -> A <> u "root" -> B <> u "root" ->
        (2 <= maxArrayLength rt)%N ->
        forall fuel,
          extractMessages rt (3 + fuel) (MapObject (chainExample A B M1 M2)) = Some [M1; M2]).
Proof.
  split; [|split; [|split]].
  - intros fuel H. cbn [extractMessages] in H.
    apply extractLoop_prefix in H as (k & _ & ->). by exists k.
  - intros Hw Hlen. destruct (walk_extractLoop rt _ _ _ Hw) as [fuel H].
    exists (fuel + 0). cbn [extractMessages]. by apply (H 0 []).
  - intros fuel H Hlt. cbn [extractMessages] in H.
    by destruct (extractLoop_normal _ _ _ _ _ _ H Hlt) as (_ & rest & -> & Hw).
  - intros A B M1 M2 HA HB HAB HAr HBr Hlim fuel.
    assert (Hroot : chainExample A B M1 M2 !! u "root"
                    = Some {| node_message := None; node_children := Some [A] |}).
    { unfold chainExample. by rewrite lookup_insert_eq. }
    assert (HlA : chainExample A B M1 M2 !! A
                  = Some {| node_message := Some M1; node_children := Some [B] |}).
    { unfold chainExample. rewrite lookup_insert_ne by done. by rewrite lookup_insert_eq. }
    assert (HlB : chainExample A B M1 M2 !! B
                  = Some {| node_message := Some M2; node_children := Some [] |}).
    { unfold chainExample. rewrite !lookup_insert_ne by done. by rewrite lookup_insert_eq. }
    unfold extractMessages, startId. rewrite Hroot. cbn [node_children firstChild].
    destruct A as [|a A']; [done|]. cbn [Nat.add extractLoop resolve]. rewrite HlA.
    rewrite pushThrows_room by (cbn [length N.of_nat]; lia).
    cbn [pushMessage node_message node_children firstChild app].
    destruct B as [|b B']; [done|]. cbn [resolve]. rewrite HlB.
    rewrite pushThrows_room by (cbn [length]; lia).
    cbn [pushMessage node_message node_children firstChild app resolve]. done.
Qed.

(** C9.  On the empty object, on [null], on a value that is not an object,
    and on every object whose [root.children[0]] is missing or names no
    entry of the mapping, [extractMessages] returns the empty sequence; the
    result type has no error case, and one round of fuel suffices. *)
Theorem extractMessages_malformed (rt : Runtime) (fuel : nat) :
  extractMessages rt (S fuel) (MapObject ∅) = Some []
  /\ extractMessages rt fuel MapNull = Some []
  /\ extractMessages rt fuel MapPrimitive = Some []
  /\ (forall nodes : gmap jstr Node,
        resolve nodes (startId nodes) = None ->
        extractMessages rt (S fuel) (MapObject nodes) = Some []).
Proof.
  repeat split; try done.
  intros nodes H. simpl. by rewrite H.
Qed.

(** *** Termination *)

(** The loop returns as soon as its condition fails, if not before. *)
Lemma extractLoop_ends (rt : Runtime) (fuel : nat) (mapping : gmap jstr Node)
    (currentId : option jstr) (acc : list Message) :
  reachesEnd fuel mapping currentId = true ->
  is_Some (extractLoop rt fuel mapping currentId acc).
Proof.
  revert currentId acc. induction fuel as [|fuel IH]; intros cur acc;
    cbn [extractLoop reachesEnd]; [done|].
  destruct (resolve mapping cur) as [node|]; [|by eexists].
  destruct (pushThrows rt acc node); [by eexists|]. apply IH.
Qed.

Lemma SilentFrom_step (mapping : gmap jstr Node) (currentId : option jstr) (node : Node) :
  SilentFrom mapping currentId -> resolve mapping currentId = Some node ->
  node_message node = None /\ SilentFrom mapping (firstChild (node_children node)).
Proof.
  intros Hs E. destruct (resolve_Some _ _ _ E) as (i & -> & Hi). split.
  - apply (Hs 1 i node); [|done]. rewrite (chainIds_step _ _ _ _ E). by left.
  - intros n j node' Hj. apply (Hs (S n) j node').
    rewrite (chainIds_step _ _ _ _ E). by right.
Qed.

(** On a chain without messages [push] is never called: the loop returns
    only when its condition fails. *)
Lemma extractLoop_silent (rt : Runtime) (fuel : nat) (mapping : gmap jstr Node)
    (currentId : option jstr) (acc : list Message) :
  SilentFrom mapping currentId ->
  is_Some (extractLoop rt fuel mapping currentId acc) ->
  reachesEnd fuel mapping currentId = true.
Proof.
  revert currentId acc. induction fuel as [|fuel IH]; intros cur acc Hs;
    cbn [extractLoop reachesEnd]; [by intros [? ?]|].
  destruct (resolve mapping cur) as [node|] eqn:E; [|done].
  destruct (SilentFrom_step _ _ _ Hs E) as [Hm Hs'].
  unfold pushThrows. rewrite Hm. by apply IH.
Qed.

Lemma chainIds_keys (n : nat) (mapping : gmap jstr Node) (currentId : option jstr) (i : jstr) :
  i ∈ chainIds n mapping currentId -> is_Some (mapping !! i).
Proof.
  revert currentId. induction n as [|n IH]; intros cur; cbn [chainIds]; [by intros ?%elem_of_nil|].
  destruct cur as [j|]; [|by intros ?%elem_of_nil].
  destruct (resolve mapping (Some j)) as [node|] eqn:E; [|by intros ?%elem_of_nil].
  intros [->|H]%elem_of_cons; [|by eapply IH].
  destruct j; [done|]. unfold resolve in E. by rewrite E.
Qed.

Lemma chainIds_short_ends (n : nat) (mapping : gmap jstr Node) (currentId : option jstr) :
  length (chainIds n mapping currentId) < n -> reachesEnd n mapping currentId = true.
Proof.
  revert currentId. induction n as [|n IH]; intros cur; cbn [chainIds reachesEnd];
    [intros H; exfalso; simpl in H; lia|].
  destruct cur as [j|]; [|done].
  destruct (resolve mapping (Some j)) as [node|] eqn:E; [|done].
  cbn [length]. intros H. apply IH. lia.
Qed.

(** Reaching an id on the chain costs fuel: if the condition fails within
    the fuel from [currentId] and [i] is on the chain, it fails from [i]
    with no more fuel. *)
Lemma ends_from_chain (fuel n : nat) (mapping : gmap jstr Node) (currentId : option jstr)
    (i : jstr) :
  reachesEnd fuel mapping currentId = true ->
  i ∈ chainIds n mapping currentId ->
  exists fuel', fuel' <= fuel /\ reachesEnd fuel' mapping (Some i) = true.
Proof.
  revert n currentId. induction fuel as [|fuel IH]; intros n cur; [done|].
  intros Hh Hi. destruct n as [|n]; [by apply elem_of_nil in Hi|].
  cbn [chainIds reachesEnd] in Hh, Hi. destruct cur as [j|]; [|by apply elem_of_nil in Hi].
  destruct (resolve mapping (Some j)) as [node|] eqn:E; [|by apply elem_of_nil in Hi].
  apply elem_of_cons in Hi as [->|Hi].
  - exists (S fuel). split; [lia|]. cbn [reachesEnd]. by rewrite E.
  - destruct (IH n _ Hh Hi) as (fuel' & Hle & Hs). exists fuel'. split; [lia|done].
Qed.

(** A node that is met again on its own chain keeps the condition true. *)
Lemma cycle_never_ends (fuel n : nat) (mapping : gmap jstr Node) (i : jstr) (node : Node) :
  resolve mapping (Some i) = Some node ->
  i ∈ chainIds n mapping (firstChild (node_children node)) ->
  reachesEnd fuel mapping (Some i) = false.
Proof.
  intros E Hi. induction (lt_wf fuel) as [fuel _ IH].
  destruct (reachesEnd fuel mapping (Some i)) eqn:Hx; [|done].
  exfalso. destruct fuel as [|fuel]; [done|].
  cbn [reachesEnd] in Hx. rewrite E in Hx.
  destruct (ends_from_chain _ _ _ _ _ Hx Hi) as (fuel' & Hle & Hs').
  rewrite IH in Hs'; [done|lia].
Qed.

Lemma ends_chain_NoDup (fuel n : nat) (mapping : gmap jstr Node) (currentId : option jstr) :
  reachesEnd fuel mapping currentId = true -> NoDup (chainIds n mapping currentId).
Proof.
  revert fuel currentId. induction n as [|n IH]; intros fuel cur Hs; cbn [chainIds].
  - constructor.
  - destruct cur as [j|]; [|constructor].
    destruct (resolve mapping (Some j)) as [node|] eqn:E; [|constructor].
    constructor.
    + intros Hj. by rewrite (cycle_never_ends _ _ _ _ _ E Hj) in Hs.
    + destruct fuel as [|fuel]; [done|].
      cbn [reachesEnd] in Hs. rewrite E in Hs. by eapply IH.
Qed.

Lemma chainIds_bounded (n : nat) (mapping : gmap jstr Node) (currentId : option jstr) :
  NoDup (chainIds n mapping currentId) ->
  length (chainIds n mapping currentId) <= size mapping.
Proof.
  intros Hnd. rewrite <- size_dom. unfold size at 1, set_size. simpl.
  apply submseteq_length, NoDup_submseteq; [done|].
  intros i Hi. apply elem_of_elements, elem_of_dom. by eapply chainIds_keys.
Qed.

Lemma acyclic_ends (rt : Runtime) (nodes : gmap jstr Node) (fuel : nat) (acc : list Message) :
  Acyclic nodes -> size nodes < fuel ->
  is_Some (extractLoop rt fuel nodes (startId nodes) acc).
Proof.
  intros Hac Hs. apply extractLoop_ends, chainIds_short_ends.
  pose proof (chainIds_bounded _ _ _ (Hac fuel)). lia.
Qed.

(** On a chain that runs in a circle of nodes without a message the loop
    goes on for ever. *)
Lemma silent_cycle_never_extracts (rt : Runtime) (nodes : gmap jstr Node) (fuel : nat) :
  ~ Acyclic nodes -> Silent nodes -> extractMessages rt fuel (MapObject nodes) = None.
Proof.
  intros Hcyc Hs. cbn [extractMessages].
  destruct (extractLoop rt fuel nodes (startId nodes) []) as [msgs|] eqn:E; [|done].
  destruct Hcyc. intros n. apply (ends_chain_NoDup fuel).
  apply (extractLoop_silent rt _ _ _ [] Hs). rewrite E. by eexists.
Qed.

(** C7.  When the chain of first children from [root.children[0]] never
    revisits a node id, the loop of [extractMessages] ends: it makes at
    most one round per entry of the mapping, so fuel for one round more
    than the mapping has entries yields a result.  Without that there is
    no such guarantee: when the chain revisits a node id and none of its
    nodes carries a message, no amount of fuel yields a result. *)
Theorem extractMessages_terminates_when_acyclic (rt : Runtime) (nodes : gmap jstr Node) :
  (Acyclic nodes ->
     (forall n, length (chainIds n nodes (startId nodes)) <= size nodes)
     /\ exists msgs, extractMessages rt (S (size nodes)) (MapObject nodes) = Some msgs)
  /\ (~ Acyclic nodes -> Silent nodes ->
      forall fuel, extractMessages rt fuel (MapObject nodes) = None).
Proof.
  split.
  - intros Hac. split.
    + intros n. apply chainIds_bounded, Hac.
    + apply (acyclic_ends rt nodes (S (size nodes)) [] Hac). lia.
  - intros Hcyc Hs fuel. by apply silent_cycle_never_extracts.
Qed.

(** ** [sortConversationsByDate] *)

Section SortFacts.

Context {A : Type} (comparefn : A -> A -> jsnum).

(** Sortedness needs the comparator to be a total preorder on the
    elements; [P] singles out the elements on which it is one. *)
Context (P : A -> Prop).

Local Abbreviation R := (notGreater comparefn).

Hypothesis R_total : forall x y, P x -> P y -> R x y \/ R y x.
Hypothesis R_trans : forall x y z, P x -> P y -> P z -> R x y -> R y z -> R x z.

Lemma insert_sorted_strongly (x : A) (l : list A) :
  P x -> Forall P l -> StronglySorted R l -> StronglySorted R (insert_sorted comparefn x l).
Proof.
  intros Px Pl Hs. induction l as [|y l IH]; simpl.
  - repeat constructor.
  - apply Forall_cons in Pl as [Py Pl]. apply StronglySorted_inv in Hs as [Hs Hy].
    destruct (Z.leb_spec (sortCompare comparefn x y) 0) as [Hle|Hgt].
    + constructor; [by constructor|]. constructor; [done|].
      rewrite Forall_forall in Hy, Pl |- *. intros z Hz.
      apply (R_trans x y z); auto.
    + constructor; [by apply IH|].
      rewrite insert_sorted_perm. constructor; [|done].
      destruct (R_total x y Px Py) as [Hxy|Hyx]; [|done]. unfold notGreater in Hxy. lia.
Qed.

Lemma stableSort_strongly (l : list A) :
  Forall P l -> StronglySorted R (stableSort comparefn l).
Proof.
  induction 1 as [|x l Px Pl IH]; simpl; [constructor|].
  apply insert_sorted_strongly; [done| |done]. by rewrite stableSort_perm.
Qed.

End SortFacts.

Lemma filter_none {A : Type} (P : A -> Prop) `{!forall x, Decision (P x)} (l : list A) :
  Forall (fun x => ~ P x) l -> filter P l = [].
Proof.
  induction 1 as [|x l Hx _ IH]; [done|]. by rewrite filter_cons, decide_False.
Qed.

Lemma StronglySorted_lookup_lt {A : Type} (R : A -> A -> Prop) (l : list A) (i j : nat) (x y : A) :
  StronglySorted R l -> l !! i = Some x -> l !! j = Some y -> i < j -> R x y.
Proof.
  intros Hs. revert i j. induction Hs as [|a l Hs IH Ha]; intros i j Hi Hj Hlt.
  - by rewrite lookup_nil in Hi.
  - destruct j as [|j]; [lia|]. simpl in Hj. destruct i as [|i].
    + simpl in Hi. injection Hi as ->. rewrite Forall_forall in Ha. apply Ha.
      by eapply list_elem_of_lookup_2.
    + simpl in Hi. apply (IH i j); [done|done|lia].
Qed.

Section DateOrder.

Variable rt : Runtime.

Lemma sortConversationsByDate_perm (conversations : list Conversation) :
  sortConversationsByDate rt conversations ≡ₚ conversations.
Proof. apply sort_permutes. Qed.

(** What the comparator answers when the dates parse: the difference of
    the times, and 1, -1 or 0 when a date is missing. *)
Lemma compareByDate_value (x y : Conversation) :
  validDate rt x -> validDate rt y ->
  sortCompare (compareByDate rt) x y
  = match timeOf rt x, timeOf rt y with
    | Some tx, Some ty => (ty - tx)%Z
    | None, None => 0%Z
    | None, Some _ => 1%Z
    | Some _, None => (-1)%Z
    end.
Proof.
  unfold validDate, timeOf, sortCompare, compareByDate.
  intros Hx Hy.
  destruct (truthy (dateOf x)) eqn:Ex, (truthy (dateOf y)) eqn:Ey; simpl; try done.
  - destruct (Hx eq_refl) as [tx Htx], (Hy eq_refl) as [ty Hty].
    destruct (dateTime rt (dateOf x)) as [[|vx]| |]; try done.
    by destruct (dateTime rt (dateOf y)) as [[|vy]| |].
  - destruct (Hx eq_refl) as [tx Htx].
    by destruct (dateTime rt (dateOf x)) as [[|vx]| |].
  - destruct (Hy eq_refl) as [ty Hty].
    by destruct (dateTime rt (dateOf y)) as [[|vy]| |].
Qed.

Lemma compareByDate_valid (x y : Conversation) :
  validDate rt x -> validDate rt y ->
  (sortCompare (compareByDate rt) x y <= 0)%Z <-> notAfter rt x y.
Proof.
  intros Hx Hy. rewrite compareByDate_value by done. unfold notAfter.
  destruct (timeOf rt x), (timeOf rt y); intuition lia.
Qed.

Lemma notAfter_total (x y : Conversation) : notAfter rt x y \/ notAfter rt y x.
Proof.
  unfold notAfter. destruct (timeOf rt x), (timeOf rt y); try tauto. lia.
Qed.

Lemma notAfter_trans (x y z : Conversation) : notAfter rt x y -> notAfter rt y z -> notAfter rt x z.
Proof.
  unfold notAfter. destruct (timeOf rt x), (timeOf rt y), (timeOf rt z); try tauto. lia.
Qed.

(** With dates that parse the comparator is consistent. *)
Lemma valid_consistent (conversations : list Conversation) :
  Forall (validDate rt) conversations -> Consistent (compareByDate rt) conversations.
Proof.
  intros Hv. rewrite Forall_forall in Hv.
  assert (Hval : forall a b, a ∈ conversations -> b ∈ conversations ->
            sortCompare (compareByDate rt) a b
            = match timeOf rt a, timeOf rt b with
              | Some tx, Some ty => (ty - tx)%Z
              | None, None => 0%Z
              | None, Some _ => 1%Z
              | Some _, None => (-1)%Z
              end)
    by (intros a b Ha Hb; apply compareByDate_value; by apply Hv).
  split; [intros a Ha; rewrite Hval by done; destruct (timeOf rt a); lia|].
  split; [intros a b Ha Hb; rewrite !Hval by done;
          destruct (timeOf rt a), (timeOf rt b); lia|].
  repeat split; intros a b c Ha Hb Hc; rewrite !Hval by done;
    destruct (timeOf rt a), (timeOf rt b), (timeOf rt c); lia.
Qed.

Lemma compareByDate_undated (x y : Conversation) :
  undated x -> undated y -> sortCompare (compareByDate rt) x y = 0%Z.
Proof.
  unfold undated, sortCompare, compareByDate. by intros -> ->.
Qed.

(** The conversations without a date are a class the comparator puts
    last, whatever the dates of the others: lines 79 to 81 never read a
    time. *)
Lemma undated_sorts_last (conversations : list Conversation) :
  SortsLast (compareByDate rt) (fun c => negb (truthy (dateOf c))) conversations.
Proof.
  split; intros x y _ _ Hx Hy; unfold sortCompare, compareByDate;
    apply negb_true_iff in Hx; rewrite Hx; cbn.
  - apply negb_false_iff in Hy. rewrite Hy. cbn. lia.
  - apply negb_true_iff in Hy. by rewrite Hy.
Qed.

Lemma sort_by_date_stable (conversations : list Conversation) :
  Forall (validDate rt) conversations ->
  sortConversationsByDate rt conversations = stableSort (compareByDate rt) conversations.
Proof. intros Hv. apply sort_consistent. by apply valid_consistent. Qed.

Lemma sort_by_date_strongly (conversations : list Conversation) :
  Forall (validDate rt) conversations ->
  StronglySorted (notGreater (compareByDate rt))
    (sortConversationsByDate rt conversations).
Proof.
  intros Hv. rewrite sort_by_date_stable by done.
  apply (stableSort_strongly (compareByDate rt) (validDate rt)); [| |done].
  - intros x y Hx Hy. unfold notGreater. rewrite !compareByDate_valid by done.
    apply notAfter_total.
  - intros x y z Hx Hy Hz. unfold notGreater. rewrite !compareByDate_valid by done.
    apply notAfter_trans.
Qed.

(** Whatever the dates are: the sorted collection is a list of dated
    conversations followed by the undated ones in their original order. *)
Lemma sort_by_date_undated (conversations : list Conversation) :
  exists early,
    sortConversationsByDate rt conversations = early ++ filter undated conversations
    /\ Forall (fun c => truthy (dateOf c) = true) early.
Proof.
  destruct (sort_last rt _ _ _ (undated_sorts_last conversations)) as (early & Hs & He).
  exists early. split.
  - unfold sortConversationsByDate. rewrite Hs. f_equal.
    apply list_filter_iff. intros c. unfold undated. apply negb_true_iff.
  - eapply Forall_impl; [exact He|]. intros c Hc. by apply negb_false_iff in Hc.
Qed.

Lemma sort_by_date_undated_last (conversations : list Conversation) :
  UndatedLast (sortConversationsByDate rt conversations)
  /\ filter undated (sortConversationsByDate rt conversations) = filter undated conversations.
Proof.
  destruct (sort_by_date_undated conversations) as (early & -> & He). split.
  - intros i j c1 c2 Hi Hj H1 H2.
    destruct (decide (i < length early)) as [Hlt|Hge].
    + destruct (decide (j < length early)) as [Hj'|]; [|lia].
      rewrite lookup_app_l in Hj by done. rewrite Forall_forall in He.
      apply list_elem_of_lookup_2, He in Hj. congruence.
    + rewrite lookup_app_r in Hi by lia.
      apply list_elem_of_lookup_2, list_elem_of_filter in Hi as [Hu _].
      unfold undated in Hu. congruence.
  - rewrite filter_app, filter_none.
    + cbn [app]. apply list_filter_filter_r. auto.
    + eapply Forall_impl; [exact He|]. intros c Hc. unfold undated. congruence.
Qed.

End DateOrder.

(** A list that is sorted by the comparator, and in which every date
    parses, has the later of two dated conversations first. *)
Lemma sorted_by_date_order (rt : Runtime) (out : list Conversation) :
  Forall (validDate rt) out ->
  StronglySorted (notGreater (compareByDate rt)) out ->
  LaterFirst rt out.
Proof.
  intros Hv Hs. rewrite Forall_forall in Hv.
  intros i j c1 c2 t1 t2 Hi Hj H1 H2 Hlt.
  destruct (decide (i < j)) as [|Hge]; [done|]. exfalso.
  destruct (decide (i = j)) as [->|Hne]; [rewrite Hi in Hj; simplify_eq; lia|].
  assert (Hji : j < i) by lia.
  pose proof (StronglySorted_lookup_lt _ _ _ _ _ _ Hs Hj Hi Hji) as HR.
  unfold notGreater in HR.
  apply compareByDate_valid in HR; [|by eapply Hv, list_elem_of_lookup_2..].
  unfold notAfter in HR. rewrite H1, H2 in HR. lia.
Qed.

(** C2, as the code has it.  The sorted collection is a rearrangement of
    the input in which every conversation without a date comes after all
    dated ones, and the conversations without a date keep their relative
    order: this much holds whatever the dates are.  Provided every
    conversation that has a date has one that parses, of two dated
    conversations the strictly later one comes first. *)
Theorem sortConversationsByDate_valid_dates (rt : Runtime) (conversations : list Conversation) :
  sortConversationsByDate rt conversations ≡ₚ conversations
  /\ UndatedLast (sortConversationsByDate rt conversations)
  /\ filter undated (sortConversationsByDate rt conversations) = filter undated conversations
  /\ (Forall (validDate rt) conversations ->
      LaterFirst rt (sortConversationsByDate rt conversations)).
Proof.
  split; [apply sortConversationsByDate_perm|].
  destruct (sort_by_date_undated_last rt conversations) as [H1 H2].
  split; [exact H1|]. split; [exact H2|].
  intros Hv. apply sorted_by_date_order; [|by apply sort_by_date_strongly].
  by rewrite sortConversationsByDate_perm.
Qed.

(** C2 fails as stated: a date that does not parse compares equal to every
    other date, and the later of two dated conversations can stay behind
    the earlier one.  Every comparison of neighbours gives 0 here, and the
    array stays as it is (under the sort of the sample runtime as under
    the one of V8). *)
Lemma sortConversationsByDate_unparsed_date :
  sortConversationsByDate sampleRuntime [conv2020; convGarbage; conv2024]
    = [conv2020; convGarbage; conv2024]
  /\ ~ LaterFirst sampleRuntime
         (sortConversationsByDate sampleRuntime [conv2020; convGarbage; conv2024]).
Proof.
  split; [by vm_compute|].
  intros H. specialize (H 2 0 conv2024 conv2020 1704067200000%Z 1577836800000%Z).
  assert (2 < 0); [|lia]. apply H; by vm_compute.
Qed.

(** ** [generateHTML]: the message blocks *)

Section RenderingFacts.

Variable rt : Runtime.

Lemma formatTimestamp_string (s : jstr) :
  s <> [] -> String_ (formatTimestamp rt (JStr s)) = Ok (formatTimestampStr rt s).
Proof.
  intros Hs. destruct s as [|c t]; [done|].
  unfold formatTimestamp, formatTimestampStr. simpl.
  by destruct (getTime rt (c :: t)).
Qed.

Lemma strOr_nonempty (s d : jstr) : d <> [] -> strOr s d <> [].
Proof. by destruct s. Qed.

Lemma countRequests_cons (mf : Message * Fragment) (e : list (Message * Fragment)) :
  countRequests (mf :: e) = (if isRequest mf then 1 else 0) + countRequests e.
Proof.
  unfold countRequests. rewrite filter_cons.
  destruct (decide (isRequest mf = true)) as [->|Hn]; [done|].
  by destruct (isRequest mf).
Qed.

Lemma countRequests_app (e1 e2 : list (Message * Fragment)) :
  countRequests (e1 ++ e2) = countRequests e1 + countRequests e2.
Proof. unfold countRequests. by rewrite filter_app, length_app. Qed.

Lemma blocksFrom_app (n : nat) (e1 e2 : list (Message * Fragment)) :
  blocksFrom rt n (e1 ++ e2)
  = blocksFrom rt n e1 ++ blocksFrom rt (n + countRequests e1) e2.
Proof.
  revert n. induction e1 as [|mf e1 IH]; intros n; simpl.
  - unfold countRequests. simpl. by rewrite Nat.add_0_r.
  - rewrite IH, countRequests_cons. f_equal. f_equal. f_equal.
    destruct (isRequest mf); lia.
Qed.

(** The counter of the loop is the closed form of the specification. *)
Lemma blocksFrom_expected (n : nat) (done_ e : list (Message * Fragment)) :
  n = 1 + countRequests done_ ->
  blocksFrom rt n e
  = imap (fun k => expectedBlock rt (done_ ++ e) (length done_ + k)) e.
Proof.
  revert n done_. induction e as [|mf e IH]; intros n done_ Hn; [done|].
  simpl. f_equal.
  - unfold expectedBlock, headerText. rewrite Nat.add_0_r, take_app_length. by subst n.
  - rewrite (IH _ (done_ ++ [mf])).
    + rewrite <- app_assoc. simpl. apply imap_ext. intros k x _. simpl.
      rewrite length_app. simpl. f_equal. lia.
    + rewrite countRequests_app, countRequests_cons. unfold countRequests at 2. simpl.
      subst n. destruct (isRequest mf); lia.
Qed.

Lemma renderFragment_skip (message : Message) (acc : jstr * nat) (fragment : option Fragment) :
  match fragment with Some f => shown f = false | None => True end ->
  renderFragment rt message acc fragment = Ok acc.
Proof.
  destruct acc as [html n]. destruct fragment as [f|]; [|done].
  unfold shown, renderFragment. by intros ->.
Qed.

Lemma renderFragment_shown (message : Message) (html html' : jstr) (n n' : nat) (f : Fragment) :
  shown f = true ->
  renderFragment rt message (html, n) (Some f) = Ok (html', n') ->
  html' = html ++ messageBlock (isRequest (message, f)) (headerText (isRequest (message, f)) n)
            (formatTimestampStr rt (strOr (textOf (msg_inserted_at message)) (u "unknown")))
            (formatContent (textOf (frag_content f)))
  /\ n' = (if isRequest (message, f) then S n else n).
Proof.
  unfold shown, renderFragment, textOf, isRequest. intros ->. simpl.
  destruct (safeString (msg_inserted_at message)) as [time| |]; [|done..].
  destruct (safeString (frag_content f)) as [content| |]; [|done..].
  simpl. rewrite formatTimestamp_string by (by apply strOr_nonempty).
  simpl. intros [= <- <-]. split; [|done]. by destruct content.
Qed.

Lemma renderFragment_emit (message : Message) (html time content : jstr) (n : nat)
    (f : Fragment) :
  shown f = true ->
  safeString (msg_inserted_at message) = Ok time ->
  safeString (frag_content f) = Ok content ->
  renderFragment rt message (html, n) (Some f)
  = Ok (html ++ messageBlock (isREQUEST (frag_type f)) (headerText (isREQUEST (frag_type f)) n)
                  (formatTimestampStr rt (strOr time (u "unknown"))) (formatContent content),
        if isREQUEST (frag_type f) then S n else n).
Proof.
  unfold shown, renderFragment. intros -> -> ->. cbn [mbind outcome_bind].
  rewrite formatTimestamp_string by (by apply strOr_nonempty).
  cbn [mbind outcome_bind]. by destruct content.
Qed.

Lemma emittedFrom_cons (message : Message) (fr : option Fragment)
    (frs : list (option Fragment)) :
  emittedFrom message (fr :: frs)
  = match fr with
    | Some f => if shown f then (message, f) :: emittedFrom message frs
                else emittedFrom message frs
    | None => emittedFrom message frs
    end.
Proof.
  unfold emittedFrom. destruct fr as [f|]; [|done].
  change (omap id (Some f :: frs)) with (f :: omap id frs).
  rewrite filter_cons. destruct (decide (shown f = true)) as [->|Hn]; [done|].
  by destruct (shown f).
Qed.

Lemma countRequests_nil : countRequests [] = 0.
Proof. done. Qed.

Lemma forOf_fragments (message : Message) (fragments : list (option Fragment))
    (html html' : jstr) (n n' : nat) :
  forOf (renderFragment rt message) fragments (html, n) = Ok (html', n') ->
  html' = html ++ concat (blocksFrom rt n (emittedFrom message fragments))
  /\ n' = n + countRequests (emittedFrom message fragments).
Proof.
  revert html n. induction fragments as [|fr frs IH]; intros html n; cbn [forOf].
  - intros [= <- <-]. change (emittedFrom message []) with (@nil (Message * Fragment)).
    cbn [blocksFrom concat]. by rewrite countRequests_nil, app_nil_r, Nat.add_0_r.
  - rewrite emittedFrom_cons. destruct fr as [f|]; [destruct (shown f) eqn:Hs|].
    + destruct (renderFragment rt message (html, n) (Some f)) as [[h1 n1]| |] eqn:Hr;
        [|by cbn..].
      apply renderFragment_shown in Hr as [-> ->]; [|done].
      intros H. apply IH in H as [-> ->].
      rewrite countRequests_cons. cbn [blocksFrom concat fst snd].
      split; [by rewrite <- !app_assoc|]. destruct (isRequest (message, f)); lia.
    + rewrite (renderFragment_skip message (html, n) (Some f)) by done.
      intros H. by apply IH in H as [-> ->].
    + rewrite (renderFragment_skip message (html, n) None) by done.
      intros H. by apply IH in H as [-> ->].
Qed.

Lemma forOf_messages (messages : list Message) (html html' : jstr) (n n' : nat) :
  forOf (renderMessage rt) messages (html, n) = Ok (html', n') ->
  html' = html ++ concat (blocksFrom rt n (emitted messages))
  /\ n' = n + countRequests (emitted messages).
Proof.
  revert html n. induction messages as [|m ms IH]; intros html n; cbn [forOf].
  - intros [= <- <-]. change (emitted []) with (@nil (Message * Fragment)).
    cbn [blocksFrom concat]. by rewrite countRequests_nil, app_nil_r, Nat.add_0_r.
  - destruct (renderMessage rt (html, n) m) as [[h1 n1]| |] eqn:Hm; [|by cbn..].
    intros H. apply IH in H as [-> ->].
    change (emitted (m :: ms)) with (emittedOf m ++ emitted ms).
    rewrite blocksFrom_app, countRequests_app, concat_app.
    unfold renderMessage in Hm. unfold emittedOf.
    destruct (msg_fragments m) as [frs|].
    + apply forOf_fragments in Hm as [-> ->]. split; [by rewrite <- !app_assoc|lia].
    + injection Hm as <- <-. cbn [blocksFrom concat app].
      rewrite countRequests_nil, Nat.add_0_r. split; [done|lia].
Qed.

End RenderingFacts.

Lemma renderDocument_ok (rt : Runtime) (conversation : Conversation) (fileNumber : jstr)
    (messages : list Message) (html : jstr) :
  renderDocument rt conversation fileNumber messages = Ok html ->
  exists title convId created updated blocks,
    forOf (renderMessage rt) messages
      (documentHead rt title fileNumber convId created updated, 1) = Ok blocks
    /\ html = blocks.1 ++ documentFoot rt (length messages) created.
Proof.
  unfold renderDocument.
  destruct (safeString (conv_title conversation)) as [title| |]; [|by cbn..].
  destruct (safeString (conv_id conversation)) as [convId| |]; [|by cbn..].
  destruct (safeString (conv_inserted_at conversation)) as [created| |]; [|by cbn..].
  destruct (safeString (conv_updated_at conversation)) as [updated| |]; [|by cbn..].
  cbn [mbind outcome_bind].
  rewrite !formatTimestamp_string by (by apply strOr_nonempty).
  cbn [mbind outcome_bind].
  match goal with |- context [forOf _ _ ?acc] => destruct (forOf (renderMessage rt) messages acc)
    as [[blocks n]| |] eqn:Hf end; [|by cbn..].
  cbn [mbind outcome_bind]. intros [= <-].
  by eexists _, _, _, _, (blocks, n).
Qed.

(** The blocks of a document are those of the emitted fragments, in
    order; the [k]-th of them is headed [Request n] when its fragment is
    typed REQUEST and [Response n] otherwise, where [n] is one more than
    the number of REQUEST fragments emitted before it. *)
Lemma renderDocument_blocks (rt : Runtime) (conversation : Conversation)
    (fileNumber : jstr) (messages : list Message) (html : jstr) :
  renderDocument rt conversation fileNumber messages = Ok html ->
  exists title convId created updated,
    html = documentHead rt title fileNumber convId created updated
           ++ concat (imap (expectedBlock rt (emitted messages)) (emitted messages))
           ++ documentFoot rt (length messages) created.
Proof.
  intros H.
  apply renderDocument_ok in H as (title & convId & created & updated & [blocks n] & Hf & ->).
  apply forOf_messages in Hf as [-> _].
  exists title, convId, created, updated. cbn [fst]. rewrite <- app_assoc. do 2 f_equal.
  by rewrite (blocksFrom_expected rt 1 [] (emitted messages)).
Qed.

(** C3 at the input of the specification.  For one message with the
    fragments REQUEST [Hi] and OTHER [Hello] the loops head the first block
    [Request 1] and the second [Response 2]: the counter is advanced as
    soon as the request block is appended, before the response is
    headed.  The same shows in the document [generateHTML] returns. *)
Theorem generateHTML_example_labels (rt : Runtime) (html0 : jstr) :
  forOf (renderMessage rt) [exampleMessage] (html0, 1)
  = Ok (html0
        ++ messageBlock true (u "Request 1") (formatTimestampStr rt (u "unknown")) (u "Hi")
        ++ messageBlock false (u "Response 2") (formatTimestampStr rt (u "unknown")) (u "Hello"),
        2)
  /\ exists html,
       (generateHTML sampleRuntime 2 exampleConversation (u "001") noStats).1 = Ok html
       /\ contains (u "<h2>Request 1</h2>") html = true
       /\ contains (u "<h2>Response 2</h2>") html = true
       /\ contains (u "<h2>Response 1</h2>") html = false.
Proof.
  split.
  - cbn [forOf]. unfold renderMessage, exampleMessage.
    cbn [msg_fragments forOf].
    rewrite (renderFragment_emit rt _ _ [] (u "Hi")) by done.
    cbn [mbind outcome_bind].
    rewrite (renderFragment_emit rt _ _ [] (u "Hello")) by done.
    cbn [mbind outcome_bind frag_type strOr].
    change (isREQUEST (JStr (u "REQUEST"))) with true.
    change (isREQUEST (JStr (u "OTHER"))) with false.
    cbn match.
    change (headerText true 1) with (u "Request 1").
    change (headerText false 2) with (u "Response 2").
    change (formatContent (u "Hi")) with (u "Hi").
    change (formatContent (u "Hello")) with (u "Hello").
    by rewrite <- app_assoc.
  - eexists. split; [by vm_compute|]. by vm_compute.
Qed.

(** C10.  A fragment whose type or content is falsy, and a [null] entry of
    the fragment array, leave the document and the counter as they are,
    also when the fragment is typed REQUEST; dropping such entries from a
    message does not change what the loops produce.  A fragment with truthy
    type and content appends exactly one block, and the counter goes up
    exactly when the fragment is typed REQUEST. *)
Theorem generateHTML_skips_incomplete_fragments (rt : Runtime) (message : Message)
    (html : jstr) (n : nat) :
  (forall fragment,
     match fragment with Some f => shown f = false | None => True end ->
     renderFragment rt message (html, n) fragment = Ok (html, n)
     /\ forall before after,
          forOf (renderFragment rt message) (before ++ fragment :: after) (html, n)
          = forOf (renderFragment rt message) (before ++ after) (html, n))
  /\ renderFragment rt message (html, n)
       (Some {| frag_type := JStr (u "REQUEST"); frag_content := JStr [] |}) = Ok (html, n)
  /\ renderFragment rt message (html, n)
       (Some {| frag_type := JUndefined; frag_content := JStr (u "text") |}) = Ok (html, n)
  /\ (forall f html' n',
        shown f = true ->
        renderFragment rt message (html, n) (Some f) = Ok (html', n') ->
        html' = html ++ messageBlock (isREQUEST (frag_type f))
                          (headerText (isREQUEST (frag_type f)) n)
                          (formatTimestampStr rt
                             (strOr (textOf (msg_inserted_at message)) (u "unknown")))
                          (formatContent (textOf (frag_content f)))
        /\ n' = (if isREQUEST (frag_type f) then S n else n)).
Proof.
  split; [|split; [|split]].
  - intros fragment Hskip. split; [by apply renderFragment_skip|].
    intros before after. generalize (html, n) as acc.
    induction before as [|x before IH]; intros acc; cbn [app forOf].
    + by rewrite renderFragment_skip.
    + destruct (renderFragment rt message acc x) as [acc'| |]; [|done..].
      cbn [mbind outcome_bind]. apply IH.
  - by apply renderFragment_skip.
  - by apply renderFragment_skip.
  - intros f html' n' Hs Hr. by apply renderFragment_shown in Hr.
Qed.

(** ** [processConversation]: the error counter *)

(** C6, as the code has it.  Provided the file system accepts the write
    and, in verbose mode, the progress line can be printed (the title and
    the date convert to strings): a conversation whose mapping is [null]
    gets a document written and the error counter stays as it is, and when
    the document renders it consists of the head and the foot with no
    message block between them and a message count of 0.  When the
    rendering step raises, [generateHTML] returns the error page, which
    carries the message of the exception; that page is written like any
    document and the error counter stays as it is, too. *)
Theorem processConversation_render_errors_not_counted (rt : Runtime) (fuel : nat)
    (conversation : Conversation) (index : nat) (st : State) :
  (verbose rt = true -> verboseLine rt conversation = Ok ()) ->
  (forall data, writeError rt (fileName rt conversation index) data = None) ->
  let fileNumber := padStart3 (toString (index + 1)) in
  (conv_mapping conversation = MapNull ->
     exists html,
       processConversation rt fuel conversation index st
       = Some {| stats := countFile (addMessages 0 (stats st));
                 files := (fileName rt conversation index, html) :: files st |}
       /\ errors (countFile (addMessages 0 (stats st))) = errors (stats st)
       /\ forall document,
            renderDocument rt conversation fileNumber [] = Ok document ->
            html = document
            /\ exists title convId created updated,
                 document = documentHead rt title fileNumber convId created updated
                            ++ documentFoot rt 0 created)
  /\ (forall messages message,
        extractMessages rt fuel (conv_mapping conversation) = Some messages ->
        renderDocument rt conversation fileNumber messages = Throw message ->
        generateHTML rt fuel conversation fileNumber (stats st)
        = (Ok (errorPage message), addMessages (length messages) (stats st))
        /\ errorPage message
           = u "<html><body><h1>Error processing conversation</h1><p>" ++ message
             ++ u "</p></body></html>"
        /\ processConversation rt fuel conversation index st
           = Some {| stats := countFile (addMessages (length messages) (stats st));
                     files := (fileName rt conversation index, errorPage message) :: files st |}
        /\ errors (countFile (addMessages (length messages) (stats st))) = errors (stats st)).
Proof.
  intros Hv Hw fileNumber.
  assert (Hline : (if verbose rt then verboseLine rt conversation else Ok ()) = Ok ())
    by (destruct (verbose rt); [by apply Hv|done]).
  split.
  - intros Hm. unfold processConversation, generateHTML. rewrite Hline, Hm.
    cbn [extractMessages length]. fold fileNumber.
    destruct (renderDocument rt conversation fileNumber []) as [document|message|] eqn:Hr.
    + exists document. rewrite Hw. split; [done|]. split; [done|].
      intros d [= <-]. split; [done|].
      apply renderDocument_blocks in Hr as (title & convId & created & updated & ->).
      by exists title, convId, created, updated.
    + exists (errorPage message). rewrite Hw. by repeat split.
    + exfalso. revert Hr. unfold renderDocument.
      destruct (safeString (conv_title conversation)) as [title| |] eqn:E1; [|by cbn|];
        [|by destruct (conv_title conversation) as [| |[|]|[|]]].
      destruct (safeString (conv_id conversation)) as [convId| |] eqn:E2; [|by cbn|];
        [|by destruct (conv_id conversation) as [| |[|]|[|]]].
      destruct (safeString (conv_inserted_at conversation)) as [created| |] eqn:E3; [|by cbn|];
        [|by destruct (conv_inserted_at conversation) as [| |[|]|[|]]].
      destruct (safeString (conv_updated_at conversation)) as [updated| |] eqn:E4; [|by cbn|];
        [|by destruct (conv_updated_at conversation) as [| |[|]|[|]]].
      cbn [mbind outcome_bind].
      rewrite !formatTimestamp_string by (by apply strOr_nonempty). by cbn.
  - intros messages message He Hr. unfold processConversation, generateHTML.
    rewrite Hline, He. fold fileNumber. rewrite Hr, Hw. by repeat split.
Qed.

(** C6 fails as stated: the TypeError raised while rendering [convBadId]
    ends in the error page, and the error counter is not advanced. *)
Lemma processConversation_render_error_uncounted :
  renderDocument sampleRuntime convBadId (padStart3 (toString (0 + 1))) [] = Throw typeError
  /\ processConversation sampleRuntime 1 convBadId 0 emptyState
     = Some {| stats := {| totalConversations := 0; totalMessages := 0;
                           processedFiles := 1; errors := 0 |};
               files := [(u "nodate-001-Chat.html", errorPage typeError)] |}
  /\ ~ RenderErrorCounted sampleRuntime 1 convBadId 0 emptyState.
Proof.
  split; [by vm_compute|]. split; [by vm_compute|].
  intros H. destruct (H [] typeError) as (st' & Hp & He); [by vm_compute..|].
  vm_compute in Hp. injection Hp as <-. vm_compute in He. lia.
Qed.

(** ** File names *)

(** With a truthy title the three places compute the same name. *)
Lemma fileName_titled (rt : Runtime) (conversation : Conversation) (index : nat) :
  truthy (conv_title conversation) = true ->
  summaryFile rt conversation index = fileName rt conversation index
  /\ indexFile rt conversation index = fileName rt conversation index.
Proof. unfold summaryFile, indexFile, fileName, jsor. by intros ->. Qed.

(** C5 at a conversation without a title, first in the sorted collection:
    [processConversation] writes the document under a name built from the
    padded ordinal, [conversation-001], while [summary.json] and the links
    of [index.html] use the ordinal as it is, [conversation-1]. *)
Theorem untitled_file_names_differ :
  writtenNames (processConversation sampleRuntime 1 untitled 0 emptyState)
    = [u "nodate-001-conversation-001.html"]
  /\ fileName sampleRuntime untitled 0 = u "nodate-001-conversation-001.html"
  /\ summaryFile sampleRuntime untitled 0 = u "nodate-001-conversation-1.html"
  /\ indexFile sampleRuntime untitled 0 = u "nodate-001-conversation-1.html"
  /\ summaryFile sampleRuntime untitled 0 <> fileName sampleRuntime untitled 0.
Proof. repeat split; by vm_compute. Qed.

(** ** The shape of the output of [formatContent] *)

Lemma tagNames_interior (name : jstr) (c : N) :
  name ∈ tagNames -> c ∈ name -> isInterior c = true /\ isAngle c = false.
Proof.
  intros Hn Hc.
  assert (H : Forall (fun nm => forallb (fun x => isInterior x && negb (isAngle x)) nm = true)
                tagNames) by (vm_compute; repeat constructor).
  rewrite Forall_forall in H. specialize (H name Hn).
  rewrite forallb_forall in H. apply list_elem_of_In in Hc. specialize (H c Hc).
  apply andb_true_iff in H as [H1 H2]. by apply negb_true_iff in H2.
Qed.

Lemma FlatMarkup_app (a b : jstr) : FlatMarkup a -> FlatMarkup b -> FlatMarkup (a ++ b).
Proof.
  induction 1 as [|c s Hc _ IH|name s Hn _ IH]; intros Hb.
  - done.
  - rewrite <- app_comm_cons. apply flat_unit; auto.
  - rewrite <- app_assoc. apply flat_tag; auto.
Qed.

Lemma tag_inner_split (name a k : jstr) (c1 c2 : N) :
  name ∈ tagNames -> tag name = (c1 :: a) ++ c2 :: k ->
  (forall c, last (c1 :: a) = Some c -> endsToken c = false) /\ isInterior c2 = true.
Proof.
  intros Hn Ht.
  assert (H : Forall (fun nm => forallb (splitOk (tag nm)) (seq 1 (S (length nm))) = true)
                tagNames) by (vm_compute; repeat constructor).
  rewrite Forall_forall in H. specialize (H name Hn). rewrite forallb_forall in H.
  assert (Hlen : length (tag name) = length (c1 :: a) + S (length k)).
  { rewrite Ht, length_app. done. }
  assert (Hlt : length (tag name) = S (S (length name))).
  { unfold tag. simpl. rewrite length_app. simpl. lia. }
  specialize (H (length (c1 :: a))).
  unfold splitOk in H. rewrite Ht, take_app_length, drop_app_length in H.
  simpl head in H.
  destruct (last (c1 :: a)) as [c|] eqn:El.
  - assert (Hi : In (length (c1 :: a)) (seq 1 (S (length name)))).
    { apply in_seq. simpl in *. lia. }
    apply H in Hi. apply andb_true_iff in Hi as [H1 H2]. apply negb_true_iff in H1.
    split; [|done]. by intros c' [= <-].
  - by apply last_None in El.
Qed.

Lemma FlatMarkup_split (x : jstr) :
  FlatMarkup x -> forall a b, x = a ++ b -> boundary a b -> FlatMarkup a /\ FlatMarkup b.
Proof.
  induction 1 as [|c s Hc Hs IH|name s Hn Hs IH]; intros a b Hx Hb.
  - symmetry in Hx. apply app_eq_nil in Hx as [-> ->]. split; constructor.
  - destruct a as [|c' a'].
    + simpl in Hx. subst b. split; [constructor|by apply flat_unit].
    + simpl in Hx. injection Hx as <- ->.
      assert (Hb' : boundary a' b).
      { destruct a' as [|c2 a'']; [by left|].
        destruct Hb as [Hb|[Hb|[Hb|Hb]]]; [done|by right; left| |by right; right; right].
        right; right; left. by rewrite last_cons_cons in Hb. }
      destruct (IH a' b eq_refl Hb') as [Ha Hb2]. split; [by apply flat_unit|done].
  - symmetry in Hx. apply app_eq_inv in Hx as [(k & -> & ->)|(k & Ht & ->)].
    + assert (Hb' : boundary k b).
      { destruct k as [|c2 k']; [by left|].
        destruct Hb as [Hb|[Hb|[Hb|Hb]]]; [by destruct name|by right; left| |by right; right; right].
        right; right; left. destruct Hb as (c & Hl & Hc). exists c. split; [|done].
        rewrite last_app in Hl.
        destruct (last (c2 :: k')) eqn:E; [done|by apply last_None in E]. }
      destruct (IH k b eq_refl Hb') as [Hk Hb2]. split; [by apply flat_tag|done].
    + destruct k as [|c2 k'].
      * rewrite app_nil_r in Ht. subst a. simpl. split; [|done].
        rewrite <- (app_nil_r (tag name)). apply flat_tag; [done|constructor].
      * destruct a as [|c1 a'].
        { rewrite app_nil_l in Ht. split; [constructor|].
          rewrite <- Ht. by apply flat_tag. }
        exfalso. destruct (tag_inner_split name a' k' c1 c2 Hn Ht) as [H1 H2].
        destruct Hb as [Hb|[Hb|[(c & Hl & Hc)|(c & Hh & Hc)]]]; [done|done| |].
        -- rewrite (H1 c Hl) in Hc. done.
        -- simpl in Hh. injection Hh as <-. congruence.
Qed.

Lemma FlatMarkup_units (s : jstr) : Forall (fun c => isAngle c = false) s -> FlatMarkup s.
Proof. induction 1; [constructor|by apply flat_unit]. Qed.

Lemma FlatMarkup_Markup (s : jstr) : FlatMarkup s -> Markup s.
Proof.
  induction 1; [constructor|by apply markup_unit|by apply markup_tag].
Qed.

Lemma Markup_app (a b : jstr) : Markup a -> Markup b -> Markup (a ++ b).
Proof.
  induction 1 as [|c s Hc _ IH|name s Hn _ IH|url s Hu _ Hs IH]; intros Hb.
  - done.
  - rewrite <- app_comm_cons. apply markup_unit; auto.
  - rewrite <- app_assoc. apply markup_tag; auto.
  - rewrite <- app_assoc. apply markup_anchor; auto.
Qed.

Lemma FlatMarkup_tag (name : jstr) : name ∈ tagNames -> FlatMarkup (tag name).
Proof. intros H. rewrite <- (app_nil_r (tag name)). apply flat_tag; [done|constructor]. Qed.

Lemma strip_prefix_spec (p s r : jstr) : strip_prefix p s = Some r -> s = p ++ r.
Proof.
  revert s. induction p as [|a p IH]; intros s; simpl.
  - by intros [= ->].
  - destruct s as [|b s]; [done|]. destruct (N.eqb_spec a b) as [->|]; [|done].
    intros H. by rewrite (IH s H).
Qed.

Lemma find_sub_spec (p s a b : jstr) : find_sub p s = Some (a, b) -> s = a ++ p ++ b.
Proof.
  revert a. induction s as [|c s IH]; intros a; simpl.
  - destruct (strip_prefix p []) as [r|] eqn:E; [|done].
    intros [= <- <-]. by apply strip_prefix_spec in E.
  - destruct (strip_prefix p (c :: s)) as [r|] eqn:E.
    + intros [= <- <-]. by apply strip_prefix_spec in E.
    + destruct (find_sub p s) as [[a' b']|]; [|done].
      intros [= <- <-]. by rewrite (IH a' eq_refl).
Qed.

Lemma replace_go_drop (m : matcher) (s : jstr) (b : bool) (k : nat) :
  exists b', replace_go m b k s = replace_go m b' 0 (drop k s).
Proof.
  revert b k. induction s as [|c t IH]; intros b k.
  - exists b. by destruct k.
  - destruct k as [|k]; [by exists b|]. apply IH.
Qed.

Lemma FlatMarkup_inv (s : jstr) :
  FlatMarkup s ->
  s = []
  \/ (exists c t, s = c :: t /\ isAngle c = false /\ FlatMarkup t)
  \/ (exists name t, s = tag name ++ t /\ name ∈ tagNames /\ FlatMarkup t).
Proof. destruct 1; eauto 10. Qed.

Section Scan.

Variable Out : jstr -> Prop.
Hypothesis Out_nil : Out [].
Hypothesis Out_unit : forall c s, isAngle c = false -> Out s -> Out (c :: s).
Hypothesis Out_tag : forall name s, name ∈ tagNames -> Out s -> Out (tag name ++ s).
Hypothesis Out_app : forall a b, Out a -> Out b -> Out (a ++ b).

Variable m : matcher.
Hypothesis m_start : forall b c s, isInterior c = true -> m b (c :: s) = None.
Hypothesis m_match : forall b s r n,
  FlatMarkup s -> m b s = Some (r, n) -> Out r /\ FlatMarkup (drop n s) /\ 1 <= n.

Lemma scan_inside (t s : jstr) (b : bool) :
  Forall (fun c => isInterior c = true) t ->
  exists b', replace_go m b 0 (t ++ s) = t ++ replace_go m b' 0 s.
Proof.
  intros Ht. revert b. induction Ht as [|c t Hc _ IH]; intros b.
  - by exists b.
  - cbn [app replace_go]. rewrite (m_start b c (t ++ s) Hc).
    destruct (IH (isLT c)) as [b' ->]. by exists b'.
Qed.

Lemma scan_len (n : nat) (s : jstr) (b : bool) :
  length s <= n -> FlatMarkup s -> Out (replace_go m b 0 s).
Proof.
  revert s b. induction n as [|n IH]; intros s b Hn Hs.
  - destruct s; [apply Out_nil|simpl in Hn; lia].
  - destruct s as [|c t]; [apply Out_nil|]. cbn [replace_go].
    destruct (m b (c :: t)) as [[r k]|] eqn:Em.
    + destruct (m_match _ _ _ _ Hs Em) as (Hr & Hd & Hk).
      destruct (replace_go_drop m t (isLT c) (pred k)) as [b' ->].
      apply Out_app; [done|]. apply IH.
      * rewrite length_drop. simpl in Hn. lia.
      * destruct k as [|k]; [lia|]. done.
    + apply FlatMarkup_inv in Hs
        as [Hs|[(c' & s' & Heq & Hc & Hs')|(name & s' & Heq & Hname & Hs')]]; [done| |].
      * injection Heq as <- <-.
        apply Out_unit; [done|]. apply IH; [simpl in Hn; lia|done].
      * unfold tag in Heq. cbn [app] in Heq. injection Heq as -> ->.
        destruct (scan_inside (name ++ [c_gt]) s' (isLT c_lt)) as [b' Hb'].
        { apply Forall_app. split; [|by repeat constructor].
          apply Forall_forall. intros x Hx. by apply (tagNames_interior name). }
        rewrite Hb'. change (c_lt :: (name ++ [c_gt]) ++ replace_go m b' 0 s')
          with (tag name ++ replace_go m b' 0 s').
        apply Out_tag; [done|]. apply IH; [|done].
        simpl in Hn. rewrite !length_app in Hn. lia.
Qed.

Lemma scan (s : jstr) : FlatMarkup s -> Out (replace_all m s).
Proof. intros Hs. by apply (scan_len (length s)). Qed.

End Scan.

Lemma split_after (a b : jstr) (c : N) :
  FlatMarkup (a ++ b) -> last a = Some c -> endsToken c = true -> FlatMarkup a /\ FlatMarkup b.
Proof.
  intros H Hl Hc. apply (FlatMarkup_split (a ++ b) H a b eq_refl).
  right; right; left. by exists c.
Qed.

Lemma split_before (a b : jstr) :
  FlatMarkup (a ++ b) ->
  match b with [] => True | c :: _ => isInterior c = false end ->
  FlatMarkup a /\ FlatMarkup b.
Proof.
  intros H Hb. apply (FlatMarkup_split (a ++ b) H a b eq_refl).
  destruct b as [|c b']; [by right; left|]. right; right; right. by exists c.
Qed.

Lemma split_span (f : N -> bool) (s : jstr) :
  (forall c, isInterior c = true -> f c = true) ->
  FlatMarkup s -> FlatMarkup (span f s).1 /\ FlatMarkup (span f s).2.
Proof.
  intros Hf Hs. rewrite <- (span_app f s) in Hs. apply split_before; [done|].
  pose proof (span_rest_head f s) as Hh. destruct (span f s).2 as [|c r]; [done|].
  destruct (isInterior c) eqn:E; [|done]. by rewrite (Hf c E) in Hh.
Qed.

Lemma isLT_not_interior (c : N) : isInterior c = true -> negb (isLT c) = true.
Proof.
  intros Hc. destruct (isLT c) eqn:E; [|done]. exfalso.
  unfold isLT, memN in E. simpl in E. rewrite !orb_true_iff in E.
  repeat (destruct E as [E|E]; [apply N.eqb_eq in E; subst c; by vm_compute in Hc|]). done.
Qed.

Lemma notUnit_not_interior (d c : N) :
  isInterior d = false -> isInterior c = true -> negb (c =? d)%N = true.
Proof.
  intros Hd Hc. destruct (N.eqb_spec c d) as [->|]; [congruence|done].
Qed.

Lemma strip_prefix_head (p s r : jstr) (c0 c : N) :
  strip_prefix (c0 :: p) (c :: s) = Some r -> c0 = c.
Proof. simpl. by destruct (N.eqb_spec c0 c). Qed.

Section Delim.

Variables (open close l r : jstr) (d : N).
Hypothesis open_head : match open with [] => False | c :: _ => isInterior c = false end.
Hypothesis open_last : exists c, last open = Some c /\ endsToken c = true.
Hypothesis close_last : exists c, last close = Some c /\ endsToken c = true.
Hypothesis d_plain : isInterior d = false.
Hypothesis l_flat : FlatMarkup l.
Hypothesis r_flat : FlatMarkup r.

Lemma m_delim_start (b : bool) (c : N) (s : jstr) :
  isInterior c = true -> m_delim open d close l r b (c :: s) = None.
Proof.
  intros Hc. unfold m_delim. destruct open as [|c0 p]; [done|].
  destruct (strip_prefix (c0 :: p) (c :: s)) eqn:E; [|done].
  apply strip_prefix_head in E. congruence.
Qed.

Lemma m_delim_match (b : bool) (s r' : jstr) (n : nat) :
  FlatMarkup s -> m_delim open d close l r b s = Some (r', n) ->
  FlatMarkup r' /\ FlatMarkup (drop n s) /\ 1 <= n.
Proof.
  intros Hs. unfold m_delim.
  destruct (strip_prefix open s) as [s1|] eqn:E1; [|done].
  apply strip_prefix_spec in E1.
  pose proof (span_app (fun c => negb (c =? d)%N) s1) as Happ.
  pose proof (span_rest_head (fun c => negb (c =? d)%N) s1) as Hhead.
  destruct (span (fun c => negb (c =? d)%N) s1) as [body s2]. simpl in Happ, Hhead.
  destruct body as [|c0 body]; [done|].
  destruct (strip_prefix close s2) as [s3|] eqn:E3; [|done].
  apply strip_prefix_spec in E3. intros [= <- <-].
  destruct open_last as (co & Hlo & Hco). destruct close_last as (cc & Hlc & Hcc).
  subst s s1 s2.
  destruct (split_after _ _ _ Hs Hlo Hco) as [_ H1].
  assert (Hbody : FlatMarkup (c0 :: body)).
  { apply (split_before _ (close ++ s3)); [done|].
    destruct close as [|x close']; [done|]. simpl in *.
    apply negb_false_iff, N.eqb_eq in Hhead. by subst x. }
  split; [|split].
  - apply FlatMarkup_app; [done|]. by apply (FlatMarkup_app (c0 :: body) r).
  - assert (Heq : open ++ (c0 :: body) ++ close ++ s3
                  = (open ++ (c0 :: body) ++ close) ++ s3) by (by rewrite <- !app_assoc).
    rewrite Heq in Hs |- *.
    replace (length open + S (length body) + length close)
      with (length (open ++ (c0 :: body) ++ close)) by (rewrite !length_app; simpl; lia).
    rewrite drop_app_length.
    apply (split_after _ s3 cc) in Hs as [_ Hs]; [done| |done].
    by rewrite !last_app, Hlc.
  - destruct open; [done|]. simpl. lia.
Qed.

End Delim.

Section Line.

Variables (prefix l r : jstr).
Hypothesis prefix_head : match prefix with [] => False | c :: _ => isInterior c = false end.
Hypothesis prefix_last : exists c, last prefix = Some c /\ endsToken c = true.
Hypothesis l_flat : FlatMarkup l.
Hypothesis r_flat : FlatMarkup r.

Lemma m_line_start (b : bool) (c : N) (s : jstr) :
  isInterior c = true -> m_line prefix l r b (c :: s) = None.
Proof.
  intros Hc. unfold m_line. destruct b; [|done]. destruct prefix as [|c0 p]; [done|].
  destruct (strip_prefix (c0 :: p) (c :: s)) eqn:E; [|done].
  apply strip_prefix_head in E. congruence.
Qed.

Lemma m_line_match (b : bool) (s r' : jstr) (n : nat) :
  FlatMarkup s -> m_line prefix l r b s = Some (r', n) ->
  FlatMarkup r' /\ FlatMarkup (drop n s) /\ 1 <= n.
Proof.
  intros Hs. unfold m_line. destruct b; [|done].
  destruct (strip_prefix prefix s) as [s1|] eqn:E1; [|done].
  apply strip_prefix_spec in E1.
  pose proof (span_app (fun c => negb (isLT c)) s1) as Happ.
  destruct prefix_last as (cp & Hlp & Hcp). subst s.
  destruct (split_after _ _ _ Hs Hlp Hcp) as [_ H1].
  destruct (split_span (fun c => negb (isLT c)) s1 isLT_not_interior H1) as [Hb Hr].
  destruct (span (fun c => negb (isLT c)) s1) as [body s2].
  cbn [fst snd] in Happ, Hb, Hr.
  destruct body as [|c0 body]; [done|]. intros [= <- <-]. subst s1.
  split; [|split].
  - apply FlatMarkup_app; [done|]. by apply (FlatMarkup_app (c0 :: body) r).
  - rewrite app_assoc.
    replace (length prefix + S (length body))
      with (length (prefix ++ c0 :: body)) by (rewrite !length_app; simpl; lia).
    by rewrite drop_app_length.
  - destruct prefix; [done|]. simpl. lia.
Qed.

End Line.

Ltac tag_name := apply (bool_decide_unpack _); by vm_compute.

Lemma find_last_split (p s : jstr) (k : nat) :
  find_last p s = Some k -> exists a b, s = a ++ p ++ b /\ length a = k.
Proof.
  revert k. induction s as [|c s IH]; intros k; simpl; [done|].
  destruct (find_last p s) as [k'|].
  - intros [= <-]. destruct (IH k' eq_refl) as (a & b & -> & <-). by exists (c :: a), b.
  - destruct (strip_prefix p (c :: s)) as [r|] eqn:E; [|done].
    intros [= <-]. exists [], r. by apply strip_prefix_spec in E.
Qed.

Lemma m_fence_start (b : bool) (c : N) (s : jstr) :
  isInterior c = true -> m_fence b (c :: s) = None.
Proof.
  intros Hc. unfold m_fence.
  destruct (strip_prefix (u "```") (c :: s)) eqn:E; [|done].
  apply (strip_prefix_head [96; 96]%N s _ 96%N c) in E. subst c. by vm_compute in Hc.
Qed.

Lemma fence_block_flat (x : jstr) :
  FlatMarkup (u "<pre><code>" ++ escapeHtml x ++ u "</code></pre>").
Proof.
  change (u "<pre><code>") with (tag (u "pre") ++ tag (u "code")).
  change (u "</code></pre>") with (tag (u "/code") ++ tag (u "/pre")).
  rewrite <- !app_assoc. apply flat_tag; [tag_name|]. apply flat_tag; [tag_name|].
  apply FlatMarkup_app.
  - apply FlatMarkup_units, Forall_forall. intros c Hc.
    apply escapeHtml_no_angle in Hc as (H1 & H2 & _).
    unfold isAngle. apply orb_false_iff. by split; apply N.eqb_neq.
  - apply flat_tag; [tag_name|]. by apply FlatMarkup_tag; tag_name.
Qed.

Lemma m_fence_match (b : bool) (s r : jstr) (n : nat) :
  FlatMarkup s -> m_fence b s = Some (r, n) ->
  FlatMarkup r /\ FlatMarkup (drop n s) /\ 1 <= n.
Proof.
  intros Hs. unfold m_fence.
  destruct (strip_prefix (u "```") s) as [s1|] eqn:E1; [|done].
  apply strip_prefix_spec in E1.
  pose proof (span_app isWord s1) as Happ.
  destruct (span isWord s1) as [lang s2]. simpl in Happ.
  destruct (strip_prefix [c_nl] s2) as [s3|] eqn:E3; [|done].
  apply strip_prefix_spec in E3.
  destruct (find_sub (u "```") s3) as [[code s4]|] eqn:E4; [|done].
  apply find_sub_spec in E4. intros [= <- <-]. split; [|split; [|lia]].
  - apply (fence_block_flat (trim code)).
  - subst s s1 s2 s3.
    assert (Heq : u "```" ++ lang ++ [c_nl] ++ code ++ u "```" ++ s4
                  = (u "```" ++ lang ++ [c_nl] ++ code ++ u "```") ++ s4)
      by (by rewrite <- !app_assoc).
    rewrite Heq in Hs |- *.
    rewrite drop_app_length'
      by (rewrite !length_app; change (length (u "```")) with 3; simpl; lia).
    apply (split_after _ s4 96%N) in Hs as [_ Hs]; [done| |done].
    by rewrite !last_app.
Qed.

Lemma li_group_flat (s : jstr) (n : nat) :
  FlatMarkup s -> li_group s = Some n ->
  FlatMarkup (take n s) /\ FlatMarkup (drop n s) /\ 1 <= n.
Proof.
  intros Hs. unfold li_group.
  destruct (strip_prefix (u "<li>") s) as [s1|] eqn:E1; [|done].
  apply strip_prefix_spec in E1.
  pose proof (span_app (fun c => negb (isLT c)) s1) as Happ.
  destruct (span (fun c => negb (isLT c)) s1) as [line rest]. simpl in Happ.
  destruct (find_last (u "</li>") line) as [k|] eqn:E2; [|done].
  apply find_last_split in E2 as (a & b' & -> & <-).
  set (pre := u "<li>" ++ a ++ u "</li>").
  assert (Hsplit : s = pre ++ b' ++ rest).
  { subst s s1 pre. by rewrite <- !app_assoc. }
  assert (Hlen : 4 + length a + 5 = length pre).
  { unfold pre. rewrite !length_app. simpl. lia. }
  assert (Hl : last pre = Some c_gt) by (unfold pre; by rewrite !last_app).
  rewrite Hsplit in Hs |- *. clearbody pre. clear Hsplit.
  rewrite (drop_app_length' pre (b' ++ rest)) by lia.
  destruct (b' ++ rest) as [|c t] eqn:Et.
  - intros [= <-]. rewrite take_app_length', drop_app_length' by lia.
    rewrite app_nil_r in Hs. split; [done|]. split; [constructor|lia].
  - destruct (N.eqb_spec c c_nl) as [->|Hne]; intros [= <-].
    + change (pre ++ c_nl :: t) with (pre ++ [c_nl] ++ t) in Hs |- *.
      rewrite app_assoc in Hs |- *.
      rewrite take_app_length', drop_app_length' by (rewrite length_app; simpl; lia).
      split; [|split; [|lia]]; apply (split_after _ t c_nl) in Hs as [H1 H2];
        try done; by rewrite last_snoc.
    + rewrite take_app_length', drop_app_length' by lia.
      split; [|split; [|lia]]; by apply (split_after _ (c :: t) c_gt) in Hs as [H1 H2].
Qed.

Lemma li_run_flat (fuel : nat) (s : jstr) :
  FlatMarkup s ->
  FlatMarkup (take (li_run fuel s) s) /\ FlatMarkup (drop (li_run fuel s) s).
Proof.
  revert s. induction fuel as [|fuel IH]; intros s Hs; simpl.
  - rewrite drop_0. split; [constructor|done].
  - destruct (li_group s) as [n|] eqn:E.
    + destruct (li_group_flat s n Hs E) as (H1 & H2 & _).
      destruct (IH (drop n s) H2) as [H3 H4].
      rewrite <- take_take_drop, <- drop_drop. split; [by apply FlatMarkup_app|done].
    + rewrite drop_0. split; [constructor|done].
Qed.

Lemma m_ul_start (b : bool) (c : N) (s : jstr) :
  isInterior c = true -> m_ul b (c :: s) = None.
Proof.
  intros Hc. unfold m_ul. cbn [length li_run]. unfold li_group.
  destruct (strip_prefix (u "<li>") (c :: s)) eqn:E; [|done].
  apply (strip_prefix_head (u "li>") s _ c_lt c) in E. subst c. by vm_compute in Hc.
Qed.

Lemma ul_block_flat (x : jstr) : FlatMarkup x -> FlatMarkup (u "<ul>" ++ x ++ u "</ul>").
Proof.
  intros Hx. change (u "<ul>") with (tag (u "ul")). change (u "</ul>") with (tag (u "/ul")).
  apply flat_tag; [tag_name|]. apply FlatMarkup_app; [done|]. apply FlatMarkup_tag. tag_name.
Qed.

Lemma m_ul_match (b : bool) (s r : jstr) (n : nat) :
  FlatMarkup s -> m_ul b s = Some (r, n) ->
  FlatMarkup r /\ FlatMarkup (drop n s) /\ 1 <= n.
Proof.
  intros Hs. unfold m_ul.
  destruct (li_run_flat (length s) s Hs) as [H1 H2].
  destruct (li_run (length s) s) as [|k]; [done|]. intros [= <- <-].
  split; [by apply (ul_block_flat (take (S k) s))|split; [done|lia]].
Qed.

Lemma m_link_start (b : bool) (c : N) (s : jstr) :
  isInterior c = true -> m_link b (c :: s) = None.
Proof.
  intros Hc. unfold m_link.
  destruct (strip_prefix (u "[") (c :: s)) eqn:E; [|done].
  apply (strip_prefix_head [] s _ 91%N c) in E. subst c. by vm_compute in Hc.
Qed.

Lemma anchor_block_markup (url label : jstr) :
  FlatMarkup url -> FlatMarkup label ->
  Markup (u "<a href=" ++ dq ++ url ++ dq ++ u " target=" ++ dq ++ u "_blank" ++ dq
            ++ u ">" ++ label ++ u "</a>").
Proof.
  intros Hu Hl.
  assert (Heq : u "<a href=" ++ dq ++ url ++ dq ++ u " target=" ++ dq
                  ++ u "_blank" ++ dq ++ u ">" ++ label ++ u "</a>"
                = anchorOpen url ++ label ++ tag (u "/a")).
  { unfold anchorOpen. by rewrite <- !app_assoc. }
  rewrite Heq. apply markup_anchor; [by apply FlatMarkup_Markup|].
  apply Markup_app; [by apply FlatMarkup_Markup|].
  apply FlatMarkup_Markup, FlatMarkup_tag. tag_name.
Qed.

Lemma m_link_match (b : bool) (s r : jstr) (n : nat) :
  FlatMarkup s -> m_link b s = Some (r, n) ->
  Markup r /\ FlatMarkup (drop n s) /\ 1 <= n.
Proof.
  intros Hs. unfold m_link.
  destruct (strip_prefix (u "[") s) as [s1|] eqn:E1; [|done].
  apply strip_prefix_spec in E1. subst s.
  apply (split_after _ s1 91%N) in Hs as [_ Hs1]; [|done..].
  pose proof (span_app (fun c => negb (c =? 93)%N) s1) as Happ1.
  destruct (split_span (fun c => negb (c =? 93)%N) s1
              (fun c => notUnit_not_interior 93 c eq_refl) Hs1) as [Hlabel Hs2].
  destruct (span (fun c => negb (c =? 93)%N) s1) as [label s2].
  cbn [fst snd] in Happ1, Hlabel, Hs2.
  destruct label as [|l0 label]; [done|].
  destruct (strip_prefix (u "](") s2) as [s3|] eqn:E3; [|done].
  apply strip_prefix_spec in E3. subst s2.
  apply (split_after _ s3 40%N) in Hs2 as [_ Hs3]; [|done..].
  pose proof (span_app (fun c => negb (c =? 41)%N) s3) as Happ3.
  destruct (split_span (fun c => negb (c =? 41)%N) s3
              (fun c => notUnit_not_interior 41 c eq_refl) Hs3) as [Hurl Hs4].
  destruct (span (fun c => negb (c =? 41)%N) s3) as [url s4].
  cbn [fst snd] in Happ3, Hurl, Hs4.
  destruct url as [|u0 url]; [done|].
  destruct (strip_prefix (u ")") s4) as [s5|] eqn:E5; [|done].
  apply strip_prefix_spec in E5. subst s4.
  apply (split_after _ s5 41%N) in Hs4 as [_ Hs5]; [|done..].
  intros [= <- <-]. split; [|split; [|lia]].
  - by apply (anchor_block_markup (u0 :: url) (l0 :: label)).
  - subst s1 s3.
    assert (Heq : u "[" ++ (l0 :: label) ++ u "](" ++ (u0 :: url) ++ u ")" ++ s5
                  = (u "[" ++ (l0 :: label) ++ u "](" ++ (u0 :: url) ++ u ")") ++ s5)
      by (by rewrite <- !app_assoc).
    rewrite Heq.
    by rewrite drop_app_length'
      by (rewrite !length_app; change (length (u "[")) with 1;
          change (length (u "](")) with 2; change (length (u ")")) with 1; simpl; lia).
Qed.

Lemma br_pass (s : jstr) : replace_all m_br s = s ≫= brUnit.
Proof.
  unfold replace_all. generalize true as b. induction s as [|c t IH]; intros b; [done|].
  change ((c :: t) ≫= brUnit) with (brUnit c ++ (t ≫= brUnit)).
  cbn [replace_go]. unfold m_br at 1, brUnit at 1.
  destruct (c =? c_nl)%N.
  - change (pred 1) with 0. by rewrite IH.
  - by rewrite IH.
Qed.

Lemma brUnit_fixed (t : jstr) : Forall (fun c => c <> c_nl) t -> t ≫= brUnit = t.
Proof.
  induction 1 as [|c t Hc _ IH]; [done|].
  change ((c :: t) ≫= brUnit) with (brUnit c ++ (t ≫= brUnit)). rewrite IH.
  unfold brUnit. by destruct (N.eqb_spec c c_nl).
Qed.

Lemma tag_no_newline (name : jstr) : name ∈ tagNames -> Forall (fun c => c <> c_nl) (tag name).
Proof.
  intros Hn. unfold tag. constructor; [done|]. apply Forall_app. split; [|by repeat constructor].
  apply Forall_forall. intros c Hc. apply (tagNames_interior name c Hn) in Hc as [Hc _].
  intros ->. by vm_compute in Hc.
Qed.

Lemma Markup_br (s : jstr) : Markup s -> Markup (replace_all m_br s).
Proof.
  rewrite br_pass. induction 1 as [|c s Hc _ IH|name s Hn _ IH|url s _ IHu _ IH].
  - constructor.
  - change ((c :: s) ≫= brUnit) with (brUnit c ++ (s ≫= brUnit)).
    unfold brUnit. destruct (c =? c_nl)%N.
    + change (u "<br>") with (tag (u "br")). apply markup_tag; [tag_name|done].
    + by apply markup_unit.
  - rewrite bind_app, (brUnit_fixed (tag name)) by (by apply tag_no_newline).
    by apply markup_tag.
  - assert (Heq : anchorOpen url ≫= brUnit = anchorOpen (url ≫= brUnit)).
    { unfold anchorOpen. rewrite !bind_app.
      rewrite !(brUnit_fixed dq), (brUnit_fixed (u "<a href=")), (brUnit_fixed (u " target=")),
        (brUnit_fixed (u "_blank")), (brUnit_fixed (u ">")); try done;
        vm_compute; repeat constructor; done. }
    rewrite bind_app, Heq. by apply markup_anchor.
Qed.

Lemma escapeHtml_flat (text : jstr) : FlatMarkup (escapeHtml text).
Proof.
  apply FlatMarkup_units, Forall_forall. intros x Hx.
  apply escapeHtml_no_angle in Hx as (H1 & H2 & _).
  unfold isAngle. apply orb_false_iff. by split; apply N.eqb_neq.
Qed.

Lemma substitutionPasses_markup (s : jstr) : FlatMarkup s -> Markup (substitutionPasses s).
Proof.
  intros Hs. unfold substitutionPasses.
  apply Markup_br.
  apply (scan Markup markup_nil markup_unit markup_tag Markup_app m_link
           m_link_start m_link_match).
  apply (scan FlatMarkup flat_nil flat_unit flat_tag FlatMarkup_app m_ul
           m_ul_start m_ul_match).
  assert (Hline : forall prefix l r x,
    match prefix with [] => False | c :: _ => isInterior c = false end ->
    (exists c, last prefix = Some c /\ endsToken c = true) ->
    FlatMarkup l -> FlatMarkup r -> FlatMarkup x ->
    FlatMarkup (replace_all (m_line prefix l r) x)).
  { intros prefix l r x H1 H2 H3 H4.
    apply (scan FlatMarkup flat_nil flat_unit flat_tag FlatMarkup_app).
    - intros b c t. by apply m_line_start.
    - intros b t r' n. by apply m_line_match. }
  assert (Hdelim : forall open d close l r x,
    match open with [] => False | c :: _ => isInterior c = false end ->
    (exists c, last open = Some c /\ endsToken c = true) ->
    (exists c, last close = Some c /\ endsToken c = true) ->
    isInterior d = false ->
    FlatMarkup l -> FlatMarkup r -> FlatMarkup x ->
    FlatMarkup (replace_all (m_delim open d close l r) x)).
  { intros open d close l r x H1 H2 H3 H4 H5 H6.
    apply (scan FlatMarkup flat_nil flat_unit flat_tag FlatMarkup_app).
    - intros b c t. by apply m_delim_start.
    - intros b t r' n. by apply m_delim_match. }
  apply Hline; [done|by eexists|apply (FlatMarkup_tag (u "li")); tag_name
               |apply (FlatMarkup_tag (u "/li")); tag_name|].
  apply Hdelim; [done|by eexists|by eexists|done
                |apply (FlatMarkup_tag (u "em")); tag_name
                |apply (FlatMarkup_tag (u "/em")); tag_name|].
  apply Hdelim; [done|by eexists|by eexists|done
                |apply (FlatMarkup_tag (u "strong")); tag_name
                |apply (FlatMarkup_tag (u "/strong")); tag_name|].
  apply Hline; [done|by eexists|apply (FlatMarkup_tag (u "h2")); tag_name
               |apply (FlatMarkup_tag (u "/h2")); tag_name|].
  apply Hline; [done|by eexists|apply (FlatMarkup_tag (u "h3")); tag_name
               |apply (FlatMarkup_tag (u "/h3")); tag_name|].
  apply Hline; [done|by eexists|apply (FlatMarkup_tag (u "h4")); tag_name
               |apply (FlatMarkup_tag (u "/h4")); tag_name|].
  apply Hdelim; [done|by eexists|by eexists|done
                |apply (FlatMarkup_tag (u "code")); tag_name
                |apply (FlatMarkup_tag (u "/code")); tag_name|].
  by apply (scan FlatMarkup flat_nil flat_unit flat_tag FlatMarkup_app m_fence
              m_fence_start m_fence_match).
Qed.

Lemma formatContent_markup (content : jstr) : Markup (formatContent content).
Proof.
  unfold formatContent. destruct content as [|c t]; [constructor|].
  apply substitutionPasses_markup, escapeHtml_flat.
Qed.

(** ** [formatContent] *)

Example formatContent_heading_list_link :
  formatContent (u "# Title" ++ nl ++ u "- a" ++ nl ++ u "- b" ++ nl ++ u "[x](http://y)")
  = u "<h2>Title</h2><br><ul><li>a</li><br><li>b</li><br></ul><a href=" ++ dq
      ++ u "http://y" ++ dq ++ u " target=" ++ dq ++ u "_blank" ++ dq ++ u ">x</a>".
Proof. vm_compute. reflexivity. Qed.

Example formatContent_fence_escapes_twice :
  formatContent (u "```js" ++ nl ++ u "let a = 1 < 2;" ++ nl ++ u "```")
  = u "<pre><code>let a = 1 &amp;lt; 2;</code></pre>".
Proof. vm_compute. reflexivity. Qed.

Example formatContent_emphasis :
  formatContent (u "a *b* **c** ***d*** `e` ``f``")
  = u "a <em>b</em> <strong>c</strong> <em><strong>d</strong></em> <code>e</code> `<code>f</code>`".
Proof. vm_compute. reflexivity. Qed.


(** ** [extractMessages]: what is visited and what is returned *)

Lemma firstChild_firstOnly (node : Node) :
  firstChild (node_children (firstOnly node)) = firstChild (node_children node).
Proof. destruct node as [msg [[|c l]|]]; reflexivity. Qed.

Lemma resolve_fmap (f : Node -> Node) (mapping : gmap jstr Node) (currentId : option jstr) :
  resolve (f <$> mapping) currentId = f <$> resolve mapping currentId.
Proof.
  destruct currentId as [[|c i]|]; try reflexivity.
  unfold resolve. apply lookup_fmap.
Qed.

Lemma pushThrows_firstOnly (rt : Runtime) (messages : list Message) (node : Node) :
  pushThrows rt messages (firstOnly node) = pushThrows rt messages node.
Proof. reflexivity. Qed.

Lemma extractLoop_firstOnly (rt : Runtime) (fuel : nat) (mapping : gmap jstr Node)
    (currentId : option jstr) (acc : list Message) :
  extractLoop rt fuel (firstOnly <$> mapping) currentId acc
  = extractLoop rt fuel mapping currentId acc.
Proof.
  revert currentId acc. induction fuel as [|fuel IH]; intros currentId acc; [reflexivity|].
  cbn [extractLoop]. rewrite resolve_fmap.
  destruct (resolve mapping currentId) as [node|]; [|reflexivity].
  cbn [fmap option_fmap option_map]. rewrite pushThrows_firstOnly, firstChild_firstOnly.
  destruct (pushThrows rt acc node); [reflexivity|]. apply IH.
Qed.

(** X1.  [extractMessages] looks at no child of a node but the first:
    forgetting the other children of every node of the mapping changes
    nothing, whatever the fuel. *)
Theorem extractMessages_first_children_only (rt : Runtime) (fuel : nat)
    (nodes : gmap jstr Node) :
  extractMessages rt fuel (MapObject (firstOnly <$> nodes))
  = extractMessages rt fuel (MapObject nodes).
Proof.
  cbn [extractMessages]. rewrite extractLoop_firstOnly. f_equal.
  unfold startId. rewrite lookup_fmap.
  destruct (nodes !! u "root") as [root|]; [|reflexivity].
  apply firstChild_firstOnly.
Qed.

Lemma messagesAlong_elem (mapping : gmap jstr Node) (ids : list jstr) (m : Message) :
  m ∈ messagesAlong mapping ids ->
  exists i node, mapping !! i = Some node /\ node_message node = Some m.
Proof.
  unfold messagesAlong. intros H. apply list_elem_of_bind in H as (i & H & _).
  destruct (mapping !! i) as [node|] eqn:E; [|by apply elem_of_nil in H].
  exists i, node. split; [done|].
  destruct (node_message node) as [m'|]; cbn in H.
  - apply list_elem_of_singleton in H. by subst.
  - by apply elem_of_nil in H.
Qed.

Lemma messagesAlong_length (mapping : gmap jstr Node) (ids : list jstr) :
  length (messagesAlong mapping ids) <= length ids.
Proof.
  induction ids as [|i ids IH]; [done|].
  unfold messagesAlong in *. cbn [mbind list_bind length]. rewrite length_app.
  destruct (mapping !! i) as [node|]; [destruct (node_message node)|]; cbn; lia.
Qed.

(** X2.  Every message [extractMessages] returns is the message of a
    node of the mapping; it never returns more messages than an array can
    hold; and when the chain of first children revisits no node id it
    returns at most as many messages as the mapping has nodes. *)
Theorem extractMessages_messages_of_nodes (rt : Runtime) (fuel : nat)
    (nodes : gmap jstr Node) (msgs : list Message) :
  extractMessages rt fuel (MapObject nodes) = Some msgs ->
  (forall m, m ∈ msgs ->
     exists i node, nodes !! i = Some node /\ node_message node = Some m)
  /\ (N.of_nat (length msgs) <= maxArrayLength rt)%N
  /\ (Acyclic nodes -> length msgs <= size nodes).
Proof.
  cbn [extractMessages]. intros H. split; [|split].
  - apply extractLoop_prefix in H as (k & _ & ->). cbn [app].
    intros m. apply messagesAlong_elem.
  - apply (extractLoop_within_limit _ _ _ _ _ _ H). cbn. lia.
  - intros Hac. apply extractLoop_prefix in H as (k & _ & ->). cbn [app].
    pose proof (messagesAlong_length nodes (chainIds k nodes (startId nodes))).
    pose proof (chainIds_bounded _ _ _ (Hac k)). lia.
Qed.

Lemma LoudFrom_step (mapping : gmap jstr Node) (currentId : option jstr) (node : Node) :
  LoudFrom mapping currentId -> resolve mapping currentId = Some node ->
  is_Some (node_message node) /\ LoudFrom mapping (firstChild (node_children node)).
Proof.
  intros Hs E. destruct (resolve_Some _ _ _ E) as (i & -> & Hi). split.
  - apply (Hs 1 i node); [|done]. rewrite (chainIds_step _ _ _ _ E). by left.
  - intros n j node' Hj. apply (Hs (S n) j node').
    rewrite (chainIds_step _ _ _ _ E). by right.
Qed.

Lemma never_ends_step (mapping : gmap jstr Node) (currentId : option jstr) :
  (forall fuel, reachesEnd fuel mapping currentId = false) ->
  exists node,
    resolve mapping currentId = Some node
    /\ forall fuel, reachesEnd fuel mapping (firstChild (node_children node)) = false.
Proof.
  intros H. pose proof (H 1) as H1. cbn [reachesEnd] in H1.
  destruct (resolve mapping currentId) as [node|] eqn:E; [|done].
  exists node. split; [done|]. intros fuel. specialize (H (S fuel)).
  cbn [reachesEnd] in H. by rewrite E in H.
Qed.

(** On an endless chain of nodes with messages the array fills up, and the
    loop is left when [push] throws. *)
Lemma loud_cycle_fills (rt : Runtime) (mapping : gmap jstr Node) (k : nat)
    (currentId : option jstr) (acc : list Message) :
  (forall fuel, reachesEnd fuel mapping currentId = false) ->
  LoudFrom mapping currentId ->
  N.of_nat (length acc + k) = maxArrayLength rt ->
  exists fuel msgs,
    extractLoop rt fuel mapping currentId acc = Some msgs
    /\ N.of_nat (length msgs) = maxArrayLength rt.
Proof.
  revert currentId acc. induction k as [|k IH]; intros cur acc Hn Hl Hk;
    destruct (never_ends_step _ _ Hn) as (node & E & Hn');
    destruct (LoudFrom_step _ _ _ Hl E) as [[m Hm] Hl'].
  - exists 1, acc. cbn [extractLoop]. rewrite E. unfold pushThrows. rewrite Hm.
    rewrite Nat.add_0_r in Hk. rewrite (proj2 (N.leb_le _ _)) by lia. done.
  - destruct (IH (firstChild (node_children node)) (acc ++ [m]) Hn' Hl')
      as (fuel & msgs & Hx & Hlen).
    { rewrite length_app. cbn [length]. rewrite <- Hk. f_equal. lia. }
    exists (S fuel), msgs. split; [|done]. cbn [extractLoop]. rewrite E.
    unfold pushThrows, pushMessage. rewrite Hm.
    rewrite (proj2 (N.leb_gt _ _)) by lia. done.
Qed.

(** X27.  On a mapping whose chain of first children revisits a node id
    and has a message on every node, [extractMessages] does return: the
    array of messages fills up, [push] throws, the [catch] swallows the
    error, and the result holds as many messages as an array can. *)
Theorem extractMessages_fills_array_on_cycle (rt : Runtime) (nodes : gmap jstr Node) :
  ~ Acyclic nodes -> Loud nodes ->
  exists fuel msgs,
    extractMessages rt fuel (MapObject nodes) = Some msgs
    /\ N.of_nat (length msgs) = maxArrayLength rt.
Proof.
  intros Hcyc Hl. cbn [extractMessages].
  apply (loud_cycle_fills rt nodes (N.to_nat (maxArrayLength rt))); [|done|].
  - intros fuel. destruct (reachesEnd fuel nodes (startId nodes)) eqn:E; [|done].
    destruct Hcyc. intros n. by apply (ends_chain_NoDup fuel).
  - cbn [length Nat.add]. apply N2Nat.id.
Qed.

(** ** [escapeHtml] as a function of the text *)

Lemma escapeUnit_plain (c : N) : isSpecial c = false -> escapeUnit c = [c].
Proof.
  unfold isSpecial, memN, escapeUnit, entity. cbn [existsb]. intros H.
  repeat (apply orb_false_elim in H as [? H]).
  by repeat match goal with E : (c =? ?k)%N = false |- _ => rewrite E; clear E end.
Qed.

Lemma escapeUnit_cases (c : N) :
  (isSpecial c = false /\ escapeUnit c = [c])
  \/ (c = c_amp /\ escapeUnit c = u "&amp;")
  \/ (c = c_lt /\ escapeUnit c = u "&lt;")
  \/ (c = c_gt /\ escapeUnit c = u "&gt;")
  \/ (c = c_dq /\ escapeUnit c = u "&quot;")
  \/ (c = c_sq /\ escapeUnit c = u "&#039;").
Proof.
  destruct (isSpecial c) eqn:E.
  - right. unfold isSpecial, memN in E. cbn [existsb] in E.
    repeat (apply orb_true_iff in E as [E|E]); try discriminate;
      apply N.eqb_eq in E; subst c; eauto 10.
  - left. split; [reflexivity|]. by apply escapeUnit_plain.
Qed.

Lemma escapeUnit_head (c : N) :
  exists t, escapeUnit c = (if isSpecial c then c_amp else c) :: t.
Proof.
  destruct (escapeUnit_cases c) as [[E ->]|[[-> ->]|[[-> ->]|[[-> ->]|[[-> ->]|[-> ->]]]]]];
    [rewrite E|..]; eauto.
Qed.

Lemma escapeUnit_inj (c d : N) (s t : jstr) :
  escapeUnit c ++ s = escapeUnit d ++ t -> c = d /\ s = t.
Proof.
  destruct (escapeUnit_cases c) as [[Ec ->]|[[-> ->]|[[-> ->]|[[-> ->]|[[-> ->]|[-> ->]]]]]];
  destruct (escapeUnit_cases d) as [[Ed ->]|[[-> ->]|[[-> ->]|[[-> ->]|[[-> ->]|[-> ->]]]]]];
  intros H; vm_compute in H; try discriminate; try (injection H as -> ->; done);
  try (injection H; intros; subst; done).
Qed.

Lemma escapeHtml_app_unit (c : N) (s : jstr) :
  escapeHtml (c :: s) = escapeUnit c ++ escapeHtml s.
Proof. by rewrite !escapeHtml_units. Qed.

(** X3.  [escapeHtml] loses nothing: two strings have the same escaped
    text only when they are equal. *)
Theorem escapeHtml_injective (a b : jstr) : escapeHtml a = escapeHtml b <-> a = b.
Proof.
  split; [|by intros ->].
  revert b. induction a as [|c a IH]; intros [|d b] H; try reflexivity.
  - rewrite escapeHtml_app_unit in H. destruct (escapeUnit_head d) as [t E].
    rewrite E in H. discriminate.
  - rewrite escapeHtml_app_unit in H. destruct (escapeUnit_head c) as [t E].
    rewrite E in H. discriminate.
  - rewrite !escapeHtml_app_unit in H. apply escapeUnit_inj in H as [-> H].
    f_equal. by apply IH.
Qed.

Lemma escapeUnit_length (c : N) :
  (if isSpecial c then 4 else 1) <= length (escapeUnit c).
Proof.
  destruct (escapeUnit_cases c) as [[E ->]|[[-> ->]|[[-> ->]|[[-> ->]|[[-> ->]|[-> ->]]]]]];
    [rewrite E|..]; vm_compute; lia.
Qed.

Lemma escapeHtml_length (s : jstr) :
  length s + 3 * length (filter (fun c => isSpecial c = true) s) <= length (escapeHtml s).
Proof.
  induction s as [|c s IH]; [reflexivity|].
  rewrite escapeHtml_app_unit, length_app, filter_cons.
  pose proof (escapeUnit_length c) as Hc.
  destruct (decide (isSpecial c = true)) as [E|E].
  - rewrite E in Hc. cbn [length]. lia.
  - apply not_true_is_false in E. rewrite E in Hc. cbn [length]. lia.
Qed.

(** X4.  [escapeHtml] returns its argument unchanged exactly when none
    of the five characters it rewrites occurs in it. *)
Theorem escapeHtml_fixed_iff (s : jstr) :
  escapeHtml s = s <-> Forall (fun c => isSpecial c = false) s.
Proof.
  split.
  - intros H. pose proof (escapeHtml_length s) as Hlen. rewrite H in Hlen.
    assert (Hf : filter (fun c => isSpecial c = true) s = []).
    { apply nil_length_inv. lia. }
    apply Forall_forall. intros c Hc.
    destruct (isSpecial c) eqn:E; [|reflexivity].
    assert (c ∈ filter (fun c => isSpecial c = true) s) as Hin
      by (apply list_elem_of_filter; auto).
    rewrite Hf in Hin. by apply elem_of_nil in Hin.
  - induction 1 as [|c s Hc _ IH]; [reflexivity|].
    rewrite escapeHtml_app_unit, IH, escapeUnit_plain by done. reflexivity.
Qed.

(** ** [formatContent] on text without markers *)

(** X5.  The result of [formatContent] holds no line feed: the last
    pass turns every line feed into a [br] tag, those inside a code block
    included. *)
Theorem formatContent_no_line_feed (content : jstr) : c_nl ∉ formatContent content.
Proof.
  unfold formatContent. destruct content as [|c0 content]; [apply not_elem_of_nil|].
  unfold substitutionPasses. rewrite br_pass.
  intros H. apply list_elem_of_bind in H as (c & H & _).
  unfold brUnit in H. destruct (c =? c_nl)%N eqn:E.
  - vm_compute in H. repeat (apply elem_of_cons in H as [H|H]; [discriminate|]).
    by apply elem_of_nil in H.
  - apply list_elem_of_singleton in H. subst c. by rewrite N.eqb_refl in E.
Qed.

Lemma quiet_pass (m : matcher) :
  (forall b c t, quietFrom b (c :: t) = true -> m b (c :: t) = None) ->
  forall s b, quietFrom b s = true -> replace_go m b 0 s = s.
Proof.
  intros Hm. induction s as [|c t IH]; intros b Hq; [reflexivity|].
  cbn [replace_go]. rewrite (Hm _ _ _ Hq).
  cbn [quietFrom] in Hq. apply andb_true_iff in Hq as [_ Hq].
  by rewrite IH.
Qed.

Lemma strip_prefix_miss (o c : N) (p t : jstr) :
  (o =? c)%N = false -> strip_prefix (o :: p) (c :: t) = None.
Proof. intros H. cbn [strip_prefix]. by rewrite H. Qed.

Lemma quiet_head (b : bool) (c : N) (t : jstr) :
  quietFrom b (c :: t) = true ->
  (96 =? c)%N = false /\ (42 =? c)%N = false /\ (91 =? c)%N = false /\ (60 =? c)%N = false
  /\ (b = true -> (35 =? c)%N = false /\ (45 =? c)%N = false).
Proof.
  cbn [quietFrom]. unfold isMarker, isLineMarker, memN, c_lt. cbn [existsb].
  rewrite !(N.eqb_sym c).
  destruct (96 =? c)%N, (42 =? c)%N, (91 =? c)%N, (60 =? c)%N; try discriminate.
  destruct b; [|intros _; repeat split; discriminate].
  destruct (35 =? c)%N, (45 =? c)%N; try discriminate. by intros _.
Qed.

Lemma quiet_delim (open : jstr) (o d : N) (close l r : jstr) :
  (o = 96 \/ o = 42)%N ->
  forall b c t, quietFrom b (c :: t) = true -> m_delim (o :: open) d close l r b (c :: t) = None.
Proof.
  intros Ho b c t Hq. apply quiet_head in Hq as (H1 & H2 & _).
  unfold m_delim. rewrite strip_prefix_miss; [reflexivity|].
  by destruct Ho as [-> | ->].
Qed.

Lemma quiet_line (prefix : jstr) (o : N) (l r : jstr) :
  (o = 35 \/ o = 45)%N ->
  forall b c t, quietFrom b (c :: t) = true -> m_line (o :: prefix) l r b (c :: t) = None.
Proof.
  intros Ho b c t Hq. apply quiet_head in Hq as (_ & _ & _ & _ & H).
  unfold m_line. destruct b; [|reflexivity].
  destruct (H eq_refl) as [H1 H2].
  rewrite strip_prefix_miss; [reflexivity|]. by destruct Ho as [-> | ->].
Qed.

Lemma quiet_fence (b : bool) (c : N) (t : jstr) :
  quietFrom b (c :: t) = true -> m_fence b (c :: t) = None.
Proof.
  intros Hq. apply quiet_head in Hq as (H1 & _).
  unfold m_fence. change (u "```") with [96; 96; 96]%N.
  by rewrite strip_prefix_miss.
Qed.

Lemma quiet_ul (b : bool) (c : N) (t : jstr) :
  quietFrom b (c :: t) = true -> m_ul b (c :: t) = None.
Proof.
  intros Hq. apply quiet_head in Hq as (_ & _ & _ & H4 & _).
  unfold m_ul. cbn [length li_run]. unfold li_group.
  change (u "<li>") with [60; 108; 105; 62]%N.
  by rewrite strip_prefix_miss.
Qed.

Lemma quiet_link (b : bool) (c : N) (t : jstr) :
  quietFrom b (c :: t) = true -> m_link b (c :: t) = None.
Proof.
  intros Hq. apply quiet_head in Hq as (_ & _ & H3 & _).
  unfold m_link. change (u "[") with [91]%N.
  by rewrite strip_prefix_miss.
Qed.

Lemma quiet_passes (s : jstr) :
  quietFrom true s = true -> substitutionPasses s = s ≫= brUnit.
Proof.
  intros Hq. unfold substitutionPasses, replace_all.
  rewrite (quiet_pass m_fence quiet_fence s true Hq).
  change (u "`") with [96]%N. change (u "**") with [42; 42]%N. change (u "*") with [42]%N.
  change (u "### ") with [35; 35; 35; 32]%N. change (u "## ") with [35; 35; 32]%N.
  change (u "# ") with [35; 32]%N. change (u "- ") with [45; 32]%N.
  rewrite (quiet_pass _ (quiet_delim _ _ _ _ _ _ (or_introl eq_refl)) s true Hq).
  rewrite !(quiet_pass _ (quiet_line _ _ _ _ (or_introl eq_refl)) s true Hq).
  rewrite !(quiet_pass _ (quiet_delim _ _ _ _ _ _ (or_intror eq_refl)) s true Hq).
  rewrite (quiet_pass _ (quiet_line _ _ _ _ (or_intror eq_refl)) s true Hq).
  rewrite (quiet_pass m_ul quiet_ul s true Hq).
  rewrite (quiet_pass m_link quiet_link s true Hq).
  apply br_pass.
Qed.

Lemma plain_quiet (s : jstr) (b : bool) :
  plainFrom b s = true -> quietFrom b (s ≫= escapeUnit) = true.
Proof.
  revert b. induction s as [|c s IH]; intros b H; [reflexivity|].
  cbn [plainFrom] in H. apply andb_true_iff in H as [H Hs].
  apply IH in Hs. cbn [mbind list_bind]. change (list_bind _ _ escapeUnit s) with (s ≫= escapeUnit) in *.
  destruct (escapeUnit_cases c) as [[E ->]|[[-> ->]|[[-> ->]|[[-> ->]|[[-> ->]|[-> ->]]]]]].
  - cbn [app quietFrom]. rewrite Hs, andb_true_r.
    apply andb_true_iff in H as [H1 H2]. rewrite H1, H2. cbn.
    unfold isSpecial, memN in E. cbn [existsb] in E.
    apply orb_false_elim in E as [_ E]. apply orb_false_elim in E as [E _].
    by rewrite E.
  - vm_compute (u _). cbn [app quietFrom]. vm_compute (isLT 38) in Hs. destruct b; cbn; exact Hs.
  - vm_compute (u _). cbn [app quietFrom]. vm_compute (isLT 60) in Hs. destruct b; cbn; exact Hs.
  - vm_compute (u _). cbn [app quietFrom]. vm_compute (isLT 62) in Hs. destruct b; cbn; exact Hs.
  - vm_compute (u _). cbn [app quietFrom]. vm_compute (isLT 34) in Hs. destruct b; cbn; exact Hs.
  - vm_compute (u _). cbn [app quietFrom]. vm_compute (isLT 39) in Hs. destruct b; cbn; exact Hs.
Qed.

(** X6.  On text without backtick, star and opening bracket, in which
    no line starts with a hash or a hyphen, [formatContent] does no more
    than [escapeHtml] followed by the replacement of every line feed by a
    [br] tag. *)
Theorem formatContent_plain (content : jstr) :
  plainFrom true content = true ->
  formatContent content = escapeHtml content ≫= brUnit.
Proof.
  intros H. unfold formatContent. destruct content as [|c content]; [reflexivity|].
  apply quiet_passes. rewrite escapeHtml_units. by apply plain_quiet.
Qed.

(** ** [sanitizeFilename] and the sort, applied again *)

Lemma slugFrom_nonempty (b : bool) (c : N) (t : jstr) :
  isSpace c = false \/ b = false -> slugFrom b (c :: t) <> [].
Proof.
  intros H. cbn [slugFrom]. destruct (isSpace c); [|discriminate].
  destruct H as [H | ->]; [discriminate H | discriminate].
Qed.

Lemma sanitize_nonempty (title : jstr) : sanitize title <> [].
Proof.
  rewrite sanitize_slug. destruct title as [|c t]; [discriminate|].
  unfold slug. pose proof (slugFrom_nonempty false c t (or_intror eq_refl)) as H.
  destruct (slugFrom false (c :: t)); [done|discriminate].
Qed.

(** X7.  [sanitizeFilename] never returns the empty string, whatever
    value it is given. *)
Theorem sanitizeFilename_nonempty (filename : jsval) : sanitizeFilename filename <> [].
Proof.
  destruct filename as [| |s|o]; try discriminate.
  cbn [sanitizeFilename]. apply sanitize_nonempty.
Qed.

Lemma slugFrom_fixed (b : bool) (s : jstr) : Forall plainUnit s -> slugFrom b s = s.
Proof.
  intros H. revert b. induction H as [|c s [Hr Hs] _ IH]; intros b; [reflexivity|].
  cbn [slugFrom]. rewrite Hs, Hr. by rewrite IH.
Qed.

(** X8.  [sanitizeFilename] is idempotent: a name it has produced is
    left as it is. *)
Theorem sanitizeFilename_idempotent (filename : jsval) :
  sanitizeFilename (JStr (sanitizeFilename filename)) = sanitizeFilename filename.
Proof.
  destruct filename as [| |s|o]; try reflexivity.
  destruct (sanitize_plain s) as [Hlen Hplain].
  pose proof (sanitize_nonempty s) as Hne.
  set (r := sanitizeFilename (JStr s)) in *.
  cbn [sanitizeFilename]. rewrite sanitize_slug.
  destruct r as [|c r'] eqn:E; [done|]. rewrite <- E in *.
  unfold slug. rewrite slugFrom_fixed by done. by apply take_ge.
Qed.

Section SortFixed.

Context {A : Type} (comparefn : A -> A -> jsnum).

Lemma insert_sorted_least (x : A) (l : list A) :
  Forall (notGreater comparefn x) l -> insert_sorted comparefn x l = x :: l.
Proof.
  destruct 1 as [|y l Hy _]; [reflexivity|].
  cbn [insert_sorted]. unfold notGreater in Hy.
  by rewrite (proj2 (Z.leb_le _ _) Hy).
Qed.

Lemma stableSort_fixed (l : list A) :
  StronglySorted (notGreater comparefn) l -> stableSort comparefn l = l.
Proof.
  induction 1 as [|x l _ IH Hx]; [reflexivity|].
  cbn [stableSort foldr]. fold (stableSort comparefn l). rewrite IH.
  by apply insert_sorted_least.
Qed.

End SortFixed.


(** X10.  When every date parses, sorting a sorted collection again
    changes nothing. *)
Theorem sortConversationsByDate_idempotent (rt : Runtime) (conversations : list Conversation) :
  Forall (validDate rt) conversations ->
  sortConversationsByDate rt (sortConversationsByDate rt conversations)
  = sortConversationsByDate rt conversations.
Proof.
  intros H.
  assert (H' : Forall (validDate rt) (sortConversationsByDate rt conversations))
    by (by rewrite sortConversationsByDate_perm).
  rewrite (sort_by_date_stable rt _ H'). apply stableSort_fixed.
  by apply sort_by_date_strongly.
Qed.

(** X11.  A collection in which no conversation has a date is left in
    the order of the export. *)
Theorem sortConversationsByDate_undated_unchanged (rt : Runtime)
    (conversations : list Conversation) :
  Forall undated conversations ->
  sortConversationsByDate rt conversations = conversations.
Proof.
  intros H. rewrite sort_by_date_stable.
  - apply stableSort_fixed.
    induction H as [|c l Hc Hl IH]; constructor; [exact IH|].
    eapply Forall_impl; [exact Hl|]. intros d Hd. unfold notGreater.
    by rewrite compareByDate_undated.
  - eapply Forall_impl; [exact H|]. intros c Hc Ht. unfold undated in Hc. congruence.
Qed.

(** ** File numbers and file names *)

Lemma u_String (a : Ascii.ascii) (s : string) :
  u (String a s) = N.of_nat (Ascii.nat_of_ascii a) :: u s.
Proof. reflexivity. Qed.

Lemma foldl_digits (d : Decimal.uint) (acc : nat) :
  foldl (fun a c => 10 * a + (N.to_nat c - 48)) acc (u (NilEmpty.string_of_uint d))
  = Nat.of_uint_acc d acc.
Proof.
  revert acc. induction d; intros acc; [reflexivity|..];
    cbn [NilEmpty.string_of_uint Nat.of_uint_acc]; rewrite u_String; cbn [foldl];
    rewrite IHd; f_equal; rewrite Nat.tail_mul_spec;
    match goal with
    | |- context [N.to_nat ?x - 48] =>
        let v := eval vm_compute in (N.to_nat x - 48) in change (N.to_nat x - 48) with v
    end; lia.
Qed.

Lemma numberOf_toString (n : nat) : numberOf (toString n) = n.
Proof.
  unfold numberOf, toString.
  rewrite <- (DecimalNat.Unsigned.of_to n) at 2. unfold Nat.of_uint.
  destruct (Nat.to_uint n); try apply foldl_digits. reflexivity.
Qed.

Lemma digits_string (d : Decimal.uint) :
  Forall (fun c => isDigit c = true) (u (NilEmpty.string_of_uint d)).
Proof.
  induction d; cbn [NilEmpty.string_of_uint]; [constructor|..];
    rewrite u_String; constructor; auto.
Qed.

Lemma toString_digits (n : nat) : Forall (fun c => isDigit c = true) (toString n).
Proof.
  unfold toString. destruct (Nat.to_uint n); try apply digits_string.
  by repeat constructor.
Qed.

Lemma numberOf_padStart3 (s : jstr) : numberOf (padStart3 s) = numberOf s.
Proof.
  unfold numberOf, padStart3. rewrite foldl_app. f_equal.
  induction (3 - length s) as [|k IH]; [reflexivity|]. exact IH.
Qed.

Lemma padStart3_digits (s : jstr) :
  Forall (fun c => isDigit c = true) s -> Forall (fun c => isDigit c = true) (padStart3 s).
Proof.
  intros H. unfold padStart3. apply Forall_app. split; [|exact H].
  apply Forall_forall. intros c Hc. apply elem_of_replicate in Hc as [-> _]. reflexivity.
Qed.

Lemma fileNumber_index (i j : nat) :
  padStart3 (toString (i + 1)) = padStart3 (toString (j + 1)) -> i = j.
Proof.
  intros H. apply (f_equal numberOf) in H.
  rewrite !numberOf_padStart3, !numberOf_toString in H. lia.
Qed.

Lemma foldl_digits_bound (s : jstr) (acc : nat) :
  Forall (fun c => isDigit c = true) s ->
  foldl (fun a c => 10 * a + (N.to_nat c - 48)) acc s < (acc + 1) * 10 ^ length s.
Proof.
  intros H. revert acc. induction H as [|c s Hc _ IH]; intros acc.
  - cbn. lia.
  - cbn [foldl length]. specialize (IH (10 * acc + (N.to_nat c - 48))).
    unfold isDigit in Hc. apply andb_true_iff in Hc as [_ Hc]. apply N.leb_le in Hc.
    rewrite Nat.pow_succ_r'.
    assert (N.to_nat c - 48 <= 9) by lia.
    eapply Nat.lt_le_trans; [exact IH|]. nia.
Qed.

Lemma toString_long (n : nat) : 100 <= n -> 3 <= length (toString n).
Proof.
  intros Hn. pose proof (foldl_digits_bound _ 0 (toString_digits n)) as H.
  fold (numberOf (toString n)) in H. rewrite numberOf_toString in H.
  destruct (length (toString n)) as [|[|[|k]]]; cbn in H; lia.
Qed.

Lemma padStart3_long (s : jstr) : 3 <= length s -> padStart3 s = s.
Proof. intros H. unfold padStart3. by replace (3 - length s) with 0 by lia. Qed.

Lemma digits_prefix (a b r r' : jstr) :
  Forall (fun c => isDigit c = true) a -> Forall (fun c => isDigit c = true) b ->
  a ++ 45%N :: r = b ++ 45%N :: r' -> a = b /\ r = r'.
Proof.
  intros Ha. revert b. induction Ha as [|c a Hc _ IH]; intros b Hb H.
  - destruct Hb as [|d b Hd _]; [by injection H|].
    injection H as <- _. discriminate.
  - destruct Hb as [|d b Hd Hb]; [injection H as -> _; discriminate|].
    injection H as -> H. apply IH in H as [-> ->]; done.
Qed.

(** The fallback titles of an untitled conversation differ below 100. *)
Lemma fallback_titles_differ (i : nat) :
  i < 99 ->
  sanitizeFilename (JStr (u "conversation-" ++ padStart3 (toString (i + 1))))
  <> sanitizeFilename (JStr (u "conversation-" ++ toString (i + 1))).
Proof.
  intros Hi.
  assert (H : forallb (fun i =>
             negb (bool_decide
               (sanitizeFilename (JStr (u "conversation-" ++ padStart3 (toString (i + 1))))
                = sanitizeFilename (JStr (u "conversation-" ++ toString (i + 1))))))
            (seq 0 99) = true) by (vm_compute; reflexivity).
  rewrite forallb_forall in H. specialize (H i).
  rewrite negb_true_iff, bool_decide_eq_false in H. apply H.
  apply in_seq. lia.
Qed.

(** X12.  The link [generateIndexHTML] writes for a conversation (the
    same as the [file] field of [generateSummary]) names the document
    [processConversation] writes exactly when the conversation has a truthy
    title or its index is 99 or more; below that the padded and the plain
    ordinal give different fallback titles. *)
Theorem fileName_link_agrees (rt : Runtime) (conversation : Conversation) (index : nat) :
  (indexFile rt conversation index = fileName rt conversation index
   <-> truthy (conv_title conversation) = true \/ 99 <= index)
  /\ summaryFile rt conversation index = indexFile rt conversation index.
Proof.
  split; [|reflexivity]. split.
  - intros H. destruct (truthy (conv_title conversation)) eqn:E; [by left|right].
    destruct (decide (99 <= index)) as [|Hlt]; [done|exfalso].
    unfold indexFile, fileName, jsor in H. rewrite E in H. cbn zeta in H.
    do 4 apply app_inv_head in H. apply app_inv_tail in H.
    symmetry in H. revert H. apply fallback_titles_differ. lia.
  - intros [H|H]; [by apply fileName_titled|].
    unfold indexFile, fileName. cbn zeta.
    rewrite (padStart3_long (toString (index + 1))); [reflexivity|].
    apply toString_long. lia.
Qed.

Lemma getDatePrefix_cases (rt : Runtime) (c : Conversation) :
  getDatePrefix rt c = u "nodate" \/ exists t, getDatePrefix rt c = formatDate rt t.
Proof.
  unfold getDatePrefix. cbn zeta.
  destruct (negb _); [by left|].
  destruct (dateTime rt _) as [[|t]| |]; eauto.
Qed.

Lemma isoDay_inv (s : jstr) :
  isoDay s = true ->
  length s = 10 /\ exists c t, s = c :: t /\ c <> 110%N.
Proof.
  unfold isoDay. intros H. apply andb_true_iff in H as [Hl Hd].
  apply Nat.eqb_eq in Hl. split; [exact Hl|].
  destruct s as [|c t]; [discriminate|]. exists c, t. split; [reflexivity|].
  cbn [forallb] in Hd. apply andb_true_iff in Hd as [Hd _]. intros ->. discriminate.
Qed.

Lemma fileName_index (rt : Runtime) (c c' : Conversation) (i j : nat) :
  (forall t, isoDay (formatDate rt t) = true) ->
  fileName rt c i = fileName rt c' j -> i = j.
Proof.
  intros Hrt H. unfold fileName in H. cbn zeta in H.
  change (u "-") with [45%N] in H.
  assert (Hrest : padStart3 (toString (i + 1)) ++ [45%N]
                    ++ sanitizeFilename (jsor (conv_title c)
                         (JStr (u "conversation-" ++ padStart3 (toString (i + 1))))) ++ u ".html"
                  = padStart3 (toString (j + 1)) ++ [45%N]
                    ++ sanitizeFilename (jsor (conv_title c')
                         (JStr (u "conversation-" ++ padStart3 (toString (j + 1))))) ++ u ".html").
  { destruct (getDatePrefix_cases rt c) as [E|[t E]];
      destruct (getDatePrefix_cases rt c') as [E'|[t' E']]; rewrite E, E' in H.
    - do 2 apply app_inv_head in H. exact H.
    - destruct (isoDay_inv _ (Hrt t')) as (_ & d & r & Ed & Hd). rewrite Ed in H.
      change (u "nodate") with [110; 111; 100; 97; 116; 101]%N in H. cbn [app] in H. injection H as Hd' _. congruence.
    - destruct (isoDay_inv _ (Hrt t)) as (_ & d & r & Ed & Hd). rewrite Ed in H.
      change (u "nodate") with [110; 111; 100; 97; 116; 101]%N in H. cbn [app] in H. injection H as Hd' _. congruence.
    - destruct (isoDay_inv _ (Hrt t)) as (Hl & _).
      destruct (isoDay_inv _ (Hrt t')) as (Hl' & _).
      apply app_inj_1 in H as [_ H]; [|congruence]. by injection H. }
  cbn [app] in Hrest. apply digits_prefix in Hrest as [Hn _];
    try (apply padStart3_digits, toString_digits).
  by apply fileNumber_index.
Qed.

(** ** The loop of [formatAll] *)

Lemma bind_no_hang {A B : Type} (x : outcome A) (f : A -> outcome B) :
  x <> Hang -> (forall a, f a <> Hang) -> x ≫= f <> Hang.
Proof. destruct x; cbn; auto. Qed.

Lemma String_no_hang (v : jsval) : String_ v <> Hang.
Proof. by destruct v as [| | |[]]. Qed.

Lemma safeString_no_hang (v : jsval) : safeString v <> Hang.
Proof. by destruct v as [| |[]|[]]. Qed.

Lemma forOf_no_hang {A B : Type} (body : B -> A -> outcome B) (l : list A) (acc : B) :
  (forall acc x, body acc x <> Hang) -> forOf body l acc <> Hang.
Proof.
  intros Hb. revert acc. induction l as [|x l IH]; intros acc; [done|].
  cbn [forOf]. apply bind_no_hang; auto.
Qed.

Create HintDb no_hang.
#[local] Hint Resolve String_no_hang safeString_no_hang : no_hang.

Lemma renderFragment_no_hang (rt : Runtime) (message : Message) (acc : jstr * nat)
    (fragment : option Fragment) :
  renderFragment rt message acc fragment <> Hang.
Proof.
  unfold renderFragment. destruct acc as [html n], fragment as [f|]; [|done].
  destruct (truthy (frag_type f) && truthy (frag_content f)); [|done].
  repeat (apply bind_no_hang; [solve [auto with no_hang]|intros ?]). done.
Qed.

Lemma renderMessage_no_hang (rt : Runtime) (acc : jstr * nat) (message : Message) :
  renderMessage rt acc message <> Hang.
Proof.
  unfold renderMessage. destruct (msg_fragments message); [|done].
  apply forOf_no_hang. intros. apply renderFragment_no_hang.
Qed.

Lemma renderDocument_no_hang (rt : Runtime) (conversation : Conversation)
    (fileNumber : jstr) (messages : list Message) :
  renderDocument rt conversation fileNumber messages <> Hang.
Proof.
  unfold renderDocument.
  repeat (apply bind_no_hang; [solve [auto with no_hang]|intros ?]).
  apply bind_no_hang.
  - apply forOf_no_hang. intros. apply renderMessage_no_hang.
  - by intros [? ?].
Qed.

Lemma verboseLine_no_hang (rt : Runtime) (conversation : Conversation) :
  verboseLine rt conversation <> Hang.
Proof.
  unfold verboseLine. repeat (apply bind_no_hang; [solve [auto with no_hang]|intros ?]). done.
Qed.

(** [generateHTML] hangs with [extractMessages] and returns a document
    otherwise: what its [try] block throws, its [catch] turns into a page. *)
Lemma generateHTML_cases (rt : Runtime) (fuel : nat) (conversation : Conversation)
    (fileNumber : jstr) (st : Stats) :
  match extractMessages rt fuel (conv_mapping conversation) with
  | None => generateHTML rt fuel conversation fileNumber st = (Hang, st)
  | Some messages =>
      exists html,
        generateHTML rt fuel conversation fileNumber st
        = (Ok html, addMessages (length messages) st)
  end.
Proof.
  unfold generateHTML. destruct (extractMessages _ _) as [messages|]; [|reflexivity].
  pose proof (renderDocument_no_hang rt conversation fileNumber messages) as H.
  destruct (renderDocument _ _ _ _); [eauto..|done].
Qed.

Lemma processConversation_quiet (rt : Runtime) (fuel : nat) (conversation : Conversation)
    (index : nat) (st : State) :
  verbose rt = false ->
  match extractMessages rt fuel (conv_mapping conversation) with
  | None => processConversation rt fuel conversation index st = None
  | Some messages =>
      exists html,
        processConversation rt fuel conversation index st
        = Some (match writeError rt (fileName rt conversation index) html with
                | Some _ => {| stats := countError (addMessages (length messages) (stats st));
                               files := files st |}
                | None => {| stats := countFile (addMessages (length messages) (stats st));
                             files := (fileName rt conversation index, html) :: files st |}
                end)
  end.
Proof.
  intros Hv. unfold processConversation. rewrite Hv.
  pose proof (generateHTML_cases rt fuel conversation
                (padStart3 (toString (index + 1))) (stats st)) as H.
  destruct (extractMessages _ _) as [messages|].
  - destruct H as [html ->]. exists html. by destruct (writeError _ _ _).
  - by rewrite H.
Qed.

Lemma processConversation_cases (rt : Runtime) (fuel : nat) (conversation : Conversation)
    (index : nat) (st st' : State) :
  processConversation rt fuel conversation index st = Some st' ->
  totalConversations (stats st') = totalConversations (stats st)
  /\ totalMessages (stats st) <= totalMessages (stats st')
  /\ ((exists html, files st' = (fileName rt conversation index, html) :: files st
                    /\ processedFiles (stats st') = processedFiles (stats st) + 1
                    /\ errors (stats st') = errors (stats st))
      \/ (files st' = files st
          /\ processedFiles (stats st') = processedFiles (stats st)
          /\ errors (stats st') = errors (stats st) + 1)).
Proof.
  unfold processConversation.
  destruct (if verbose rt then _ else _) as [[]|m|]; [|intros [= <-]; cbn; auto with lia|done].
  pose proof (generateHTML_cases rt fuel conversation
                (padStart3 (toString (index + 1))) (stats st)) as H.
  destruct (extractMessages _ _) as [messages|].
  - destruct H as [html ->]. destruct (writeError _ _ _); intros [= <-]; cbn;
      (split; [reflexivity|split; [lia|]]); [right|left]; eauto.
  - by rewrite H.
Qed.

Lemma processConversation_ends (rt : Runtime) (fuel : nat) (conversation : Conversation)
    (index : nat) (st : State) :
  is_Some (extractMessages rt fuel (conv_mapping conversation)) ->
  is_Some (processConversation rt fuel conversation index st).
Proof.
  intros [messages E]. unfold processConversation.
  pose proof (verboseLine_no_hang rt conversation) as Hv.
  destruct (if verbose rt then _ else _) as [[]|m|] eqn:V; [|eauto|].
  - pose proof (generateHTML_cases rt fuel conversation
                  (padStart3 (toString (index + 1))) (stats st)) as H.
    rewrite E in H. destruct H as [html ->]. destruct (writeError _ _ _); eauto.
  - destruct (verbose rt); done.
Qed.

Lemma processAll_invariant (rt : Runtime) (fuel : nat) (l : list Conversation) (i : nat)
    (st st' : State) :
  processAll rt fuel l i st = Some st' ->
  totalConversations (stats st') = totalConversations (stats st)
  /\ totalMessages (stats st) <= totalMessages (stats st')
  /\ processedFiles (stats st') + errors (stats st')
     = processedFiles (stats st) + errors (stats st) + length l
  /\ exists written,
       files st' = written ++ files st
       /\ processedFiles (stats st') = processedFiles (stats st) + length written
       /\ written.*1 `sublist_of` rev (fileNames rt i l).
Proof.
  revert i st. induction l as [|c l IH]; intros i st H.
  - injection H as <-. split; [done|]. split; [lia|]. split; [cbn; lia|].
    exists []. split; [done|]. split; [cbn; lia|]. constructor.
  - cbn [processAll] in H.
    destruct (processConversation rt fuel c i st) as [st1|] eqn:E; [|done].
    apply processConversation_cases in E as (Ht & Hm & Hc).
    apply IH in H as (Ht' & Hm' & Hsum & written & Hf & Hp & Hsub).
    cbn [length fileNames rev].
    split; [congruence|]. split; [lia|].
    destruct Hc as [(html & Hf1 & Hp1 & He1)|(Hf1 & Hp1 & He1)].
    + split; [lia|]. exists (written ++ [(fileName rt c i, html)]).
      rewrite Hf, Hf1, <- app_assoc, length_app, fmap_app. cbn [length fmap list_fmap fst app].
      repeat split; [lia|]. by apply sublist_app.
    + split; [lia|]. exists written. rewrite Hf, Hf1. repeat split; [lia|].
      by apply sublist_inserts_r.
Qed.

(** X14.  The loop of [formatAll] counts every conversation once, as a
    written file or as an error: the two counters together grow by the
    number of conversations, [totalConversations] is not touched, and the
    number of writes is the growth of [processedFiles]. *)
Theorem processAll_accounts_for_all (rt : Runtime) (fuel : nat) (l : list Conversation)
    (i : nat) (st st' : State) :
  processAll rt fuel l i st = Some st' ->
  processedFiles (stats st') + errors (stats st')
  = processedFiles (stats st) + errors (stats st) + length l
  /\ totalConversations (stats st') = totalConversations (stats st)
  /\ length (files st') = length (files st) + (processedFiles (stats st') - processedFiles (stats st)).
Proof.
  intros H. apply processAll_invariant in H as (Ht & _ & Hsum & written & Hf & Hp & _).
  rewrite Hf, length_app. repeat split; [lia|congruence|lia].
Qed.

Lemma fileNames_elem (rt : Runtime) (l : list Conversation) (i : nat) (x : jstr) :
  x ∈ fileNames rt i l -> exists c k, i <= k /\ x = fileName rt c k.
Proof.
  revert i. induction l as [|c l IH]; intros i H; [by apply elem_of_nil in H|].
  cbn [fileNames] in H. apply elem_of_cons in H as [->|H]; [eauto|].
  apply IH in H as (c' & k & Hk & ->). exists c', k. split; [lia|reflexivity].
Qed.

Lemma fileNames_NoDup (rt : Runtime) (l : list Conversation) (i : nat) :
  (forall t, isoDay (formatDate rt t) = true) -> NoDup (fileNames rt i l).
Proof.
  intros Hrt. revert i. induction l as [|c l IH]; intros i; [constructor|].
  cbn [fileNames]. constructor; [|apply IH].
  intros H. apply fileNames_elem in H as (c' & k & Hk & H).
  apply (fileName_index rt _ _ _ _ Hrt) in H. lia.
Qed.

(** X15.  When [format] gives days of ten digits and hyphens, the
    documents the loop of [formatAll] writes all have different names: no
    document overwrites another. *)
Theorem processAll_names_differ (rt : Runtime) (fuel : nat) (l : list Conversation)
    (i : nat) (st st' : State) :
  (forall t, isoDay (formatDate rt t) = true) ->
  processAll rt fuel l i st = Some st' ->
  exists written, files st' = written ++ files st /\ NoDup written.*1.
Proof.
  intros Hrt H. apply processAll_invariant in H as (_ & _ & _ & written & Hf & _ & Hsub).
  exists written. split; [exact Hf|].
  refine (sublist_NoDup _ _ _ Hsub). rewrite <- Permutation_rev. by apply fileNames_NoDup.
Qed.

Lemma processAll_quiet_run (rt : Runtime) (fuel : nat) (l : list Conversation)
    (i : nat) (st st' : State) :
  verbose rt = false ->
  (forall name data, writeError rt name data = None) ->
  processAll rt fuel l i st = Some st' ->
  errors (stats st') = errors (stats st)
  /\ processedFiles (stats st') = processedFiles (stats st) + length l
  /\ (files st').*1 = rev (fileNames rt i l) ++ (files st).*1.
Proof.
  intros Hv Hw. revert i st. induction l as [|c l IH]; intros i st H.
  - injection H as <-. cbn. auto with lia.
  - cbn [processAll] in H.
    pose proof (processConversation_quiet rt fuel c i st Hv) as Hc.
    destruct (extractMessages rt fuel (conv_mapping c)) as [messages|].
    + destruct Hc as [html Hc]. rewrite Hc, Hw in H.
      apply IH in H as (He & Hp & Hf). cbn in He, Hp, Hf.
      cbn [fileNames rev length]. rewrite Hf, <- app_assoc. cbn [app].
      repeat split; [exact He|lia].
    + by rewrite Hc in H.
Qed.

Lemma processAll_message_sum (rt : Runtime) (fuel : nat) (l : list Conversation)
    (i : nat) (st st' : State) :
  verbose rt = false ->
  processAll rt fuel l i st = Some st' ->
  totalMessages (stats st') = totalMessages (stats st) + sum_list (messageCount rt fuel <$> l).
Proof.
  intros Hv. revert i st. induction l as [|c l IH]; intros i st H.
  - injection H as <-. cbn. lia.
  - cbn [processAll] in H.
    pose proof (processConversation_quiet rt fuel c i st Hv) as Hc.
    cbn [fmap list_fmap sum_list]. fold (messageCount rt fuel <$> l). unfold messageCount at 1.
    destruct (extractMessages rt fuel (conv_mapping c)) as [messages|].
    + destruct Hc as [html Hc]. rewrite Hc in H. apply IH in H. rewrite H.
      destruct (writeError _ _ _); cbn; lia.
    + by rewrite Hc in H.
Qed.

Lemma processAll_ends (rt : Runtime) (fuel : nat) (l : list Conversation) (i : nat)
    (st : State) :
  Forall (fun c => is_Some (extractMessages rt fuel (conv_mapping c))) l ->
  is_Some (processAll rt fuel l i st).
Proof.
  intros H. revert i st. induction H as [|c l Hc _ IH]; intros i st; [by eexists|].
  cbn [processAll].
  destruct (processConversation_ends rt fuel c i st Hc) as [st1 ->]. apply IH.
Qed.

Lemma processAll_hangs (rt : Runtime) (fuel : nat) (l : list Conversation) (i : nat)
    (st : State) (c : Conversation) :
  verbose rt = false -> c ∈ l -> extractMessages rt fuel (conv_mapping c) = None ->
  processAll rt fuel l i st = None.
Proof.
  intros Hv Hc E. revert i st. induction l as [|d l IH]; intros i st.
  - by apply elem_of_nil in Hc.
  - cbn [processAll]. apply elem_of_cons in Hc as [<-|Hc].
    + pose proof (processConversation_quiet rt fuel c i st Hv) as H.
      rewrite E in H. by rewrite H.
    + destruct (processConversation _ _ _ _ _); [by apply IH|done].
Qed.

(** ** [generateSummary] and [generateIndexHTML] *)

Lemma safeString_cases (v : jsval) :
  (v = JObj true /\ safeString v = Throw typeError)
  \/ (v <> JObj true /\ exists s, safeString v = Ok s /\ exists s', String_ v = Ok s').
Proof. destruct v as [| |[|c s]|[]]; cbn; eauto 8. Qed.

(** What a successful [summaryEntry] tells. *)
Lemma summaryEntry_ok (rt : Runtime) (fuel : nat) (c : Conversation) (i : nat)
    (e : SummaryEntry) :
  summaryEntry rt fuel c i = Ok e ->
  se_number e = i + 1
  /\ se_file e = summaryFile rt c i
  /\ se_messageCount e = messageCount rt fuel c
  /\ is_Some (extractMessages rt fuel (conv_mapping c))
  /\ conv_id c <> JObj true
  /\ jsor (conv_updated_at c) (conv_inserted_at c) <> JObj true.
Proof.
  unfold summaryEntry, messageCount.
  destruct (safeString_cases (conv_id c)) as [[_ ->]|[Hid (s1 & -> & _)]]; [done|].
  destruct (safeString_cases (conv_title c)) as [[_ ->]|[_ (s2 & -> & _)]]; [done|].
  destruct (safeString_cases (jsor (conv_updated_at c) (conv_inserted_at c)))
    as [[_ ->]|[Hd (s3 & -> & _)]]; [done|].
  destruct (safeString_cases (conv_inserted_at c)) as [[_ ->]|[_ (s4 & -> & _)]]; [done|].
  destruct (safeString_cases (conv_updated_at c)) as [[_ ->]|[_ (s5 & -> & _)]]; [done|].
  cbn. destruct (extractMessages rt fuel (conv_mapping c)) as [messages|]; [|done].
  intros [= <-]. cbn. eauto 10.
Qed.

Lemma summaryEntry_unprintable (rt : Runtime) (fuel : nat) (c : Conversation) (i : nat) :
  unprintable c -> summaryEntry rt fuel c i = Throw typeError.
Proof.
  intros H. unfold summaryEntry.
  destruct (safeString_cases (conv_id c)) as [[_ ->]|[Hid (s1 & -> & _)]]; [done|].
  destruct (safeString_cases (conv_title c)) as [[_ ->]|[Ht (s2 & -> & _)]]; [done|].
  destruct (safeString_cases (jsor (conv_updated_at c) (conv_inserted_at c)))
    as [[_ ->]|[Hd (s3 & -> & _)]]; [done|].
  destruct (safeString_cases (conv_inserted_at c)) as [[_ ->]|[Hi (s4 & -> & _)]]; [done|].
  destruct (safeString_cases (conv_updated_at c)) as [[_ ->]|[Hu (s5 & -> & _)]]; [done|].
  by destruct H as [H|[H|[H|H]]].
Qed.

Lemma summaryEntry_ends (rt : Runtime) (fuel : nat) (c : Conversation) (i : nat) :
  is_Some (extractMessages rt fuel (conv_mapping c)) -> summaryEntry rt fuel c i <> Hang.
Proof.
  intros [messages E]. unfold summaryEntry. rewrite E.
  repeat (apply bind_no_hang; [solve [apply safeString_no_hang]|intros ?]). done.
Qed.

Lemma mapIndexed_throws {A B : Type} (f : A -> nat -> outcome B) (l : list A) (i : nat)
    (x : A) :
  x ∈ l -> (forall k, exists m, f x k = Throw m) ->
  forall ys, mapIndexed f l i <> Ok ys.
Proof.
  intros Hx Hf. revert i. induction l as [|y l IH]; intros i ys.
  - by apply elem_of_nil in Hx.
  - cbn [mapIndexed]. apply elem_of_cons in Hx as [<-|Hx].
    + destruct (Hf i) as [m ->]. done.
    + destruct (f y i); [|done..]. cbn.
      specialize (IH Hx (S i)). destruct (mapIndexed f l (S i)); [|done..].
      by destruct (IH a0).
Qed.

Lemma mapIndexed_ok {A B : Type} (f : A -> nat -> outcome B) (l : list A) (i : nat)
    (ys : list B) :
  mapIndexed f l i = Ok ys ->
  length ys = length l
  /\ forall k x, l !! k = Some x -> exists y, ys !! k = Some y /\ f x (i + k) = Ok y.
Proof.
  revert i ys. induction l as [|x l IH]; intros i ys H.
  - injection H as <-. split; [reflexivity|]. intros k x Hk. by rewrite lookup_nil in Hk.
  - cbn [mapIndexed] in H. destruct (f x i) as [y| |] eqn:E; [|done..]. cbn in H.
    destruct (mapIndexed f l (S i)) as [ys'| |] eqn:E'; [|done..]. cbn in H.
    injection H as <-. apply IH in E' as [Hl Hk]. split; [cbn; lia|].
    intros [|k] x' Hx'.
    + injection Hx' as <-. exists y. by rewrite Nat.add_0_r.
    + cbn in Hx'. apply Hk in Hx' as (y' & Hy & Hf). exists y'. split; [exact Hy|].
      by replace (i + S k) with (S i + k) by lia.
Qed.

Lemma mapIndexed_ends {A B : Type} (f : A -> nat -> outcome B) (l : list A) (i : nat) :
  Forall (fun x => forall k, f x k <> Hang) l -> mapIndexed f l i <> Hang.
Proof.
  intros H. revert i. induction H as [|x l Hx _ IH]; intros i; [done|].
  cbn [mapIndexed]. apply bind_no_hang; [apply Hx|]. intros y.
  apply bind_no_hang; [apply IH|done].
Qed.

Lemma forIndexed_ends {A B : Type} (body : B -> A -> nat -> outcome B) (l : list A) (i : nat)
    (acc : B) :
  Forall (fun x => forall acc k, body acc x k <> Hang) l -> forIndexed body l i acc <> Hang.
Proof.
  intros H. revert i acc. induction H as [|x l Hx _ IH]; intros i acc; [done|].
  cbn [forIndexed]. apply bind_no_hang; [apply Hx|]. intros y. apply IH.
Qed.

Lemma formatTimestamp_printable (rt : Runtime) (v : jsval) :
  v <> JObj true -> exists s, String_ (formatTimestamp rt v) = Ok s.
Proof.
  intros Hv. unfold formatTimestamp. destruct (negb (truthy v)); [by eexists|].
  destruct (dateTime rt v) as [[|t]| |]; try (by eexists);
    destruct v as [| | |[]]; try done; by eexists.
Qed.

Lemma String_printable (v : jsval) : v <> JObj true -> exists s, String_ v = Ok s.
Proof. destruct v as [| | |[]]; try done; by eexists. Qed.

(** When the entry of the summary could be built, so can the row of the
    index. *)
Lemma indexRow_after_summaryEntry (rt : Runtime) (fuel : nat) (c : Conversation) (i : nat)
    (e : SummaryEntry) (html : jstr) :
  summaryEntry rt fuel c i = Ok e -> exists html', indexRow rt fuel html c i = Ok html'.
Proof.
  intros H. apply summaryEntry_ok in H as (_ & _ & _ & [messages E] & Hid & Hd).
  unfold indexRow. rewrite E. cbn zeta.
  destruct (formatTimestamp_printable rt _ Hd) as [s ->].
  destruct (String_printable _ Hid) as [s' ->]. cbn. by eexists.
Qed.

Lemma forIndexed_after_mapIndexed (rt : Runtime) (fuel : nat) (l : list Conversation)
    (i : nat) (es : list SummaryEntry) (html : jstr) :
  mapIndexed (summaryEntry rt fuel) l i = Ok es ->
  exists html', forIndexed (indexRow rt fuel) l i html = Ok html'.
Proof.
  revert i es html. induction l as [|c l IH]; intros i es html H; [by eexists|].
  cbn [mapIndexed] in H. destruct (summaryEntry rt fuel c i) as [e| |] eqn:E; [|done..].
  cbn in H. destruct (mapIndexed _ l (S i)) as [es'| |] eqn:E'; [|done..].
  cbn [forIndexed].
  destruct (indexRow_after_summaryEntry rt fuel c i e html E) as [html1 ->]. cbn.
  eapply IH, E'.
Qed.

(** X16.  One conversation with a field that cannot be converted to a
    string is enough for [generateSummary] to write nothing at all: neither
    [summary.json] nor [index.html]. *)
Theorem generateSummary_needs_every_entry (rt : Runtime) (rp : Reporter) (fuel : nat)
    (l : list Conversation) (st st' : State) (c : Conversation) :
  c ∈ l -> unprintable c ->
  generateSummary rt rp fuel l st = Some st' -> st' = st.
Proof.
  intros Hc Hu. unfold generateSummary.
  pose proof (mapIndexed_throws (summaryEntry rt fuel) l 0 c Hc) as H.
  destruct (mapIndexed _ l 0) as [es| |]; [|by intros [= <-]|done].
  destruct (H (fun k => ex_intro _ typeError (summaryEntry_unprintable rt fuel c k Hu)) es).
  reflexivity.
Qed.

(** X17.  [generateSummary] leaves the statistics alone, and writes
    nothing, or [summary.json], or [summary.json] and then [index.html]:
    never the index without the summary. *)
Theorem generateSummary_files (rt : Runtime) (rp : Reporter) (fuel : nat)
    (l : list Conversation) (st st' : State) :
  generateSummary rt rp fuel l st = Some st' ->
  stats st' = stats st
  /\ (files st' = files st
      \/ (exists data, files st' = (u "summary.json", data) :: files st)
      \/ (exists data html,
            files st' = (u "index.html", html) :: (u "summary.json", data) :: files st)).
Proof.
  unfold generateSummary, generateIndexHTML.
  destruct (mapIndexed _ l 0) as [es| |]; [|intros [= <-]; auto|done].
  cbn zeta. destruct (writeError rt (u "summary.json") _); [intros [= <-]; auto|].
  destruct (forIndexed _ l 0 _) as [html| |]; [|intros [= <-]; cbn; eauto|done].
  destruct (writeError rt (u "index.html") _); intros [= <-]; cbn; eauto 6.
Qed.

(** X18.  When every write succeeds, [generateSummary] writes both
    [summary.json] and [index.html] or neither: once the entries of the
    summary could be built, no row of the index throws. *)
Theorem generateSummary_both_or_none (rt : Runtime) (rp : Reporter) (fuel : nat)
    (l : list Conversation) (st st' : State) :
  (forall name data, writeError rt name data = None) ->
  generateSummary rt rp fuel l st = Some st' ->
  st' = st
  \/ exists data html,
       st' = writeFile (u "index.html") html (writeFile (u "summary.json") data st).
Proof.
  intros Hw. unfold generateSummary, generateIndexHTML.
  destruct (mapIndexed _ l 0) as [es| |] eqn:E; [|intros [= <-]; auto|done].
  cbn zeta. rewrite Hw.
  destruct (forIndexed_after_mapIndexed rt fuel l 0 es (indexHead rp (length l)) E)
    as [html ->].
  rewrite Hw. intros [= <-]. right. eauto.
Qed.

(** X19.  When the entries of the summary can be built there is one
    for each conversation, in order, numbered from 1, with the file name of
    [summaryFile] and the number of messages [extractMessages] finds. *)
Theorem generateSummary_entries (rt : Runtime) (fuel : nat) (l : list Conversation)
    (es : list SummaryEntry) :
  mapIndexed (summaryEntry rt fuel) l 0 = Ok es ->
  length es = length l
  /\ forall k c, l !! k = Some c ->
       exists e, es !! k = Some e
                 /\ se_number e = k + 1
                 /\ se_file e = summaryFile rt c k
                 /\ se_messageCount e = messageCount rt fuel c.
Proof.
  intros H. apply mapIndexed_ok in H as [Hl Hk]. split; [exact Hl|].
  intros k c Hc. apply Hk in Hc as (e & He & Hf). exists e. split; [exact He|].
  apply summaryEntry_ok in Hf as (H1 & H2 & H3 & _). auto.
Qed.

Lemma entries_message_counts (rt : Runtime) (fuel : nat) (l : list Conversation) (i : nat)
    (es : list SummaryEntry) :
  mapIndexed (summaryEntry rt fuel) l i = Ok es ->
  se_messageCount <$> es = messageCount rt fuel <$> l.
Proof.
  revert i es. induction l as [|c l IH]; intros i es H.
  - by injection H as <-.
  - cbn [mapIndexed] in H. destruct (summaryEntry rt fuel c i) as [e| |] eqn:E; [|done..].
    cbn in H. destruct (mapIndexed _ l (S i)) as [es'| |] eqn:E'; [|done..].
    injection H as <-. cbn [fmap list_fmap]. f_equal; [|by eapply IH].
    by apply summaryEntry_ok in E as (_ & _ & ? & _).
Qed.

(** X20.  Outside verbose mode the summary written after the loop is
    consistent: its [totalMessages] is the sum of the [messageCount] of its
    entries, and [processedFiles] and [errors] add up to
    [totalConversations]. *)
Theorem summary_counts_agree (rt : Runtime) (rp : Reporter) (fuel : nat)
    (l : list Conversation) (st : State) (es : list SummaryEntry) :
  verbose rt = false ->
  processAll rt fuel l 0 (setTotal (length l) initialState) = Some st ->
  mapIndexed (summaryEntry rt fuel) l 0 = Ok es ->
  sum_totalMessages (summaryOf rp l st es) = sum_list (se_messageCount <$> es)
  /\ sum_processedFiles (summaryOf rp l st es) + sum_errors (summaryOf rp l st es)
     = sum_totalConversations (summaryOf rp l st es).
Proof.
  intros Hv Hp He. cbn [summaryOf sum_totalMessages sum_processedFiles sum_errors
                        sum_totalConversations].
  rewrite (entries_message_counts rt fuel l 0 es He). split.
  - by rewrite (processAll_message_sum rt fuel l 0 _ st Hv Hp).
  - by apply processAll_invariant in Hp as (_ & _ & -> & _).
Qed.

(** ** [formatAll] *)

Lemma chainEnds_extract (rt : Runtime) (fuel : nat) (c : Conversation) :
  chainEnds fuel c -> is_Some (extractMessages rt fuel (conv_mapping c)).
Proof.
  unfold chainEnds, extractMessages. destruct (conv_mapping c) as [| |nodes]; [by eexists..|].
  intros [Ha Hs]. by apply acyclic_ends.
Qed.

Lemma indexRow_ends (rt : Runtime) (fuel : nat) (c : Conversation) (i : nat) (html : jstr) :
  is_Some (extractMessages rt fuel (conv_mapping c)) -> indexRow rt fuel html c i <> Hang.
Proof.
  intros [messages E]. unfold indexRow. rewrite E. cbn zeta.
  repeat (apply bind_no_hang; [solve [apply String_no_hang]|intros ?]). done.
Qed.

Lemma generateSummary_ends (rt : Runtime) (rp : Reporter) (fuel : nat)
    (l : list Conversation) (st : State) :
  Forall (fun c => is_Some (extractMessages rt fuel (conv_mapping c))) l ->
  is_Some (generateSummary rt rp fuel l st).
Proof.
  intros H. unfold generateSummary, generateIndexHTML.
  assert (H1 : mapIndexed (summaryEntry rt fuel) l 0 <> Hang).
  { apply mapIndexed_ends. eapply Forall_impl; [exact H|].
    intros c Hc k. by apply summaryEntry_ends. }
  destruct (mapIndexed _ l 0) as [es| |]; [|by eexists|done].
  cbn zeta. destruct (writeError rt (u "summary.json") _); [by eexists|].
  assert (H2 : forIndexed (indexRow rt fuel) l 0 (indexHead rp (length l)) <> Hang).
  { apply forIndexed_ends. eapply Forall_impl; [exact H|].
    intros c Hc acc k. by apply indexRow_ends. }
  destruct (forIndexed _ l 0 _) as [html| |]; [|by eexists|done].
  destruct (writeError rt (u "index.html") _); by eexists.
Qed.

Lemma generateSummary_stats (rt : Runtime) (rp : Reporter) (fuel : nat)
    (l : list Conversation) (st st' : State) :
  generateSummary rt rp fuel l st = Some st' -> stats st' = stats st.
Proof.
  unfold generateSummary, generateIndexHTML.
  destruct (mapIndexed _ l 0) as [es| |]; [|by intros [= <-]|done].
  cbn zeta. destruct (writeError rt (u "summary.json") _); [by intros [= <-]|].
  destruct (forIndexed _ l 0 _) as [html| |]; [|by intros [= <-]|done].
  by destruct (writeError rt (u "index.html") _); intros [= <-].
Qed.

(** X21.  [formatAll] ends on every export in which the first-child
    chain of every mapping is free of cycles, given fuel above the size of
    the largest mapping. *)
Theorem formatAll_ends (rt : Runtime) (rp : Reporter) (fuel : nat)
    (conversations : list Conversation) (st : State) :
  Forall (chainEnds fuel) conversations ->
  is_Some (formatAll rt rp fuel (Parsed conversations) st).
Proof.
  intros H. unfold formatAll.
  assert (Hs : Forall (fun c => is_Some (extractMessages rt fuel (conv_mapping c)))
                 (sortConversationsByDate rt conversations)).
  { rewrite sortConversationsByDate_perm.
    eapply Forall_impl; [exact H|]. apply chainEnds_extract. }
  destruct (mkdirError rp); [by eexists|].
  destruct (processAll_ends rt fuel _ 0
              (setTotal (length (sortConversationsByDate rt conversations)) st) Hs)
    as [st1 ->].
  destruct (generateSummary_ends rt rp fuel _ st1 Hs) as [st2 ->]. by eexists.
Qed.


(** X23.  A run of [formatAll] that completes had an array as its
    input, and its statistics account for every conversation:
    [totalConversations] is the length of the array, and [processedFiles]
    and [errors] add up to it. *)
Theorem formatAll_accounts_for_all (rt : Runtime) (rp : Reporter) (fuel : nat)
    (input : Input) (st' : State) :
  formatAll rt rp fuel input initialState = Some (Completed st') ->
  exists conversations,
    input = Parsed conversations
    /\ totalConversations (stats st') = length conversations
    /\ processedFiles (stats st') + errors (stats st') = length conversations.
Proof.
  unfold formatAll. destruct input as [| |conversations]; [done..|].
  destruct (mkdirError rp); [done|].
  destruct (processAll _ _ _ _ _) as [st1|] eqn:E1; [|done].
  destruct (generateSummary _ _ _ _ _) as [st2|] eqn:E2; [|done].
  intros [= <-]. exists conversations. split; [reflexivity|].
  apply generateSummary_stats in E2. rewrite E2.
  apply processAll_invariant in E1 as (Ht & _ & Hsum & _).
  assert (Hl : length (sortConversationsByDate rt conversations) = length conversations)
    by (by rewrite sortConversationsByDate_perm).
  rewrite Hl in *. cbn in Ht, Hsum. split; [exact Ht|lia].
Qed.

(** X24.  Outside verbose mode the [totalMessages] of a completed run
    is the number of messages [extractMessages] finds, summed over the
    conversations of the input. *)
Theorem formatAll_counts_messages (rt : Runtime) (rp : Reporter) (fuel : nat)
    (conversations : list Conversation) (st' : State) :
  verbose rt = false ->
  formatAll rt rp fuel (Parsed conversations) initialState = Some (Completed st') ->
  totalMessages (stats st') = sum_list (messageCount rt fuel <$> conversations).
Proof.
  intros Hv. unfold formatAll.
  destruct (mkdirError rp); [done|].
  destruct (processAll _ _ _ _ _) as [st1|] eqn:E1; [|done].
  destruct (generateSummary _ _ _ _ _) as [st2|] eqn:E2; [|done].
  intros [= <-]. apply generateSummary_stats in E2. rewrite E2.
  apply (processAll_message_sum rt fuel _ 0 _ st1 Hv) in E1. rewrite E1. cbn.
  by rewrite sortConversationsByDate_perm.
Qed.

(** X26.  When [formatAll] leaves through [process.exit(1)] nothing
    has been written and no message, file or error counted; the input was
    unreadable or no array, or the output directory could not be made. *)
Theorem formatAll_exit_writes_nothing (rt : Runtime) (rp : Reporter) (fuel : nat)
    (input : Input) (st st' : State) :
  formatAll rt rp fuel input st = Some (Exit1 st') ->
  files st' = files st
  /\ totalMessages (stats st') = totalMessages (stats st)
  /\ processedFiles (stats st') = processedFiles (stats st)
  /\ errors (stats st') = errors (stats st)
  /\ (input = Unreadable \/ input = NotArray \/ is_Some (mkdirError rp)).
Proof.
  unfold formatAll. destruct input as [| |conversations]; [intros [= <-]; auto 10..|].
  destruct (mkdirError rp) as [m|]; [intros [= <-]; cbn; eauto 10|].
  destruct (processAll _ _ _ _ _) as [st1|]; [|done].
  by destruct (generateSummary _ _ _ _ _).
Qed.

(** X25.  On an array of conversation objects, outside verbose mode and
    with a disk that takes every write, a completed run counts no error
    and one file for each conversation; the documents are written in the
    order [sortConversationsByDate] returns, under the names of
    [fileName], and after them both [summary.json] and [index.html], or
    neither.  When every date parses that order is the stable order by
    date. *)
Theorem formatAll_quiet_run (rt : Runtime) (rp : Reporter) (fuel : nat)
    (conversations : list Conversation) (st' : State) :
  verbose rt = false ->
  (forall name data, writeError rt name data = None) ->
  formatAll rt rp fuel (Parsed conversations) initialState = Some (Completed st') ->
  errors (stats st') = 0
  /\ processedFiles (stats st') = length conversations
  /\ (exists reports,
        (files st').*1
        = reports ++ rev (fileNames rt 0 (sortConversationsByDate rt conversations))
        /\ (reports = [] \/ reports = [u "index.html"; u "summary.json"]))
  /\ (Forall (validDate rt) conversations ->
      sortConversationsByDate rt conversations
      = stableSort (compareByDate rt) conversations).
Proof.
  intros Hv Hw. unfold formatAll.
  destruct (mkdirError rp); [done|].
  destruct (processAll _ _ _ _ _) as [st1|] eqn:E1; [|done].
  destruct (generateSummary _ _ _ _ _) as [st2|] eqn:E2; [|done].
  intros [= <-].
  apply (processAll_quiet_run rt fuel _ 0 _ st1 Hv Hw) in E1 as (He & Hp & Hf).
  cbn in He, Hp, Hf. rewrite app_nil_r in Hf.
  rewrite (generateSummary_stats _ _ _ _ _ _ E2).
  assert (Hl : length (sortConversationsByDate rt conversations) = length conversations)
    by (by rewrite sortConversationsByDate_perm).
  split; [exact He|]. split; [lia|]. split; [|apply sort_by_date_stable].
  revert E2. unfold generateSummary, generateIndexHTML.
  destruct (mapIndexed _ _ 0) as [es| |] eqn:E; [|intros [= <-]; exists []; auto|done].
  cbn zeta. rewrite Hw.
  destruct (forIndexed_after_mapIndexed rt fuel _ 0 es
              (indexHead rp (length (sortConversationsByDate rt conversations))) E)
    as [html ->].
  rewrite Hw. intros [= <-]. exists [u "index.html"; u "summary.json"].
  cbn. rewrite Hf. auto.
Qed.

(** ** The theorems at concrete inputs *)

(** The chain of the example with two concrete messages. *)
Lemma extractMessages_first_child_chain_at_example :
  extractMessages sampleRuntime 3
    (MapObject (chainExample (u "A") (u "B") messageOne messageTwo))
  = Some [messageOne; messageTwo].
Proof.
  apply (proj2 (proj2 (proj2 (extractMessages_first_child_chain sampleRuntime ∅ [])))
           (u "A") (u "B") messageOne messageTwo); by vm_compute.
Defined.

(** A mapping whose root has no children. *)
Lemma extractMessages_malformed_at_root_only :
  resolve rootOnly (startId rootOnly) = None
  /\ extractMessages sampleRuntime 1 (MapObject rootOnly) = Some [].
Proof.
  split; [by vm_compute|].
  apply (proj2 (proj2 (proj2 (extractMessages_malformed sampleRuntime 0))) rootOnly).
  by vm_compute.
Defined.

(** The chain of the example visits [A] and [B] once each. *)
Lemma chainExample_acyclic :
  Acyclic (chainExample (u "A") (u "B") messageOne messageTwo).
Proof.
  intros n. destruct n as [|[|[|n]]]; vm_compute; repeat constructor;
    rewrite ?elem_of_cons, ?elem_of_nil; intuition discriminate.
Defined.

Lemma silentLoop_cyclic : ~ Acyclic silentLoop.
Proof.
  intros H. specialize (H 2). vm_compute in H.
  apply NoDup_cons in H as [H _]. apply H. by left.
Defined.

Lemma silentLoop_silent : Silent silentLoop.
Proof.
  intros n i node _ Hl. unfold silentLoop in Hl.
  apply lookup_insert_Some in Hl as [[_ <-]|[_ Hl]]; [done|].
  by apply lookup_singleton_Some in Hl as [_ <-].
Defined.

(** Termination on the chain of the example, and none on a node without
    a message that is its own first child. *)
Lemma extractMessages_terminates_at_example :
  Acyclic (chainExample (u "A") (u "B") messageOne messageTwo)
  /\ (exists msgs,
        extractMessages sampleRuntime
          (S (size (chainExample (u "A") (u "B") messageOne messageTwo)))
          (MapObject (chainExample (u "A") (u "B") messageOne messageTwo)) = Some msgs)
  /\ ~ Acyclic silentLoop
  /\ Silent silentLoop
  /\ extractMessages sampleRuntime 1000 (MapObject silentLoop) = None.
Proof.
  split; [apply chainExample_acyclic|]. split.
  - apply (proj1 (extractMessages_terminates_when_acyclic sampleRuntime
                    (chainExample (u "A") (u "B") messageOne messageTwo))).
    apply chainExample_acyclic.
  - split; [apply silentLoop_cyclic|]. split; [apply silentLoop_silent|].
    apply (proj2 (extractMessages_terminates_when_acyclic sampleRuntime silentLoop)
             silentLoop_cyclic silentLoop_silent).
Defined.

(** Two dated conversations and one without a date. *)
Lemma sortConversationsByDate_valid_dates_at_example :
  Forall (validDate sampleRuntime) [conv2020; untitled; conv2024]
  /\ LaterFirst sampleRuntime (sortConversationsByDate sampleRuntime [conv2020; untitled; conv2024])
  /\ UndatedLast (sortConversationsByDate sampleRuntime [conv2020; untitled; conv2024]).
Proof.
  assert (Hv : Forall (validDate sampleRuntime) [conv2020; untitled; conv2024]).
  { repeat apply Forall_cons_2; [| |  |apply Forall_nil_2]; intros H.
    - exists 1577836800000%Z. by vm_compute.
    - by vm_compute in H.
    - exists 1704067200000%Z. by vm_compute. }
  split; [exact Hv|].
  destruct (sortConversationsByDate_valid_dates sampleRuntime
              [conv2020; untitled; conv2024]) as (_ & H2 & _ & H1).
  split; [by apply H1|exact H2].
Defined.

(** A conversation with a [null] mapping and no title, in verbose mode,
    and one whose id makes the rendering raise. *)
Lemma processConversation_null_mapping_at_untitled :
  verboseLine verboseRuntime untitled = Ok ()
  /\ (exists html,
        processConversation verboseRuntime 1 untitled 0 emptyState
        = Some {| stats := countFile (addMessages 0 (stats emptyState));
                  files := (fileName verboseRuntime untitled 0, html) :: files emptyState |})
  /\ renderDocument sampleRuntime convBadId (padStart3 (toString (0 + 1))) [] = Throw typeError
  /\ processConversation sampleRuntime 1 convBadId 0 emptyState
     = Some {| stats := countFile (addMessages 0 (stats emptyState));
               files := (fileName sampleRuntime convBadId 0, errorPage typeError)
                          :: files emptyState |}.
Proof.
  assert (Hline : verboseLine verboseRuntime untitled = Ok ()) by (by vm_compute).
  split; [exact Hline|]. split.
  - destruct (processConversation_render_errors_not_counted verboseRuntime 1 untitled 0
                emptyState (fun _ => Hline) (fun _ => eq_refl)) as [Ha _].
    destruct (Ha eq_refl) as (html & Hp & _). by exists html.
  - assert (Hr : renderDocument sampleRuntime convBadId (padStart3 (toString (0 + 1))) []
                 = Throw typeError) by (by vm_compute).
    split; [exact Hr|].
    assert (Hq : verbose sampleRuntime = true -> verboseLine sampleRuntime convBadId = Ok ())
      by (intros H; discriminate H).
    destruct (processConversation_render_errors_not_counted sampleRuntime 1 convBadId 0
                emptyState Hq (fun _ => eq_refl)) as [_ Hb].
    by destruct (Hb [] typeError eq_refl Hr) as (_ & _ & Hp & _).
Defined.

(** A REQUEST fragment whose content is [null], and one with content. *)
Lemma generateHTML_skips_empty_content :
  shown {| frag_type := JStr (u "REQUEST"); frag_content := JNull |} = false
  /\ renderFragment sampleRuntime messageOne (u "<html>", 4)
       (Some {| frag_type := JStr (u "REQUEST"); frag_content := JNull |})
     = Ok (u "<html>", 4)
  /\ renderFragment sampleRuntime messageOne (u "<html>", 4)
       (Some {| frag_type := JStr (u "REQUEST"); frag_content := JStr (u "Hi") |})
     = Ok (u "<html>"
             ++ messageBlock true (u "Request 4") (u "2024-01-01 00:00:00") (u "Hi"), 5)
  /\ u "<html>" ++ messageBlock true (u "Request 4") (u "2024-01-01 00:00:00") (u "Hi")
     = u "<html>"
         ++ messageBlock (isREQUEST (JStr (u "REQUEST")))
              (headerText (isREQUEST (JStr (u "REQUEST"))) 4)
              (formatTimestampStr sampleRuntime
                 (strOr (textOf (msg_inserted_at messageOne)) (u "unknown")))
              (formatContent (textOf (JStr (u "Hi")))).
Proof.
  split; [done|]. split.
  - apply (proj1 (generateHTML_skips_incomplete_fragments sampleRuntime messageOne
                    (u "<html>") 4)
             (Some {| frag_type := JStr (u "REQUEST"); frag_content := JNull |})).
    done.
  - assert (Hr : renderFragment sampleRuntime messageOne (u "<html>", 4)
                   (Some {| frag_type := JStr (u "REQUEST"); frag_content := JStr (u "Hi") |})
                 = Ok (u "<html>"
                         ++ messageBlock true (u "Request 4") (u "2024-01-01 00:00:00") (u "Hi"),
                       5)) by (by vm_compute).
    split; [exact Hr|].
    by destruct (proj2 (proj2 (proj2 (generateHTML_skips_incomplete_fragments sampleRuntime
                   messageOne (u "<html>") 4)))
                 {| frag_type := JStr (u "REQUEST"); frag_content := JStr (u "Hi") |}
                 _ _ eq_refl Hr) as [H _].
Defined.


(** ** The properties of escaping, naming and the whole run at concrete inputs *)

Lemma sampleRuntime_isoDay (t : Z) : isoDay (formatDate sampleRuntime t) = true.
Proof.
  cbn [formatDate sampleRuntime].
  destruct (t =? 1577836800000)%Z; [reflexivity|].
  destruct (t =? 1704067200000)%Z; reflexivity.
Defined.

Lemma sampleExport_valid_dates : Forall (validDate sampleRuntime) sampleExport.
Proof.
  repeat apply Forall_cons_2; [| | | |apply Forall_nil_2]; intros H.
  - exists 1577836800000%Z. by vm_compute.
  - by vm_compute in H.
  - by vm_compute in H.
  - exists 1704067200000%Z. by vm_compute.
Defined.

Lemma sampleExport_chains_end : Forall (chainEnds 4) sampleExport.
Proof.
  repeat apply Forall_cons_2; [exact I| |exact I|exact I|apply Forall_nil_2].
  split; [apply chainExample_acyclic|]. vm_compute. lia.
Defined.

(** The chain of the example: two messages out of three nodes. *)
Lemma extractMessages_messages_of_nodes_at_example :
  (forall m, m ∈ [messageOne; messageTwo] ->
     exists i node,
       chainExample (u "A") (u "B") messageOne messageTwo !! i = Some node
       /\ node_message node = Some m)
  /\ (N.of_nat (length [messageOne; messageTwo]) <= maxArrayLength sampleRuntime)%N
  /\ (Acyclic (chainExample (u "A") (u "B") messageOne messageTwo) ->
      length [messageOne; messageTwo]
      <= size (chainExample (u "A") (u "B") messageOne messageTwo)).
Proof.
  apply (extractMessages_messages_of_nodes sampleRuntime 3
           (chainExample (u "A") (u "B") messageOne messageTwo) [messageOne; messageTwo]).
  by vm_compute.
Defined.

Lemma selfLoop_cyclic : ~ Acyclic selfLoop.
Proof.
  intros H. specialize (H 2). vm_compute in H.
  apply NoDup_cons in H as [H _]. apply H. by left.
Defined.

Lemma selfLoop_loud : Loud selfLoop.
Proof.
  assert (Ha : resolve selfLoop (Some (u "a"))
               = Some {| node_message := Some messageOne; node_children := Some [u "a"] |})
    by (by vm_compute).
  assert (Hi : forall n i, i ∈ chainIds n selfLoop (Some (u "a")) -> i = u "a").
  { induction n as [|n IH]; intros i Hi; [by apply elem_of_nil in Hi|].
    rewrite (chainIds_step _ _ _ _ Ha) in Hi. cbn [node_children firstChild] in Hi.
    apply elem_of_cons in Hi as [->|Hi]; [done|by apply IH]. }
  intros n i node Hn Hl. change (startId selfLoop) with (Some (u "a")) in Hn.
  apply Hi in Hn. subst i. change (resolve selfLoop (Some (u "a")) = Some node) in Hl.
  rewrite Ha in Hl. injection Hl as <-. by eexists.
Defined.

(** A node with a message that is its own first child. *)
Lemma extractMessages_fills_array_on_cycle_at_example :
  exists fuel msgs,
    extractMessages sampleRuntime fuel (MapObject selfLoop) = Some msgs
    /\ N.of_nat (length msgs) = maxArrayLength sampleRuntime.
Proof.
  apply (extractMessages_fills_array_on_cycle sampleRuntime selfLoop).
  - apply selfLoop_cyclic.
  - apply selfLoop_loud.
Defined.

(** Two lines with a comparison and an ampersand, and a hyphen inside a
    line. *)
Lemma formatContent_plain_at_example :
  plainFrom true (u "1 < 2 & 3" ++ nl ++ u "x - y") = true
  /\ formatContent (u "1 < 2 & 3" ++ nl ++ u "x - y")
     = u "1 &lt; 2 &amp; 3<br>x - y".
Proof.
  split; [by vm_compute|].
  rewrite (formatContent_plain (u "1 < 2 & 3" ++ nl ++ u "x - y")); by vm_compute.
Defined.

(** The export of four conversations, two of them dated. *)
Lemma sortConversationsByDate_idempotent_at_example :
  sortConversationsByDate sampleRuntime (sortConversationsByDate sampleRuntime sampleExport)
  = sortConversationsByDate sampleRuntime sampleExport.
Proof.
  apply (sortConversationsByDate_idempotent sampleRuntime sampleExport).
  apply sampleExport_valid_dates.
Defined.

(** Three conversations without a date. *)
Lemma sortConversationsByDate_undated_unchanged_at_example :
  sortConversationsByDate sampleRuntime [untitled; convBadId; chainConversation]
  = [untitled; convBadId; chainConversation].
Proof.
  apply (sortConversationsByDate_undated_unchanged sampleRuntime
           [untitled; convBadId; chainConversation]).
  by repeat apply Forall_cons_2; [..|apply Forall_nil_2]; vm_compute.
Defined.

(** The loop over the export of four conversations. *)
Lemma processAll_accounts_for_all_at_example :
  exists st',
    processAll sampleRuntime 4 sampleExport 0 emptyState = Some st'
    /\ processedFiles (stats st') + errors (stats st')
       = processedFiles (stats emptyState) + errors (stats emptyState) + length sampleExport
    /\ totalConversations (stats st') = totalConversations (stats emptyState)
    /\ length (files st')
       = length (files emptyState)
         + (processedFiles (stats st') - processedFiles (stats emptyState)).
Proof.
  destruct (processAll sampleRuntime 4 sampleExport 0 emptyState) as [st'|] eqn:E;
    [|by vm_compute in E].
  exists st'. split; [reflexivity|].
  exact (processAll_accounts_for_all sampleRuntime 4 sampleExport 0 emptyState st' E).
Defined.

Lemma processAll_names_differ_at_example :
  exists st',
    processAll sampleRuntime 4 sampleExport 0 emptyState = Some st'
    /\ exists written, files st' = written ++ files emptyState /\ NoDup written.*1.
Proof.
  destruct (processAll sampleRuntime 4 sampleExport 0 emptyState) as [st'|] eqn:E;
    [|by vm_compute in E].
  exists st'. split; [reflexivity|].
  exact (processAll_names_differ sampleRuntime 4 sampleExport 0 emptyState st'
           sampleRuntime_isoDay E).
Defined.

(** A conversation whose id cannot be converted, behind one that is fine. *)
Lemma generateSummary_needs_every_entry_at_example :
  exists st',
    generateSummary sampleRuntime sampleReporter 1 [untitled; convBadId] emptyState = Some st'
    /\ st' = emptyState.
Proof.
  destruct (generateSummary sampleRuntime sampleReporter 1 [untitled; convBadId] emptyState)
    as [st'|] eqn:E; [|by vm_compute in E].
  exists st'. split; [reflexivity|].
  apply (generateSummary_needs_every_entry sampleRuntime sampleReporter 1
           [untitled; convBadId] emptyState st' convBadId).
  - apply elem_of_cons. right. apply elem_of_cons. by left.
  - by left.
  - exact E.
Defined.

Lemma generateSummary_files_at_example :
  exists st',
    generateSummary sampleRuntime sampleReporter 4 sampleExport emptyState = Some st'
    /\ stats st' = stats emptyState
    /\ (files st' = files emptyState
        \/ (exists data, files st' = (u "summary.json", data) :: files emptyState)
        \/ (exists data html,
              files st'
              = (u "index.html", html) :: (u "summary.json", data) :: files emptyState)).
Proof.
  destruct (generateSummary sampleRuntime sampleReporter 4 sampleExport emptyState)
    as [st'|] eqn:E; [|by vm_compute in E].
  exists st'. split; [reflexivity|].
  exact (generateSummary_files sampleRuntime sampleReporter 4 sampleExport emptyState st' E).
Defined.

Lemma generateSummary_both_or_none_at_example :
  exists st',
    generateSummary sampleRuntime sampleReporter 4 sampleExport emptyState = Some st'
    /\ (st' = emptyState
        \/ exists data html,
             st' = writeFile (u "index.html") html
                     (writeFile (u "summary.json") data emptyState)).
Proof.
  destruct (generateSummary sampleRuntime sampleReporter 4 sampleExport emptyState)
    as [st'|] eqn:E; [|by vm_compute in E].
  exists st'. split; [reflexivity|].
  exact (generateSummary_both_or_none sampleRuntime sampleReporter 4 sampleExport
           emptyState st' (fun _ _ => eq_refl) E).
Defined.

Lemma generateSummary_entries_at_example :
  exists es,
    mapIndexed (summaryEntry sampleRuntime 4) sampleExport 0 = Ok es
    /\ length es = length sampleExport
    /\ forall k c, sampleExport !! k = Some c ->
         exists e, es !! k = Some e
                   /\ se_number e = k + 1
                   /\ se_file e = summaryFile sampleRuntime c k
                   /\ se_messageCount e = messageCount sampleRuntime 4 c.
Proof.
  destruct (mapIndexed (summaryEntry sampleRuntime 4) sampleExport 0) as [es|m|] eqn:E;
    [|by vm_compute in E..].
  exists es. split; [reflexivity|].
  exact (generateSummary_entries sampleRuntime 4 sampleExport es E).
Defined.

Lemma summary_counts_agree_at_example :
  exists st es,
    processAll sampleRuntime 4 sampleExport 0 (setTotal (length sampleExport) initialState)
    = Some st
    /\ mapIndexed (summaryEntry sampleRuntime 4) sampleExport 0 = Ok es
    /\ sum_totalMessages (summaryOf sampleReporter sampleExport st es)
       = sum_list (se_messageCount <$> es)
    /\ sum_processedFiles (summaryOf sampleReporter sampleExport st es)
       + sum_errors (summaryOf sampleReporter sampleExport st es)
       = sum_totalConversations (summaryOf sampleReporter sampleExport st es).
Proof.
  destruct (processAll sampleRuntime 4 sampleExport 0
              (setTotal (length sampleExport) initialState)) as [st|] eqn:E1;
    [|by vm_compute in E1].
  destruct (mapIndexed (summaryEntry sampleRuntime 4) sampleExport 0) as [es|m|] eqn:E2;
    [|by vm_compute in E2..].
  exists st, es. split; [reflexivity|]. split; [reflexivity|].
  exact (summary_counts_agree sampleRuntime sampleReporter 4 sampleExport st es
           eq_refl E1 E2).
Defined.

Lemma formatAll_ends_at_example :
  is_Some (formatAll sampleRuntime sampleReporter 4 (Parsed sampleExport) initialState).
Proof.
  apply (formatAll_ends sampleRuntime sampleReporter 4 sampleExport initialState).
  apply sampleExport_chains_end.
Defined.


Lemma formatAll_accounts_for_all_at_example :
  exists st',
    formatAll sampleRuntime sampleReporter 4 (Parsed sampleExport) initialState
    = Some (Completed st')
    /\ exists conversations,
         Parsed sampleExport = Parsed conversations
         /\ totalConversations (stats st') = length conversations
         /\ processedFiles (stats st') + errors (stats st') = length conversations.
Proof.
  destruct (formatAll sampleRuntime sampleReporter 4 (Parsed sampleExport) initialState)
    as [[st'|st']|] eqn:E; [by vm_compute in E| |by vm_compute in E].
  exists st'. split; [reflexivity|].
  exact (formatAll_accounts_for_all sampleRuntime sampleReporter 4 (Parsed sampleExport)
           st' E).
Defined.

Lemma formatAll_counts_messages_at_example :
  exists st',
    formatAll sampleRuntime sampleReporter 4 (Parsed sampleExport) initialState
    = Some (Completed st')
    /\ totalMessages (stats st') = sum_list (messageCount sampleRuntime 4 <$> sampleExport).
Proof.
  destruct (formatAll sampleRuntime sampleReporter 4 (Parsed sampleExport) initialState)
    as [[st'|st']|] eqn:E; [by vm_compute in E| |by vm_compute in E].
  exists st'. split; [reflexivity|].
  exact (formatAll_counts_messages sampleRuntime sampleReporter 4 sampleExport st'
           eq_refl E).
Defined.

Lemma formatAll_quiet_run_at_example :
  exists st',
    formatAll sampleRuntime sampleReporter 4 (Parsed sampleExport) initialState
    = Some (Completed st')
    /\ errors (stats st') = 0
    /\ processedFiles (stats st') = length sampleExport
    /\ (exists reports,
          (files st').*1
          = reports
            ++ rev (fileNames sampleRuntime 0
                      (sortConversationsByDate sampleRuntime sampleExport))
          /\ (reports = [] \/ reports = [u "index.html"; u "summary.json"]))
    /\ (Forall (validDate sampleRuntime) sampleExport ->
        sortConversationsByDate sampleRuntime sampleExport
        = stableSort (compareByDate sampleRuntime) sampleExport).
Proof.
  destruct (formatAll sampleRuntime sampleReporter 4 (Parsed sampleExport) initialState)
    as [[st'|st']|] eqn:E; [by vm_compute in E| |by vm_compute in E].
  exists st'. split; [reflexivity|].
  exact (formatAll_quiet_run sampleRuntime sampleReporter 4 sampleExport st'
           eq_refl (fun _ _ => eq_refl) E).
Defined.

(** An input that is no array. *)
Lemma formatAll_exit_writes_nothing_at_example :
  formatAll sampleRuntime sampleReporter 4 NotArray emptyState = Some (Exit1 emptyState)
  /\ files emptyState = files emptyState
  /\ (NotArray = Unreadable \/ NotArray = NotArray \/ is_Some (mkdirError sampleReporter)).
Proof.
  split; [reflexivity|].
  destruct (formatAll_exit_writes_nothing sampleRuntime sampleReporter 4 NotArray
              emptyState emptyState eq_refl) as (H1 & _ & _ & _ & H2).
  by split.
Defined.
